(** * voosh-frontend: the event-stream decoder and the transcript reducers

    A shallow embedding of the streaming core of the chat client:

    - [src/api/chat.js]: [postChatStream], the decoder that turns the chunks
      of a response body into events handed to a callback;
    - [src/hooks/useChat.js]: the [onEvent] reducer of the [useChat] hook,
      [cancelStream], and the streaming path of [send];
    - [src/components/ChatWindow.jsx]: [replaceLastAssistantText], the
      session-loading effect and [handleSend], which holds a second copy of
      the decoder fused with its own reducer.

    How the code is read:

    - a JavaScript string is the list of its UTF-16 code units, each a number
      of type [N];
    - a value is what [JSON.parse] can return, a raw string, or [undefined];
      the operators [||], [typeof], [+], [String()] and property access are
      written out as far as the source uses them;
    - React state is passed explicitly: a functional updater handed to a
      state setter is applied to the state in the order of the calls;
    - an exception is an outcome of its own, so that the [catch] blocks of
      the source can be followed;
    - a request is followed from its answered state on: each settling of
      [reader.read()] is one step, and [Date.now()] is read once per step;
    - what the platform provides ([JSON.parse], the numbers, the wording of
      error messages) is a parameter, the class [Platform]. *)

From Stdlib Require Import List NArith ZArith Ascii Bool Lia.
From Stdlib Require String DecimalString.
Import ListNotations.
Import String.StringSyntax.
Delimit Scope string_scope with string.
Bind Scope string_scope with String.string.
Open Scope N_scope.

Set Implicit Arguments.

(** ** Strings *)

Definition jsstring := list N.

(** A string literal of the source, code unit by code unit. *)
Definition lit (s : String.string) : jsstring :=
  map N_of_ascii (String.list_ascii_of_string s).

Definition LF : N := 10.
Definition CR : N := 13.

(** The code units that [String.prototype.trim] removes and that [\s]
    matches: ECMAScript's WhiteSpace and LineTerminator. *)
Definition is_white_space (c : N) : bool :=
  existsb (N.eqb c)
    [9; 10; 11; 12; 13; 32; 160; 5760; 8232; 8233; 8239; 8287; 12288; 65279]
  || ((8192 <=? c) && (c <=? 8202)).

Fixpoint drop_white (s : jsstring) : jsstring :=
  match s with
  | [] => []
  | c :: t => if is_white_space c then drop_white t else s
  end.

(** [s.trim()] *)
Definition trim (s : jsstring) : jsstring :=
  rev (drop_white (rev (drop_white s))).

(** [s.startsWith(p)] *)
Fixpoint startsWith (s p : jsstring) : bool :=
  match p, s with
  | [], _ => true
  | _ :: _, [] => false
  | a :: p', b :: s' => (a =? b) && startsWith s' p'
  end.

(** [line.replace(/^field\s*/, empty)]: the field name at the start of the line
    and the white space after it are removed; a line that does not start with
    the field name is returned as it is. *)
Definition strip_field (field line : jsstring) : jsstring :=
  if startsWith line field
  then drop_white (skipn (length field) line)
  else line.

(** [parts.join(sep)] on an array of strings. *)
Fixpoint join (sep : jsstring) (parts : list jsstring) : jsstring :=
  match parts with
  | [] => []
  | [p] => p
  | p :: rest => p ++ sep ++ join sep rest
  end.

(** [Boolean(s)] for a string: the empty string is the only falsy one. *)
Definition nonempty (s : jsstring) : bool :=
  match s with [] => false | _ :: _ => true end.

(** ** Splitting on a regular expression

    A separator is given by its anchored matcher: [m s] is [Some r] when the
    regular expression matches at the start of [s] and [r] is what follows
    the match.  Both separators of the source match in one way only, so the
    backtracking order of the regular-expression engine plays no role. *)

Definition matcher := jsstring -> option jsstring.

(** [/\r?\n/] *)
Definition newline : matcher := fun s =>
  match s with
  | [] => None
  | c :: t =>
      if c =? LF then Some t
      else if c =? CR then
        match t with
        | [] => None
        | c' :: t' => if c' =? LF then Some t' else None
        end
      else None
  end.

(** [/\r?\n\r?\n/] *)
Definition blank_line : matcher := fun s =>
  match newline s with
  | Some r => newline r
  | None => None
  end.

(** The leftmost match of the separator in [s]: the text before it and the
    text after it. *)
Fixpoint find_first (m : matcher) (s : jsstring) : option (jsstring * jsstring) :=
  match m s with
  | Some r => Some ([], r)
  | None =>
      match s with
      | [] => None
      | c :: t =>
          match find_first m t with
          | Some (p, r) => Some (c :: p, r)
          | None => None
          end
      end
  end.

(** [s.split(re)]: cut at the leftmost match and go on after it.  The fuel
    is the length of the string, which no run exhausts because a match of
    either separator is never empty. *)
Fixpoint split_fuel (m : matcher) (fuel : nat) (s : jsstring) : list jsstring :=
  match find_first m s with
  | None => [s]
  | Some (p, r) =>
      match fuel with
      | O => [s]
      | S f => p :: split_fuel m f r
      end
  end.

Definition split (m : matcher) (s : jsstring) : list jsstring :=
  split_fuel m (length s) s.

(** [a === b] on strings *)
Fixpoint str_eqb (a b : jsstring) : bool :=
  match a, b with
  | [], [] => true
  | x :: a', y :: b' => (x =? y) && str_eqb a' b'
  | _, _ => false
  end.

(** ** Values

    The values a payload, a message text or a session identifier can hold:
    what [JSON.parse] returns, a raw string, or [undefined] for a property
    that is not there.  Numbers are kept abstract: the type [number] and its
    few operations belong to the platform. *)

#[warnings="-register-all"]
Inductive value (number : Type) : Type :=
| VUndefined
| VNull
| VBool (b : bool)
| VNum (n : number)
| VStr (s : jsstring)
| VArr (items : list (value number))
| VObj (props : list (jsstring * value number)).

Arguments VUndefined {number}.
Arguments VNull {number}.
Arguments VBool {number} b.
Arguments VNum {number} n.
Arguments VStr {number} s.
Arguments VArr {number} items.
Arguments VObj {number} props.

(** The exceptions the modelled code can meet. *)
Inductive error : Type :=
| TypeError_property_of_null   (* reading a property of null or undefined *)
| TypeError_to_primitive       (* an object that converts to no primitive *)
| AbortError                   (* the request's signal was aborted *)
| NetworkError.                (* the transport failed *)

(** How a piece of code ends.  [Throw] is an exception raised in the running
    function, which a [catch] around it sees.  [Crash] is an exception raised
    inside a functional updater handed to a state setter: React runs the
    updater, no [catch] of the caller is on the stack, and the component
    tree is taken down. *)
Inductive outcome (A : Type) : Type :=
| Ok (a : A)
| Throw (e : error)
| Crash (e : error).

Arguments Ok {A} a.
Arguments Throw {A} e.
Arguments Crash {A} e.

Definition bind {A B : Type} (x : outcome A) (k : A -> outcome B) : outcome B :=
  match x with
  | Ok a => k a
  | Throw e => Throw e
  | Crash e => Crash e
  end.

(** The same computation run inside a state updater. *)
Definition in_updater {A : Type} (x : outcome A) : outcome A :=
  match x with
  | Throw e => Crash e
  | other => other
  end.

Notation "x <- c ;; k" := (bind c (fun x => k))
  (at level 61, c at next level, right associativity).

(** What the platform provides and the repository does not define: IEEE
    numbers, [JSON.parse] ([None] when it throws a SyntaxError), and the text
    [`${err.message || err}`] an engine gives for an exception. *)
Class Platform : Type := {
  number : Type;
  Number_NaN : number;
  Number_zero : number;
  Number_one : number;
  Number_add : number -> number -> number;
  Number_isFalsy : number -> bool;        (* +0, -0 and NaN *)
  Number_toString : number -> jsstring;
  JSON_parse : jsstring -> option (value number);
  Error_text : error -> jsstring
}.

Section Semantics.

Context {P : Platform}.

Local Abbreviation val := (value number).

(** *** Operators of the language, as far as the source uses them *)

(** [Boolean(v)] *)
Definition truthy (v : val) : bool :=
  match v with
  | VUndefined | VNull => false
  | VBool b => b
  | VNum n => negb (Number_isFalsy n)
  | VStr s => nonempty s
  | VArr _ | VObj _ => true
  end.

(** [a || b] *)
Definition or_else (a b : val) : val :=
  if truthy a then a else b.

(** [typeof v] *)
Definition typeof (v : val) : jsstring :=
  match v with
  | VUndefined => lit "undefined"
  | VNull | VArr _ | VObj _ => lit "object"
  | VBool _ => lit "boolean"
  | VNum _ => lit "number"
  | VStr _ => lit "string"
  end.

(** [Array.isArray(v)] *)
Definition isArray (v : val) : bool :=
  match v with
  | VArr _ => true
  | _ => false
  end.

(** The own property [key] of an object built by [JSON.parse]; of two
    members with one name the later one counts. *)
Fixpoint lookup (key : jsstring) (props : list (jsstring * val)) : option val :=
  match props with
  | [] => None
  | (k, v) :: rest =>
      match lookup key rest with
      | Some v' => Some v'
      | None => if str_eqb k key then Some v else None
      end
  end.

(** [v?.key], for the property names the source reads ([delta], [data],
    [answer], [text], [error], [sessionId], [sources]): none of them is
    defined by a built-in prototype, so only an object's own member counts. *)
Definition get_opt (v : val) (key : jsstring) : val :=
  match v with
  | VObj props =>
      match lookup key props with
      | Some x => x
      | None => VUndefined
      end
  | _ => VUndefined
  end.

(** [v.key]: as [v?.key], but reading a property of [null] or [undefined]
    throws. *)
Definition get (v : val) (key : jsstring) : outcome val :=
  match v with
  | VUndefined | VNull => Throw TypeError_property_of_null
  | _ => Ok (get_opt v key)
  end.

(** [String(v)], which is also the conversion of a template literal and of
    [+] with a string.  An array is joined with commas, [null] and
    [undefined] elements giving the empty string; a plain object gives
    ["[object Object]"] unless it has a member named [toString], which hides
    [Object.prototype.toString] and is not callable. *)
Fixpoint ToString (v : val) : outcome jsstring :=
  match v with
  | VUndefined => Ok (lit "undefined")
  | VNull => Ok (lit "null")
  | VBool true => Ok (lit "true")
  | VBool false => Ok (lit "false")
  | VNum n => Ok (Number_toString n)
  | VStr s => Ok s
  | VArr items =>
      parts <- (fix elements (l : list val) : outcome (list jsstring) :=
                  match l with
                  | [] => Ok []
                  | x :: rest =>
                      a <- match x with
                           | VUndefined | VNull => Ok []
                           | _ => ToString x
                           end ;;
                      b <- elements rest ;;
                      Ok (a :: b)
                  end) items ;;
      Ok (join (lit ",") parts)
  | VObj props =>
      match lookup (lit "toString") props with
      | Some _ => Throw TypeError_to_primitive
      | None => Ok (lit "[object Object]")
      end
  end.

(** [ToPrimitive]: arrays and objects become their string. *)
Definition ToPrimitive (v : val) : outcome val :=
  match v with
  | VArr _ | VObj _ => s <- ToString v ;; Ok (VStr s)
  | _ => Ok v
  end.

(** [ToNumber] of a primitive that is not a string. *)
Definition ToNumber (v : val) : number :=
  match v with
  | VNum n => n
  | VBool true => Number_one
  | VNull | VBool false => Number_zero
  | _ => Number_NaN
  end.

Definition is_string (v : val) : bool :=
  match v with
  | VStr _ => true
  | _ => false
  end.

(** [a + b] *)
Definition js_add (a b : val) : outcome val :=
  pa <- ToPrimitive a ;;
  pb <- ToPrimitive b ;;
  if is_string pa || is_string pb
  then sa <- ToString pa ;; sb <- ToString pb ;; Ok (VStr (sa ++ sb))
  else Ok (VNum (Number_add (ToNumber pa) (ToNumber pb))).

End Semantics.

(** ** The two decoders *)

Section Decoders.

Context {P : Platform}.

Local Abbreviation val := (value number).

(** What the callback of [postChatStream] receives, and what the loop of
    [handleSend] dispatches on. *)
Record StreamEvent : Type := {
  event : jsstring;
  data : val
}.

(** [block.split(/\r?\n/).map((l) => l.trim()).filter(Boolean)] *)
Definition block_lines (block : jsstring) : list jsstring :=
  filter nonempty (map trim (split newline block)).

(** The two variables a block is scanned into: [evt], [null] at first, and
    [dataLines]. *)
Record Fields : Type := {
  evt : option jsstring;
  dataLines : list jsstring
}.

Definition no_fields : Fields := {| evt := None; dataLines := [] |}.

(** One turn of the loop over the lines in [postChatStream]
    (chat.js, lines 76-82 and 106-112). *)
Definition api_line (f : Fields) (line : jsstring) : Fields :=
  if startsWith line (lit "event:") then
    {| evt := Some (strip_field (lit "event:") line); dataLines := dataLines f |}
  else if startsWith line (lit "data:") then
    {| evt := evt f; dataLines := dataLines f ++ [strip_field (lit "data:") line] |}
  else f.

(** One turn of the loop over the lines in [handleSend]
    (ChatWindow.jsx, lines 170-179 and 240-245). *)
Definition window_line (f : Fields) (line : jsstring) : Fields :=
  if startsWith line (lit "event:") then
    {| evt := Some (strip_field (lit "event:") line); dataLines := dataLines f |}
  else if startsWith line (lit "data:") then
    {| evt := evt f; dataLines := dataLines f ++ [strip_field (lit "data:") line] |}
  else
    {| evt := evt f; dataLines := dataLines f ++ [line] |}.

(** [evt || "message"] *)
Definition effective_event (e : option jsstring) : jsstring :=
  match e with
  | Some (c :: s) => c :: s
  | _ => lit "message"
  end.

(** [let parsed = raw; try { parsed = JSON.parse(raw); } catch (e) {}] *)
Definition parse_payload (raw : jsstring) : val :=
  match JSON_parse raw with
  | Some v => v
  | None => VStr raw
  end.

(** [dataLines.join("\n")] of a block, for either scanner. *)
Definition raw_payload (scan : Fields -> jsstring -> Fields) (block : jsstring) : jsstring :=
  join [LF] (dataLines (fold_left scan (block_lines block) no_fields)).

Definition decode_block (scan : Fields -> jsstring -> Fields) (block : jsstring) : StreamEvent :=
  {| event := effective_event (evt (fold_left scan (block_lines block) no_fields));
     data := parse_payload (raw_payload scan block) |}.

Definition api_block : jsstring -> StreamEvent := decode_block api_line.
Definition window_block : jsstring -> StreamEvent := decode_block window_line.

(** [buffer += chunk; blocks = buffer.split(/\r?\n\r?\n/); buffer = blocks.pop()]:
    the complete blocks and the new buffer. *)
Definition pump (buffer chunk : jsstring) : list jsstring * jsstring :=
  let blocks := split blank_line (buffer ++ chunk) in
  (removelast blocks, last blocks []).

(** *** [postChatStream] (chat.js, lines 42-125)

    The state of the loop is [buffer], the calls made to [onEvent] so far and
    [doneData]. *)
Record Reader : Type := {
  buffer : jsstring;
  calls : list StreamEvent;
  doneData : val
}.

Definition reader_start : Reader :=
  {| buffer := []; calls := []; doneData := VNull |}.

(** Lines 70-94 for one block: the callback, then [doneData]. *)
Definition api_emit (r : Reader) (block : jsstring) : Reader :=
  let ev := api_block block in
  {| buffer := buffer r;
     calls := calls r ++ [ev];
     doneData := if str_eqb (event ev) (lit "done") then data ev else doneData r |}.

(** Lines 58-95 for one chunk. *)
Definition api_chunk (r : Reader) (chunk : jsstring) : Reader :=
  let (blocks, rest) := pump (buffer r) chunk in
  let r' := fold_left api_emit blocks r in
  {| buffer := rest; calls := calls r'; doneData := doneData r' |}.

(** Lines 98-122: what is left in the buffer when the body ends. *)
Definition api_flush (r : Reader) : Reader :=
  if nonempty (trim (buffer r)) then api_emit r (buffer r) else r.

(** The whole read of a body that arrives as [chunks]: the calls made to the
    callback and the value the promise resolves to. *)
Definition postChatStream (chunks : list jsstring) : list StreamEvent * val :=
  let r := api_flush (fold_left api_chunk chunks reader_start) in
  (calls r, doneData r).

(** *** The decoder inside [handleSend] (ChatWindow.jsx, lines 149-270)

    The events the blocks of a body decode to, in order, and the buffer left
    when the body ends.  This is the decoding alone.  The loop decodes a
    block and dispatches on its event in one turn, inside the [try] of
    [handleSend], so it gets to a block only when no branch has thrown
    before: the loop itself is [window_read], the events it dispatches on
    are [loop_events], and they are a first part of the events here. *)
Definition window_chunk (st : list StreamEvent * jsstring) (chunk : jsstring)
  : list StreamEvent * jsstring :=
  let (blocks, rest) := pump (snd st) chunk in
  (fst st ++ map window_block blocks, rest).

Definition window_decode (chunks : list jsstring) : list StreamEvent * jsstring :=
  fold_left window_chunk chunks ([], []).

(** The event of the leftover block (lines 231-251), if the buffer is not
    blank. *)
Definition window_leftover (rest : jsstring) : option StreamEvent :=
  if nonempty (trim rest) then Some (window_block rest) else None.


Definition stream_of (blocks : list jsstring) : jsstring :=
  concat (map (fun b => b ++ [LF; LF]) blocks).

(** The two decoders seen from outside. *)

Definition is_done (ev : StreamEvent) : bool := str_eqb (event ev) (lit "done").

(** The payload of the last event named [done], [null] when there is none. *)
Definition last_done_payload (evs : list StreamEvent) : val :=
  match find is_done (rev evs) with
  | Some ev => data ev
  | None => VNull
  end.

(** What a line of a block adds to the payload when every line that is not
    an [event:] line counts: a [data:] line without its prefix, any other
    line as it is. *)
Definition is_event_line (line : jsstring) : bool := startsWith line (lit "event:").
Definition is_data_line (line : jsstring) : bool := startsWith line (lit "data:").

Definition payload_text (line : jsstring) : jsstring :=
  if is_data_line line then strip_field (lit "data:") line else line.

Definition lenient_payload (block : jsstring) : jsstring :=
  join [LF]
    (map payload_text (filter (fun l => negb (is_event_line l)) (block_lines block))).

(** The payload when only [data:] lines count. *)
Definition strict_payload (block : jsstring) : jsstring :=
  join [LF]
    (map (strip_field (lit "data:"))
       (filter (fun l => negb (is_event_line l) && is_data_line l) (block_lines block))).

End Decoders.

(** ** Conversation turns *)

Section Transcript.

Context {P : Platform}.

Local Abbreviation val := (value number).

(** [{ role, text, ts }].  [ts] is absent on the turns [useChat] pushes from
    inside its updaters. *)
Record Message : Type := {
  role : jsstring;
  text : val;
  ts : option N
}.

(** [{ ...m, text: t }] *)
Definition with_text (m : Message) (t : val) : Message :=
  {| role := role m; text := t; ts := ts m |}.

(** [copy[i] = x] for an index inside the array. *)
Fixpoint set_at (i : nat) (x : Message) (l : list Message) : list Message :=
  match l, i with
  | [], _ => []
  | _ :: t, O => x :: t
  | y :: t, S j => y :: set_at j x t
  end.

(** [roles.lastIndexOf(r)]; [None] stands for -1. *)
Fixpoint lastIndexOf (r : jsstring) (roles : list jsstring) : option nat :=
  match roles with
  | [] => None
  | y :: t =>
      match lastIndexOf r t with
      | Some i => Some (S i)
      | None => if str_eqb y r then Some O else None
      end
  end.

(** [arr.findIndex(p)]; [None] stands for -1. *)
Fixpoint findIndex (p : Message -> bool) (l : list Message) : option nat :=
  match l with
  | [] => None
  | x :: t =>
      if p x then Some O
      else match findIndex p t with
           | Some i => Some (S i)
           | None => None
           end
  end.

(** A turn with the role [r]. *)
Definition has_role (r : jsstring) (x : Message) : bool := str_eqb (role x) r.

(** No turn of [l] satisfies [p]. *)
Definition none_of (p : Message -> bool) (l : list Message) : Prop :=
  Forall (fun x => p x = false) l.

(** The turn an updater of [useChat] pushes. *)
Definition assistant_turn (t : val) : Message :=
  {| role := lit "assistant"; text := t; ts := None |}.

(** What an event may do to the turns: nothing, a new text for the last
    assistant turn, or one more assistant turn when there was none. *)
Definition touches_last_assistant (old new : list Message) : Prop :=
  new = old \/
  (exists before m after t,
     old = before ++ m :: after /\ has_role (lit "assistant") m = true /\
     none_of (has_role (lit "assistant")) after /\
     new = before ++ with_text m t :: after) \/
  (exists t, none_of (has_role (lit "assistant")) old /\ new = old ++ [assistant_turn t]).

(** Every turn of [old] stands unchanged at its place in [new]. *)
Definition kept (old new : list Message) : Prop :=
  forall i m, nth_error old i = Some m -> nth_error new i = Some m.

End Transcript.

(** ** The reducer of [useChat] (useChat.js) *)

Section UseChat.

Context {P : Platform}.

Local Abbreviation val := (value number).

(** The four pieces of state of the hook. *)
Record Chat : Type := {
  sessionId : val;
  messages : list Message;
  loading : bool;
  sources : val
}.

(** [useChat()]: [initialSessionId] is [null] by default. *)
Definition chat_start : Chat :=
  {| sessionId := VNull; messages := []; loading := false; sources := VArr [] |}.

Definition set_sessionId (v : val) (c : Chat) : Chat :=
  {| sessionId := v; messages := messages c; loading := loading c; sources := sources c |}.

Definition set_messages (m : list Message) (c : Chat) : Chat :=
  {| sessionId := sessionId c; messages := m; loading := loading c; sources := sources c |}.

Definition set_loading (b : bool) (c : Chat) : Chat :=
  {| sessionId := sessionId c; messages := messages c; loading := b; sources := sources c |}.

Definition set_sources (v : val) (c : Chat) : Chat :=
  {| sessionId := sessionId c; messages := messages c; loading := loading c; sources := v |}.

(** [appendMessage(m)] (lines 12-14) *)
Definition appendMessage (now : N) (r : jsstring) (t : val) (c : Chat) : Chat :=
  set_messages (messages c ++ [{| role := r; text := t; ts := Some now |}]) c.

(** The updater of the [message] branch (lines 50-62). *)
Definition append_delta (data : val) (prev : list Message) : outcome (list Message) :=
  match lastIndexOf (lit "assistant") (map role prev) with
  | None =>
      Ok (prev ++ [{| role := lit "assistant"; text := or_else data (VStr []); ts := None |}])
  | Some idx =>
      match nth_error prev idx with
      | None => Ok prev
      | Some m =>
          piece <- (if str_eqb (typeof data) (lit "string") then Ok data
                    else s <- ToString data ;; Ok (VStr s)) ;;
          t <- js_add (or_else (text m) (VStr [])) piece ;;
          Ok (set_at idx (with_text m t) prev)
      end
  end.

(** The updater of the [done] branch (lines 68-77), which the fallback after
    the stream repeats (lines 106-112). *)
Definition put_answer (answer : val) (prev : list Message) : list Message :=
  match lastIndexOf (lit "assistant") (map role prev) with
  | None => prev ++ [{| role := lit "assistant"; text := answer; ts := None |}]
  | Some idx =>
      match nth_error prev idx with
      | None => prev
      | Some m => set_at idx (with_text m answer) prev
      end
  end.

(** The updater of the [error] branch (lines 83-92). *)
Definition append_error (errText : jsstring) (prev : list Message) : outcome (list Message) :=
  match lastIndexOf (lit "assistant") (map role prev) with
  | Some idx =>
      match nth_error prev idx with
      | None => Ok prev
      | Some m =>
          t <- js_add (or_else (text m) (VStr []))
                      (VStr ([LF; LF] ++ lit "[Error: " ++ errText ++ lit "]")) ;;
          Ok (set_at idx (with_text m t) prev)
      end
  | None =>
      Ok (prev ++ [{| role := lit "assistant";
                      text := VStr (lit "[Error: " ++ errText ++ lit "]");
                      ts := None |}])
  end.

(** [onEvent] (lines 45-95) *)
Definition onEvent (c : Chat) (ev : StreamEvent) : outcome Chat :=
  let d := data ev in
  if str_eqb (event ev) (lit "session") && truthy (get_opt d (lit "sessionId")) then
    Ok (set_sessionId (get_opt d (lit "sessionId")) c)
  else if str_eqb (event ev) (lit "message") then
    m <- in_updater (append_delta d (messages c)) ;;
    Ok (set_messages m c)
  else if str_eqb (event ev) (lit "done") then
    let c1 := if truthy (get_opt d (lit "sessionId"))
              then set_sessionId (get_opt d (lit "sessionId")) c else c in
    let c2 := if truthy (get_opt d (lit "answer"))
              then set_messages (put_answer (get_opt d (lit "answer")) (messages c1)) c1
              else c1 in
    let c3 := if isArray (get_opt d (lit "sources"))
              then set_sources (get_opt d (lit "sources")) c2 else c2 in
    Ok (set_loading false c3)
  else if str_eqb (event ev) (lit "error") then
    errText <- (if truthy (get_opt d (lit "error"))
                then ToString (get_opt d (lit "error"))
                else Ok (lit "Unknown stream error")) ;;
    m <- in_updater (append_error errText (messages c)) ;;
    Ok (set_loading false (set_messages m c))
  else Ok c.

End UseChat.

(** ** A streaming [send] of [useChat] (useChat.js, lines 16-132)

    One call [send({ message, stream: true })] after its request was
    answered: the hook's state, what the closure of the call holds, and the
    variables of the [postChatStream] it awaits. *)

(** How an awaited [reader.read()] settles. *)
Inductive read_result : Type :=
| Chunk (c : jsstring)      (* [{ value, done: false }], decoded *)
| EndOfBody                 (* [{ done: true }] *)
| ReadFailed (e : error).   (* the promise rejects *)

(** The platform's rule for an aborted signal: the body's stream is errored,
    so the read rejects whatever the network delivers. *)
Definition reader_read (aborted : bool) (arrives : read_result) : read_result :=
  if aborted then ReadFailed AbortError else arrives.

Section Send.

Context {P : Platform}.

Local Abbreviation val := (value number).

Record Send : Type := {
  chat : Chat;
  captured : val;        (* the [sessionId] the closure of [send] was built with *)
  abortRef : bool;       (* the ref of the hook holds the controller of this call *)
  aborted : bool;        (* [controller.signal.aborted] *)
  pending : bool;        (* [postChatStream] has not settled yet *)
  buf : jsstring;        (* [buffer] of [postChatStream] *)
  done_data : val        (* [doneData] of [postChatStream] *)
}.

Definition with_chat (c : Chat) (s : Send) : Send :=
  {| chat := c; captured := captured s; abortRef := abortRef s; aborted := aborted s;
     pending := pending s; buf := buf s; done_data := done_data s |}.

(** Lines 17-36, up to the call of [postChatStream]. *)
Definition send_begin (now : N) (message : jsstring) (c : Chat) : Send :=
  let c1 := appendMessage now (lit "user") (VStr message) (set_loading true c) in
  let c2 := appendMessage now (lit "assistant") (VStr []) c1 in
  {| chat := c2; captured := sessionId c; abortRef := true; aborted := false;
     pending := true; buf := []; done_data := VNull |}.

(** The [catch] of [send] (lines 118-123); the promise of [send] rejects. *)
Definition send_catch (now : N) (e : error) (s : Send) : Send :=
  {| chat := appendMessage now (lit "assistant") (VStr (lit "Error: " ++ Error_text e))
               (set_loading false (chat s));
     captured := captured s; abortRef := abortRef s; aborted := aborted s;
     pending := false; buf := buf s; done_data := done_data s |}.

(** One block of [postChatStream] with [onEvent] as its callback.  An
    exception of the callback leaves the loop for the [catch] of [send]; the
    blocks behind it are not looked at. *)
Definition send_block (now : N) (s : Send) (block : jsstring) : outcome Send :=
  if pending s then
    let ev := api_block block in
    match onEvent (chat s) ev with
    | Ok c =>
        Ok {| chat := c; captured := captured s; abortRef := abortRef s;
              aborted := aborted s; pending := true; buf := buf s;
              done_data := if str_eqb (event ev) (lit "done") then data ev
                           else done_data s |}
    | Throw e => Ok (send_catch now e s)
    | Crash e => Crash e
    end
  else Ok s.

Fixpoint send_blocks (now : N) (blocks : list jsstring) (s : Send) : outcome Send :=
  match blocks with
  | [] => Ok s
  | b :: rest => s' <- send_block now s b ;; send_blocks now rest s'
  end.

(** Lines 104-117, after [postChatStream] resolved. *)
Definition send_fallback (s : Send) : Send :=
  let dd := done_data s in
  let c := chat s in
  let c1 := if truthy (get_opt dd (lit "answer"))
            then set_messages (put_answer (get_opt dd (lit "answer")) (messages c)) c
            else c in
  let c2 := if truthy (get_opt dd (lit "sources"))
            then set_sources (get_opt dd (lit "sources")) c1 else c1 in
  let c3 := set_sessionId
              (or_else (or_else (sessionId c2) (get_opt dd (lit "sessionId"))) (captured s))
              c2 in
  {| chat := set_loading false c3; captured := captured s; abortRef := abortRef s;
     aborted := aborted s; pending := false; buf := buf s; done_data := dd |}.

(** The awaited read settles: one turn of the loop of [postChatStream]
    (chat.js, lines 57-96), the end of the body (lines 98-124, then
    useChat.js, lines 104-117), or the [catch]. *)
Definition send_read (now : N) (s : Send) (arrives : read_result) : outcome Send :=
  if pending s then
    match reader_read (aborted s) arrives with
    | Chunk c =>
        let (blocks, rest) := pump (buf s) c in
        send_blocks now blocks
          {| chat := chat s; captured := captured s; abortRef := abortRef s;
             aborted := aborted s; pending := true; buf := rest;
             done_data := done_data s |}
    | EndOfBody =>
        s' <- (if nonempty (trim (buf s)) then send_block now s (buf s) else Ok s) ;;
        Ok (if pending s' then send_fallback s' else s')
    | ReadFailed e => Ok (send_catch now e s)
    end
  else Ok s.

Fixpoint send_reads (s : Send) (settles : list (N * read_result)) : outcome Send :=
  match settles with
  | [] => Ok s
  | (now, r) :: rest => s' <- send_read now s r ;; send_reads s' rest
  end.

(** *** The hook and its calls

    The state is one per hook, and so is [abortRef]: every streaming [send]
    puts its controller there (line 33) without a look at the one it
    replaces.  A call keeps the rest to itself. *)

(** What one streaming call of [send] holds of its own: the [sessionId] of
    its closure, the signal of its controller, and the variables of the
    [postChatStream] it awaits. *)
Record Call : Type := {
  call_captured : val;
  call_aborted : bool;
  call_pending : bool;
  call_buf : jsstring;
  call_done : val
}.

(** The hook with the streaming calls made so far; [abortRef.current] holds
    the controller of one call at most. *)
Record Hook : Type := {
  hook_chat : Chat;
  abortRef_current : option nat;
  hook_calls : list Call
}.

(** [useChat()] *)
Definition hook_start : Hook :=
  {| hook_chat := chat_start; abortRef_current := None; hook_calls := [] |}.

(** The call [i] of the hook as [send] sees it. *)
Definition as_send (h : Hook) (i : nat) (c : Call) : Send :=
  {| chat := hook_chat h;
     captured := call_captured c;
     abortRef := match abortRef_current h with
                 | Some j => Nat.eqb i j
                 | None => false
                 end;
     aborted := call_aborted c;
     pending := call_pending c;
     buf := call_buf c;
     done_data := call_done c |}.

Definition as_call (s : Send) : Call :=
  {| call_captured := captured s; call_aborted := aborted s; call_pending := pending s;
     call_buf := buf s; call_done := done_data s |}.

Fixpoint set_call (i : nat) (x : Call) (l : list Call) : list Call :=
  match l, i with
  | [], _ => []
  | _ :: t, O => x :: t
  | y :: t, S j => y :: set_call j x t
  end.

(** [send({ message, stream: true })] up to its request (lines 17-36): the
    new controller takes the place of the one in [abortRef.current], which
    is not aborted. *)
Definition hook_send (now : N) (message : jsstring) (h : Hook) : Hook :=
  let s := send_begin now message (hook_chat h) in
  {| hook_chat := chat s;
     abortRef_current := Some (length (hook_calls h));
     hook_calls := hook_calls h ++ [as_call s] |}.

(** The awaited read of call [i] settles. *)
Definition hook_read (i : nat) (now : N) (arrives : read_result) (h : Hook)
  : outcome Hook :=
  match nth_error (hook_calls h) i with
  | None => Ok h
  | Some c =>
      s <- send_read now (as_send h i c) arrives ;;
      Ok {| hook_chat := chat s;
            abortRef_current := abortRef_current h;
            hook_calls := set_call i (as_call s) (hook_calls h) |}
  end.

(** The reads of one call, one after the other. *)
Fixpoint hook_reads (i : nat) (h : Hook) (settles : list (N * read_result))
  : outcome Hook :=
  match settles with
  | [] => Ok h
  | (now, r) :: rest => h' <- hook_read i now r h ;; hook_reads i h' rest
  end.

(** [cancelStream] (lines 126-132): the controller in [abortRef.current] is
    aborted, whichever call it belongs to. *)
Definition cancelStream (h : Hook) : Hook :=
  match abortRef_current h with
  | None => h
  | Some i =>
      {| hook_chat := set_loading false (hook_chat h);
         abortRef_current := None;
         hook_calls :=
           match nth_error (hook_calls h) i with
           | None => hook_calls h
           | Some c =>
               set_call i
                 {| call_captured := call_captured c; call_aborted := true;
                    call_pending := call_pending c; call_buf := call_buf c;
                    call_done := call_done c |}
                 (hook_calls h)
           end |}
  end.

End Send.

(** ** The chat window (ChatWindow.jsx) *)

Section ChatWindow.

Context {P : Platform}.

Local Abbreviation val := (value number).

(** The seven code units in front of a system notice in the source file: a
    warning sign as the file spells it, and a space. *)
Definition warning_mark : jsstring := [8218; 246; 8224; 212; 8719; 232; 32].

Definition assistant_or_system (x : Message) : bool :=
  str_eqb (role x) (lit "assistant") || str_eqb (role x) (lit "system").

(** The updater of [replaceLastAssistantText] (lines 80-93). *)
Definition replaceLastAssistantText (now : N) (newText : val) (m : list Message)
  : list Message :=
  match findIndex assistant_or_system (rev m) with
  | None => m ++ [{| role := lit "assistant"; text := newText; ts := Some now |}]
  | Some idx =>
      let pos := (length m - 1 - idx)%nat in
      match nth_error m pos with
      | None => m
      | Some x => set_at pos {| role := role x; text := newText; ts := Some now |} m
      end
  end.

(** A system notice handed to [appendMessage]. *)
Definition system_notice (now : N) (s : jsstring) : Message :=
  {| role := lit "system"; text := VStr (warning_mark ++ s); ts := Some now |}.

(** The [message] branch (lines 198-206 and 252-258): the new value of
    [assistantBuffer]. *)
Definition take_delta (parsed assistantBuffer : val) : outcome val :=
  delta <- (if str_eqb (typeof parsed) (lit "object") then
              d <- get parsed (lit "delta") ;;
              x <- get parsed (lit "data") ;;
              Ok (or_else (or_else d x) (VStr []))
            else Ok parsed) ;;
  js_add assistantBuffer delta.

(** The [done] branch (lines 207-214 and 259-265): [finalText]. *)
Definition take_final (parsed assistantBuffer : val) : outcome val :=
  if str_eqb (typeof parsed) (lit "object") then
    a <- get parsed (lit "answer") ;;
    t <- get parsed (lit "text") ;;
    Ok (or_else (or_else a t) assistantBuffer)
  else Ok parsed.

(** The dispatch on [effectiveEvent] inside the loop (lines 189-226), on the
    turns and [assistantBuffer]. *)
Definition dispatch (now : N) (ev : StreamEvent) (st : list Message * val)
  : outcome (list Message * val) :=
  let (m, ab) := st in
  if str_eqb (event ev) (lit "session") then Ok st
  else if str_eqb (event ev) (lit "message") then
    ab' <- take_delta (data ev) ab ;;
    Ok (replaceLastAssistantText now ab' m, ab')
  else if str_eqb (event ev) (lit "done") then
    ab' <- take_final (data ev) ab ;;
    Ok (replaceLastAssistantText now ab' m, ab')
  else if str_eqb (event ev) (lit "error") then
    s <- ToString (or_else (get_opt (data ev) (lit "error")) (data ev)) ;;
    Ok (m ++ [system_notice now s], ab)
  else Ok st.

(** The dispatch on the leftover block (lines 251-266): [message] and
    [done] only; the [try] around it swallows an exception. *)
Definition dispatch_leftover (now : N) (ev : StreamEvent) (st : list Message * val)
  : list Message * val :=
  let (m, ab) := st in
  let r :=
    if str_eqb (event ev) (lit "message") then
      ab' <- take_delta (data ev) ab ;;
      Ok (replaceLastAssistantText now ab' m, ab')
    else if str_eqb (event ev) (lit "done") then
      ab' <- take_final (data ev) ab ;;
      Ok (replaceLastAssistantText now ab' m, ab')
    else Ok st in
  match r with
  | Ok st' => st'
  | _ => st
  end.

(** The state of the component, with the prop [sessionId]. *)
Record Window : Type := {
  session : val;                              (* the prop [sessionId] *)
  turns : list Message;                       (* [messages] *)
  input : jsstring;
  isStreaming : bool;
  streamIndicator : bool;
  streamingAbortController : option nat       (* [.current]: the call it belongs to *)
}.

(** What one call of [handleSend] keeps while it reads its response. *)
Record Stream : Type := {
  signal_aborted : bool;     (* [ac.signal.aborted] *)
  reading : bool;            (* the call is still in its loop *)
  leftover : jsstring;       (* [buffer] *)
  assistantBuffer : val
}.

(** The component with the calls of [handleSend] made so far, and the
    number of the current run of the loading effect, whose [cancelled] flag
    is the only one still down. *)
Record App : Type := {
  window : Window;
  streams : list Stream;
  effect_run : nat
}.

Definition set_turns (m : list Message) (w : Window) : Window :=
  {| session := session w; turns := m; input := input w; isStreaming := isStreaming w;
     streamIndicator := streamIndicator w;
     streamingAbortController := streamingAbortController w |}.

(** The end of a call: both flags down and the controller forgotten
    (lines 273-275, and the same three lines in the [catch]). *)
Definition stop_streaming (w : Window) : Window :=
  {| session := session w; turns := turns w; input := input w; isStreaming := false;
     streamIndicator := false; streamingAbortController := None |}.

(** The [catch] of [handleSend] (lines 279-291). *)
Definition window_catch (now : N) (e : error) (w : Window) : Window :=
  stop_streaming
    (set_turns (replaceLastAssistantText now (VStr []) (turns w)
                ++ [system_notice now (lit "Stream error: " ++ Error_text e)]) w).

Definition stream_with (rd : bool) (rest : jsstring) (ab : val) (s : Stream) : Stream :=
  {| signal_aborted := signal_aborted s; reading := rd; leftover := rest;
     assistantBuffer := ab |}.

(** One block of the loop (lines 162-227).  An exception leaves the loop for
    the [catch]. *)
Definition window_step (now : N) (st : Window * Stream) (block : jsstring)
  : Window * Stream :=
  let (w, s) := st in
  if reading s then
    match dispatch now (window_block block) (turns w, assistantBuffer s) with
    | Ok (m, ab) => (set_turns m w, stream_with true (leftover s) ab s)
    | Throw e | Crash e =>
        (window_catch now e w, stream_with false (leftover s) (assistantBuffer s) s)
    end
  else st.

(** The awaited read of a call settles (lines 153-291). *)
Definition window_read (now : N) (st : Window * Stream) (arrives : read_result)
  : Window * Stream :=
  let (w, s) := st in
  if reading s then
    match reader_read (signal_aborted s) arrives with
    | Chunk c =>
        let (blocks, rest) := pump (leftover s) c in
        fold_left (window_step now) blocks
          (w, stream_with true rest (assistantBuffer s) s)
    | EndOfBody =>
        let (m, ab) :=
          match window_leftover (leftover s) with
          | Some ev => dispatch_leftover now ev (turns w, assistantBuffer s)
          | None => (turns w, assistantBuffer s)
          end in
        (stop_streaming (set_turns m w), stream_with false (leftover s) ab s)
    | ReadFailed e =>
        (window_catch now e w, stream_with false (leftover s) (assistantBuffer s) s)
    end
  else st.

Fixpoint set_stream (i : nat) (x : Stream) (l : list Stream) : list Stream :=
  match l, i with
  | [], _ => []
  | _ :: t, O => x :: t
  | y :: t, S j => y :: set_stream j x t
  end.

(** [streamingAbortController.current.abort()] *)
Definition abort_current (c : option nat) (l : list Stream) : list Stream :=
  match c with
  | None => l
  | Some i =>
      match nth_error l i with
      | None => l
      | Some s =>
          set_stream i {| signal_aborted := true; reading := reading s;
                          leftover := leftover s;
                          assistantBuffer := assistantBuffer s |} l
      end
  end.

(** [handleSend], from its start to the request (lines 98-130); the
    response is taken to be an [ok] one, so the call goes on to read it. *)
Definition handleSend (now : N) (a : App) : App :=
  let w := window a in
  let text := trim (input w) in
  if negb (nonempty text) then a
  else if negb (truthy (session w)) then a
  else
    {| window :=
         {| session := session w;
            turns := turns w
                     ++ [{| role := lit "user"; text := VStr text; ts := Some now |}]
                     ++ [{| role := lit "assistant"; text := VStr []; ts := Some now |}];
            input := [];
            isStreaming := true;
            streamIndicator := true;
            streamingAbortController := Some (length (streams a)) |};
       streams := abort_current (streamingAbortController w) (streams a)
                  ++ [{| signal_aborted := false; reading := true; leftover := [];
                         assistantBuffer := VStr [] |}];
       effect_run := effect_run a |}.

(** What can happen to the component. *)
Inductive action : Type :=
| SelectSession (id : val)                              (* the prop changes *)
| Loaded (run : nat) (history : option (list Message))  (* the GET of an effect run settles *)
| SetInput (s : jsstring)
| Submit (now : N)                                      (* Enter or the button *)
| Read (call : nat) (now : N) (arrives : read_result).  (* a read of a call settles *)

(** The loading effect (lines 25-56) and the rest, one action at a time. *)
Definition step (a : App) (act : action) : App :=
  let w := window a in
  match act with
  | SelectSession id =>
      {| window :=
           {| session := id;
              turns := if truthy id then turns w else [];
              input := input w; isStreaming := isStreaming w;
              streamIndicator := streamIndicator w;
              streamingAbortController := streamingAbortController w |};
         streams := streams a;
         effect_run := S (effect_run a) |}
  | Loaded run history =>
      match history with
      | Some msgs =>
          if Nat.eqb run (effect_run a)
          then {| window := set_turns msgs w; streams := streams a;
                  effect_run := effect_run a |}
          else a
      | None =>
          {| window := set_turns [] w; streams := streams a; effect_run := effect_run a |}
      end
  | SetInput s =>
      {| window :=
           {| session := session w; turns := turns w; input := s;
              isStreaming := isStreaming w; streamIndicator := streamIndicator w;
              streamingAbortController := streamingAbortController w |};
         streams := streams a; effect_run := effect_run a |}
  | Submit now => if isStreaming w then a else handleSend now a
  | Read call now arrives =>
      match nth_error (streams a) call with
      | None => a
      | Some s =>
          let (w', s') := window_read now (w, s) arrives in
          {| window := w'; streams := set_stream call s' (streams a);
             effect_run := effect_run a |}
      end
  end.

Definition run (a : App) (acts : list action) : App := fold_left step acts a.

(** No call has had its request aborted. *)
Definition never_aborted (a : App) : Prop :=
  Forall (fun s => signal_aborted s = false) (streams a).

(** The window holds a controller only while [isStreaming] is up. *)
Definition gated (a : App) : Prop :=
  (isStreaming (window a) = false -> streamingAbortController (window a) = None) /\
  never_aborted a.

End ChatWindow.

(** ** A platform to evaluate examples on

    The whole numbers among the numbers ([None] stands for NaN), and a
    [JSON.parse] for the texts of the examples: literals, whole numbers,
    strings without escapes, arrays and objects.  It refuses every other text,
    so it is used on concrete inputs only and no theorem about the code
    depends on it. *)

Module Demo.

Definition num : Type := option Z.

Definition num_add (a b : num) : num :=
  match a, b with
  | Some x, Some y => Some (x + y)%Z
  | _, _ => None
  end.

Definition num_isFalsy (a : num) : bool :=
  match a with
  | Some x => (x =? 0)%Z
  | None => true
  end.

Definition num_toString (a : num) : jsstring :=
  match a with
  | Some x =>
      map N_of_ascii
        (String.list_ascii_of_string (DecimalString.NilZero.string_of_int (Z.to_int x)))
  | None => lit "NaN"
  end.

Definition json := value num.

Definition is_json_space (c : N) : bool :=
  (c =? 32) || (c =? 9) || (c =? 10) || (c =? 13).

Fixpoint skip_space (s : jsstring) : jsstring :=
  match s with
  | c :: t => if is_json_space c then skip_space t else s
  | [] => []
  end.

Definition is_digit (c : N) : bool := (48 <=? c) && (c <=? 57).

(** The characters of a string up to its closing quote. *)
Fixpoint read_string (s : jsstring) : option (jsstring * jsstring) :=
  match s with
  | [] => None
  | c :: t =>
      if c =? 34 then Some ([], t)
      else if (c =? 92) || (c <? 32) then None
      else match read_string t with
           | Some (body, rest) => Some (c :: body, rest)
           | None => None
           end
  end.

Fixpoint read_digits (acc : Z) (s : jsstring) : Z * jsstring :=
  match s with
  | c :: t => if is_digit c then read_digits (10 * acc + Z.of_N (c - 48))%Z t else (acc, s)
  | [] => (acc, [])
  end.

(** [0] or a number that starts with another digit, with nothing of a
    fraction or an exponent behind it. *)
Definition read_natural (s : jsstring) : option (Z * jsstring) :=
  match s with
  | c :: t =>
      if negb (is_digit c) then None
      else
        let (z, rest) := if c =? 48 then (0%Z, t) else read_digits 0 s in
        match rest with
        | d :: _ =>
            if is_digit d || (d =? 46) || (d =? 101) || (d =? 69) then None
            else Some (z, rest)
        | [] => Some (z, rest)
        end
  | [] => None
  end.

Definition expect (word : jsstring) (v : json) (s : jsstring) : option (json * jsstring) :=
  if startsWith s word then Some (v, skipn (length word) s) else None.

Fixpoint read_value (fuel : nat) (s : jsstring) {struct fuel} : option (json * jsstring) :=
  match fuel with
  | O => None
  | S f =>
      let read_items :=
        fix items (n : nat) (s : jsstring) {struct n} : option (list json * jsstring) :=
          match n with
          | O => None
          | S n' =>
              match read_value f (skip_space s) with
              | None => None
              | Some (v, rest) =>
                  match skip_space rest with
                  | 44 :: more =>
                      match items n' more with
                      | Some (vs, rest') => Some (v :: vs, rest')
                      | None => None
                      end
                  | 93 :: more => Some ([v], more)
                  | _ => None
                  end
              end
          end in
      let read_members :=
        fix members (n : nat) (s : jsstring) {struct n}
          : option (list (jsstring * json) * jsstring) :=
          match n with
          | O => None
          | S n' =>
              match skip_space s with
              | 34 :: body =>
                  match read_string body with
                  | None => None
                  | Some (key, rest) =>
                      match skip_space rest with
                      | 58 :: more =>
                          match read_value f (skip_space more) with
                          | None => None
                          | Some (v, rest') =>
                              match skip_space rest' with
                              | 44 :: more' =>
                                  match members n' more' with
                                  | Some (kvs, rest'') => Some ((key, v) :: kvs, rest'')
                                  | None => None
                                  end
                              | 125 :: more' => Some ([(key, v)], more')
                              | _ => None
                              end
                          end
                      | _ => None
                      end
                  end
              | _ => None
              end
          end in
      match s with
      | 110 :: _ => expect (lit "null") VNull s
      | 116 :: _ => expect (lit "true") (VBool true) s
      | 102 :: _ => expect (lit "false") (VBool false) s
      | 34 :: body =>
          match read_string body with
          | Some (str, rest) => Some (VStr str, rest)
          | None => None
          end
      | 45 :: t =>
          match read_natural t with
          | Some (z, rest) => Some (VNum (Some (- z)%Z), rest)
          | None => None
          end
      | 91 :: t =>
          match skip_space t with
          | 93 :: more => Some (VArr [], more)
          | _ =>
              match read_items (length s) t with
              | Some (vs, rest) => Some (VArr vs, rest)
              | None => None
              end
          end
      | 123 :: t =>
          match skip_space t with
          | 125 :: more => Some (VObj [], more)
          | _ =>
              match read_members (length s) t with
              | Some (kvs, rest) => Some (VObj kvs, rest)
              | None => None
              end
          end
      | _ =>
          match read_natural s with
          | Some (z, rest) => Some (VNum (Some z), rest)
          | None => None
          end
      end
  end.

Definition parse (s : jsstring) : option json :=
  match read_value (S (length s)) (skip_space s) with
  | Some (v, rest) =>
      match skip_space rest with
      | [] => Some v
      | _ :: _ => None
      end
  | None => None
  end.

(** The messages are those of one engine; another words them differently. *)
Definition error_text (e : error) : jsstring :=
  match e with
  | TypeError_property_of_null => lit "Cannot read properties of null"
  | TypeError_to_primitive => lit "Cannot convert object to primitive value"
  | AbortError => lit "The user aborted a request."
  | NetworkError => lit "network error"
  end.

Definition platform : Platform :=
  {| number := num;
     Number_NaN := None;
     Number_zero := Some 0%Z;
     Number_one := Some 1%Z;
     Number_add := num_add;
     Number_isFalsy := num_isFalsy;
     Number_toString := num_toString;
     JSON_parse := parse;
     Error_text := error_text |}.

(** A double quote, which a string literal of this file cannot hold. *)
Definition dq : jsstring := [34].

(** The block [event: name], [data: {"key":"value"}] with its blank
    line. *)
Definition block_of (name key value : jsstring) : jsstring :=
  lit "event: " ++ name ++ [LF]
  ++ lit "data: {" ++ dq ++ key ++ dq ++ lit ":" ++ dq ++ value ++ dq ++ lit "}"
  ++ [LF; LF].

(** *** The inputs of the examples *)

(** The empty string literal. *)
Definition empty : String.string := String.EmptyString.

Definition user_turn (s : String.string) (t : N) : @Message platform :=
  {| role := lit "user"; text := VStr (lit s); ts := Some t |}.

Definition assistant_says (s : String.string) (t : N) : @Message platform :=
  {| role := lit "assistant"; text := VStr (lit s); ts := Some t |}.

Definition system_says (s : String.string) (t : N) : @Message platform :=
  {| role := lit "system"; text := VStr (lit s); ts := Some t |}.


Definition three_chunks : list jsstring :=
  [lit "event: mess";
   lit "age" ++ [LF] ++ lit "data: hello" ++ [LF];
   [LF] ++ lit "event: done" ++ [LF] ++ lit "data: 0" ++ [LF; LF]].

(** A hook that holds a question and the text gathered so far. *)
Definition chat_with (partial : String.string) : @Chat platform :=
  {| sessionId := VNull;
     messages := [user_turn "q" 1; assistant_says partial 1];
     loading := true;
     sources := VArr [] |}.

Definition payload (key value : String.string) : json :=
  VObj [(lit key, VStr (lit value))].

Definition event_of (name : String.string) (d : json) : @StreamEvent platform :=
  @Build_StreamEvent platform (lit name) d.

(** A streaming [send] that has shown ["Hi"] so far. *)
Definition send_with_partial : @Send platform :=
  {| chat := chat_with "Hi"; captured := VNull; abortRef := true; aborted := false;
     pending := true; buf := []; done_data := VNull |}.

(** A window on session A, a question typed in, nothing sent yet. *)
Definition window_A : @App platform :=
  {| window := {| session := VStr (lit "A"); turns := []; input := lit "hi";
                  isStreaming := false; streamIndicator := false;
                  streamingAbortController := None |};
     streams := [];
     effect_run := 0 |}.

(** The window after the question was sent and ["Hi"] has arrived. *)
Definition window_A_streaming : @App platform :=
  run window_A
    [Submit 1; Read 0 2 (Chunk (block_of (lit "message") (lit "delta") (lit "Hi")))].

(** The same, with the next question typed in. *)
Definition window_A_typing : @App platform :=
  step window_A_streaming (SetInput (lit "more")).

(** The two chunks of the scenario of the specification:
    [event: message], [data: {"delta":"Hi "}] and
    [event: done], [data: {"answer":"Hi there","sources":[]}]. *)
Definition scenario_message : jsstring :=
  block_of (lit "message") (lit "delta") (lit "Hi ").

Definition scenario_done : jsstring :=
  lit "event: done" ++ [LF]
  ++ lit "data: {" ++ dq ++ lit "answer" ++ dq ++ lit ":" ++ dq ++ lit "Hi there" ++ dq
  ++ lit "," ++ dq ++ lit "sources" ++ dq ++ lit ":[]}"
  ++ [LF; LF].

(** The turns the server holds for session B. *)
Definition history_B : list (@Message platform) :=
  [user_turn "q" 0; assistant_says "old answer" 0].

End Demo.

(** ** Bodies with other line ends, and blank text *)

(** The same text with every line feed sent as a carriage return and a line
    feed. *)
Definition crlf (s : jsstring) : jsstring :=
  flat_map (fun c => if c =? LF then [CR; LF] else [c]) s.

Definition no_CR (s : jsstring) : bool := forallb (fun c => negb (c =? CR)) s.

(** A text of white space only. *)
Definition blank (s : jsstring) : bool := forallb is_white_space s.

(** A line that carries a field name, and a block made of such lines. *)
Definition is_field_line (line : jsstring) : bool :=
  is_event_line line || is_data_line line.

Section FieldLines.

Context {P : Platform}.

Definition fields_only (block : jsstring) : bool :=
  forallb is_field_line (block_lines block).

(** The event of the block left in the buffer of [handleSend], as a list. *)
Definition leftover_events (rest : jsstring) : list StreamEvent :=
  match window_leftover rest with
  | Some ev => [ev]
  | None => []
  end.

End FieldLines.

(** ** The rest of [useChat] (useChat.js) *)

Section Hook.

Context {P : Platform}.

Local Abbreviation val := (value number).

(** How an awaited request settles: with the value it resolves to, or with
    the exception it rejects with. *)
Inductive settled : Type :=
| Resolved (v : val)
| Rejected (e : error).

(** The text of the [Error] made for a response that is not [ok]
    (chat.js, lines 36-39; ChatWindow.jsx, lines 133-138), behind its first
    words. *)
Definition refusal_text (what : jsstring) (status : number) (statusText txt : jsstring)
  : jsstring :=
  what ++ Number_toString status ++ [32] ++ statusText ++ [32] ++ txt.

(** [send] without [stream] (lines 16-23), up to the request: the state, and
    the [sessionId] its closure holds. *)
Definition send_plain_begin (now : N) (message : jsstring) (c : Chat) : Chat * val :=
  (appendMessage now (lit "user") (VStr message) (set_loading true c), sessionId c).

(** The [catch] of [send] (lines 118-123) on the state alone. *)
Definition chat_catch (now : N) (e : error) (c : Chat) : Chat :=
  appendMessage now (lit "assistant") (VStr (lit "Error: " ++ Error_text e))
    (set_loading false c).

(** Lines 23-28 once [postChat] has settled, [resp] being [resp.data] of the
    answer, and the [catch] for a request that failed or an answer that is
    [null]. *)
Definition send_plain_settle (now : N) (captured : val) (r : settled) (c : Chat) : Chat :=
  match r with
  | Resolved resp =>
      match get resp (lit "sessionId") with
      | Ok sid =>
          set_loading false
            (set_sources (or_else (get_opt resp (lit "sources")) (VArr []))
               (appendMessage now (lit "assistant")
                  (or_else (get_opt resp (lit "answer")) (VStr []))
                  (set_sessionId (or_else sid captured) c)))
      | Throw e | Crash e => chat_catch now e c
      end
  | Rejected e => chat_catch now e c
  end.

(** A streaming [send] whose response is not [ok]: [postChatStream] throws
    (chat.js, lines 35-40) and the [catch] of [send] shows the message. *)
Definition send_refused (now : N) (status : number) (statusText txt : jsstring) (s : Send)
  : Send :=
  if pending s then
    {| chat := appendMessage now (lit "assistant")
                 (VStr (lit "Error: "
                        ++ refusal_text (lit "Stream request failed: ") status statusText txt))
                 (set_loading false (chat s));
       captured := captured s; abortRef := abortRef s; aborted := aborted s;
       pending := false; buf := buf s; done_data := done_data s |}
  else s.

(** [reset] (lines 134-147), with the [sessionId] its closure holds.  A
    failure of the DELETE request is ignored, so how the request settles
    plays no role. *)
Definition reset (captured : val) (c : Chat) : Chat :=
  let c1 := set_sources (VArr []) (set_messages [] c) in
  if truthy captured then set_sessionId VNull c1 else c1.

(** The callback of a streaming [send] called on one event after the other;
    an exception ends the calls. *)
Fixpoint onEvents (c : Chat) (evs : list StreamEvent) : outcome Chat :=
  match evs with
  | [] => Ok c
  | ev :: rest => c1 <- onEvent c ev ;; onEvents c1 rest
  end.

(** The reads of a body that arrives in chunks, each with the time of its
    read, and ends at [now]. *)
Definition body_reads (chunks : list (N * jsstring)) (now : N) : list (N * read_result) :=
  map (fun x => (fst x, Chunk (snd x))) chunks ++ [(now, EndOfBody)].

(** A value that [String()] accepts. *)
Definition prints (v : val) : bool :=
  match ToString v with
  | Ok _ => true
  | _ => false
  end.

(** An event whose payload is text, or an object that holds text where the
    reducer looks: a payload and an [error] that have a string, and an
    [answer] that is a string when there is one. *)
Definition tame (ev : StreamEvent) : bool :=
  prints (data ev)
  && prints (get_opt (data ev) (lit "error"))
  && (is_string (get_opt (data ev) (lit "answer"))
      || negb (truthy (get_opt (data ev) (lit "answer")))).

Definition texts_are_strings (l : list Message) : bool :=
  forallb (fun m => is_string (text m)) l.

Definition has_assistant (l : list Message) : bool :=
  existsb (has_role (lit "assistant")) l.

(** A transcript that grew: no turn was removed or moved, every turn kept
    its role, and a turn outside [p] was kept as it is. *)
Definition grows (p : Message -> bool) (old new : list Message) : Prop :=
  forall i m, nth_error old i = Some m ->
  exists m', nth_error new i = Some m' /\ role m' = role m /\ (p m = false -> m' = m).

End Hook.

(** ** The chat window when a request is refused (ChatWindow.jsx) *)

Section Refusal.

Context {P : Platform}.

Local Abbreviation val := (value number).

(** The response is not [ok] (lines 132-144): the notice, both flags down,
    and [streamingAbortController.current] left as it is. *)
Definition window_refused (now : N) (status : number) (statusText txt : jsstring)
  (w : Window) : Window :=
  {| session := session w;
     turns := replaceLastAssistantText now (VStr []) (turns w)
              ++ [system_notice now (refusal_text (lit "Send failed: ") status statusText txt)];
     input := input w;
     isStreaming := false;
     streamIndicator := false;
     streamingAbortController := streamingAbortController w |}.

(** What can happen to the component when a response may be refused.  The
    step lets a call be refused as long as it has not ended, which gives
    more runs than the code has: there a call is refused before its first
    read only. *)
Inductive request : Type :=
| Act (act : action)
| Refused (call : nat) (now : N) (status : number) (statusText txt : jsstring).

Definition step_request (a : App) (x : request) : App :=
  match x with
  | Act act => step a act
  | Refused call now status statusText txt =>
      match nth_error (streams a) call with
      | None => a
      | Some s =>
          if reading s then
            {| window := window_refused now status statusText txt (window a);
               streams := set_stream call
                            (stream_with false (leftover s) (assistantBuffer s) s)
                            (streams a);
               effect_run := effect_run a |}
          else a
      end
  end.

Definition run_requests (a : App) (xs : list request) : App := fold_left step_request xs a.

(** A call that still reads is the one the controller belongs to, its signal
    is not aborted, and [isStreaming] is up. *)
Definition one_call_reads (a : App) : Prop :=
  forall i s, nth_error (streams a) i = Some s -> reading s = true ->
  isStreaming (window a) = true /\
  streamingAbortController (window a) = Some i /\
  signal_aborted s = false.


End Refusal.

(** ** What the window shows *)

Section Shown.

Context {P : Platform}.

Local Abbreviation val := (value number).

(** The turns as the list renders them: the role and the text of each. *)
Definition shown (l : list Message) : list (jsstring * val) :=
  map (fun m => (role m, text m)) l.

(** The reads of one call of [handleSend], one after the other. *)
Definition window_reads (st : Window * Stream) (reads : list (N * read_result))
  : Window * Stream :=
  fold_left (fun st x => window_read (fst x) st (snd x)) reads st.

(** The blocks of a call, each with the time of the read that brought it. *)
Definition window_steps (st : Window * Stream) (blocks : list (N * jsstring))
  : Window * Stream :=
  fold_left (fun st x => window_step (fst x) st (snd x)) blocks st.

(** Two states of a call that show the same and go on alike: they differ at
    most in the times of the turns and in the buffer. *)
Definition alike (a b : Window * Stream) : Prop :=
  shown (turns (fst a)) = shown (turns (fst b)) /\
  session (fst a) = session (fst b) /\
  input (fst a) = input (fst b) /\
  isStreaming (fst a) = isStreaming (fst b) /\
  streamIndicator (fst a) = streamIndicator (fst b) /\
  streamingAbortController (fst a) = streamingAbortController (fst b) /\
  signal_aborted (snd a) = signal_aborted (snd b) /\
  reading (snd a) = reading (snd b) /\
  assistantBuffer (snd a) = assistantBuffer (snd b).

End Shown.

(** ** The selected session (App.jsx) *)

Section Selection.

Context {P : Platform}.

Local Abbreviation val := (value number).

(** The two pieces of state of [App]. *)
Record Shell : Type := {
  sessions : list val;
  selectedSessionId : val
}.

(** [localStorage.getItem('sessionId') || null] (lines 10-12), [stored]
    being what the storage holds under the key. *)
Definition restore (stored : option jsstring) : val :=
  or_else (match stored with Some s => VStr s | None => VNull end) VNull.

(** The effect on [selectedSessionId] (lines 14-17): what the storage holds
    under the key afterwards.  [setItem] stores the string of its value. *)
Definition persist (selected : val) : outcome (option jsstring) :=
  if truthy selected then s <- ToString selected ;; Ok (Some s) else Ok None.

(** [App] when it mounts. *)
Definition mount (stored : option jsstring) : Shell :=
  {| sessions := []; selectedSessionId := restore stored |}.

(** The effect that fetches the list (lines 20-36) once the request has
    settled; [mounted] is the [selectedSessionId] its closure holds, the one
    of the first render.  A response that is not [ok] and a body that is not
    JSON are a rejection. *)
Definition sessions_fetched (mounted : val) (r : settled) (a : Shell) : Shell :=
  match r with
  | Resolved (VArr (first :: more)) =>
      if truthy mounted then
        {| sessions := first :: more; selectedSessionId := selectedSessionId a |}
      else
        match get first (lit "id") with
        | Ok id => {| sessions := first :: more; selectedSessionId := id |}
        | Throw _ | Crash _ => {| sessions := []; selectedSessionId := selectedSessionId a |}
        end
  | Resolved _ => {| sessions := []; selectedSessionId := selectedSessionId a |}
  | Rejected _ => {| sessions := []; selectedSessionId := selectedSessionId a |}
  end.

End Selection.

(** ** More inputs for the examples *)

Module Samples.

Import Demo.

(** A block, a blank line and the start of a second block, with line
    feeds. *)
Definition lf_body : jsstring :=
  lit "event: message" ++ [LF] ++ lit "data: hello" ++ [LF; LF] ++ lit "data: rest".

(** The same body with carriage returns, cut inside the line ends. *)
Definition crlf_chunks : list jsstring :=
  [lit "event: message" ++ [CR];
   [LF] ++ lit "data: hello" ++ [CR; LF; CR];
   [LF] ++ lit "data: rest"].

(** The call the window [window_A_streaming] is reading. *)
Definition call_0 : @Stream platform :=
  {| signal_aborted := false; reading := true; leftover := [];
     assistantBuffer := VStr (lit "Hi") |}.

(** The state of the hook that the two chunks of the scenario build. *)
Definition chat_hi_there : @Chat platform :=
  {| sessionId := VNull;
     messages := [user_turn "q" 1; assistant_says "Hi there" 1];
     loading := false;
     sources := VArr [] |}.


End Samples.

(** ** The events the loop of [handleSend] dispatches on

    The loop decodes a block and dispatches on its event as long as the call
    reads; an event whose branch throws is the last one, the [catch] ends
    the call. *)

Section LoopEvents.

Context {P : Platform}.

Local Abbreviation val := (value number).

(** The reads that bring the chunks of a body, each with its time. *)
Definition chunk_reads (chunks : list (N * jsstring)) : list (N * read_result) :=
  map (fun x => (fst x, Chunk (snd x))) chunks.

(** The events of the blocks the loop gets to (lines 162-227). *)
Fixpoint dispatched (st : Window * Stream) (blocks : list (N * jsstring))
  : list StreamEvent :=
  match blocks with
  | [] => []
  | x :: rest =>
      if reading (snd st)
      then window_block (snd x) :: dispatched (window_step (fst x) st (snd x)) rest
      else []
  end.

(** The events of a call over its reads: those of the blocks of each chunk,
    and the event of the block left in the buffer when the body ends
    (lines 153-270). *)
Fixpoint loop_events (st : Window * Stream) (reads : list (N * read_result))
  : list StreamEvent :=
  match reads with
  | [] => []
  | x :: rest =>
      (if reading (snd st) then
         match reader_read (signal_aborted (snd st)) (snd x) with
         | Chunk c =>
             dispatched
               (fst st,
                stream_with true (snd (pump (leftover (snd st)) c))
                  (assistantBuffer (snd st)) (snd st))
               (map (pair (fst x)) (fst (pump (leftover (snd st)) c)))
         | EndOfBody => leftover_events (leftover (snd st))
         | ReadFailed _ => []
         end
       else [])
      ++ loop_events (window_read (fst x) st (snd x)) rest
  end.

End LoopEvents.

(** ** Inputs of the examples on the hook and on the end of a body *)

Module Cases.

Import Demo.

(** Two [done] events, the second one in a block that no blank line ends,
    cut inside its name. *)
Definition done_twice : list jsstring :=
  [lit "event: done" ++ [LF] ++ lit "data: 1" ++ [LF; LF] ++ lit "event: do";
   lit "ne" ++ [LF] ++ lit "data: 2"].

(** A body without a [done] event. *)
Definition no_done : list jsstring :=
  [lit "data: hello" ++ [LF; LF]].

(** A streaming send that has shown ["Hi"], and a second one begun before
    the first has ended. *)
Definition two_sends : outcome (@Hook platform) :=
  h <- hook_read 0 2 (Chunk (lit "data: Hi" ++ [LF; LF]))
         (hook_send 1 (lit "a") hook_start) ;;
  Ok (hook_send 3 (lit "b") h).

(** One streaming send that has shown ["Hi"]. *)
Definition one_send : @Hook platform :=
  {| hook_chat := {| sessionId := VNull;
                     messages := [user_turn "a" 1; assistant_says "Hi" 1];
                     loading := true;
                     sources := VArr [] |};
     abortRef_current := Some 0%nat;
     hook_calls := [{| call_captured := VNull; call_aborted := false;
                       call_pending := true; call_buf := []; call_done := VNull |}] |}.

(** Two blocks, the first with the payload [null]. *)
Definition null_then_text : list jsstring :=
  [lit "data: null"; lit "data: x"].

(** The three chunks of [three_chunks], each with the time of its read. *)
Definition three_timed : list (N * jsstring) :=
  combine [2; 3; 4] three_chunks.

End Cases.

(** * Properties *)

Unset Implicit Arguments.

(** ** Splitting *)

Section SplitFacts.

Variable m : matcher.

(** A match is never empty. *)
Hypothesis m_shrinks : forall s r, m s = Some r -> (length r < length s)%nat.

Lemma find_first_shrinks s :
  forall p r, find_first m s = Some (p, r) -> (length r < length s)%nat.
Proof.
  induction s as [|c t IH]; intros p r H; simpl in H.
  - destruct (m []) as [r0|] eqn:E; [|discriminate].
    injection H as <- <-. now apply m_shrinks.
  - destruct (m (c :: t)) as [r0|] eqn:E.
    + injection H as <- <-. now apply m_shrinks.
    + destruct (find_first m t) as [[p0 r0]|] eqn:F; [|discriminate].
      injection H as <- <-. specialize (IH _ _ eq_refl). simpl. lia.
Qed.

Lemma split_fuel_enough f1 :
  forall f2 s, (length s <= f1)%nat -> (length s <= f2)%nat ->
  split_fuel m f1 s = split_fuel m f2 s.
Proof.
  induction f1 as [|f1 IH]; intros f2 s H1 H2.
  - destruct f2; simpl; destruct (find_first m s) as [[p r]|] eqn:F; trivial.
    apply find_first_shrinks in F. lia.
  - destruct f2; simpl; destruct (find_first m s) as [[p r]|] eqn:F; trivial.
    + apply find_first_shrinks in F. lia.
    + f_equal. apply find_first_shrinks in F. apply IH; lia.
Qed.

(** The equation [split] was written for. *)
Lemma split_eq s :
  split m s =
  match find_first m s with
  | None => [s]
  | Some (p, r) => p :: split m r
  end.
Proof.
  unfold split. destruct s as [|c t].
  - cbn [length split_fuel].
    destruct (find_first m []) as [[p r]|] eqn:F; trivial.
    apply find_first_shrinks in F. simpl in F. lia.
  - change (length (c :: t)) with (S (length t)).
    cbn [split_fuel].
    destruct (find_first m (c :: t)) as [[p r]|] eqn:F; trivial.
    f_equal. apply find_first_shrinks in F. simpl in F.
    apply split_fuel_enough; lia.
Qed.

Lemma split_not_nil s : split m s <> [].
Proof.
  rewrite split_eq. destruct (find_first m s) as [[p r]|]; discriminate.
Qed.

(** The last piece of a split holds no separator. *)
Lemma last_split_free s : find_first m (last (split m s) []) = None.
Proof.
  remember (length s) as n eqn:Hn. revert s Hn.
  induction n as [n IH] using lt_wf_ind. intros s ->.
  rewrite split_eq. destruct (find_first m s) as [[p r]|] eqn:F.
  - pose proof (split_not_nil r) as Hne.
    destruct (split m r) as [|x xs] eqn:E; [congruence|].
    change (last (p :: x :: xs) []) with (last (x :: xs) []).
    rewrite <- E. eapply IH; [|reflexivity].
    now apply find_first_shrinks in F.
  - simpl. exact F.
Qed.

(** Text added at the end moves no match that is already there... *)
Hypothesis m_stable : forall s r c, m s = Some r -> m (s ++ c) = Some (r ++ c).

(** ... and completes no separator in front of one. *)
Hypothesis m_no_earlier : forall a t c,
  m (a :: t) = None -> find_first m t <> None -> m (a :: t ++ c) = None.

Lemma find_first_app s :
  forall p r c, find_first m s = Some (p, r) ->
  find_first m (s ++ c) = Some (p, r ++ c).
Proof.
  induction s as [|a t IH]; intros p r c H.
  - simpl in H. destruct (m []) as [r0|] eqn:E; [|discriminate].
    injection H as <- <-.
    apply m_stable with (c := c) in E. simpl in E.
    destruct c; simpl; now rewrite E.
  - simpl in H. destruct (m (a :: t)) as [r0|] eqn:E.
    + injection H as <- <-.
      apply m_stable with (c := c) in E. simpl in *. now rewrite E.
    + destruct (find_first m t) as [[p0 r0]|] eqn:F; [|discriminate].
      injection H as <- <-.
      simpl. rewrite m_no_earlier; [|assumption|congruence].
      now rewrite (IH _ _ c eq_refl).
Qed.

(** Splitting a text that grew at the end: the pieces that were complete
    stay, and only the last one is split again. *)
Lemma split_app s :
  forall c,
  split m (s ++ c) = removelast (split m s) ++ split m (last (split m s) [] ++ c).
Proof.
  remember (length s) as n eqn:Hn. revert s Hn.
  induction n as [n IH] using lt_wf_ind. intros s -> c.
  rewrite (split_eq s). destruct (find_first m s) as [[p r]|] eqn:F.
  - rewrite (split_eq (s ++ c)), (find_first_app _ _ _ c F).
    pose proof (split_not_nil r) as Hne.
    rewrite (IH (length r)) with (s := r); [|now apply find_first_shrinks in F|reflexivity].
    destruct (split m r) as [|x xs] eqn:E; [congruence|].
    reflexivity.
  - reflexivity.
Qed.

End SplitFacts.

(** *** The two separators *)

Ltac case_units :=
  repeat match goal with
  | |- context [?x =? ?y] => destruct (N.eqb_spec x y); subst; cbn
  | H : context [?x =? ?y] |- _ => destruct (N.eqb_spec x y); subst; cbn in H
  end.

Lemma newline_shrinks s r : newline s = Some r -> (length r < length s)%nat.
Proof.
  destruct s as [|c [|c' t]]; cbn; case_units; intros H;
    try discriminate; injection H as <-; cbn; lia.
Qed.

Lemma blank_line_shrinks s r : blank_line s = Some r -> (length r < length s)%nat.
Proof.
  unfold blank_line. destruct (newline s) as [r0|] eqn:E; [|discriminate].
  intros H. apply newline_shrinks in E, H. lia.
Qed.

Lemma newline_stable s r c : newline s = Some r -> newline (s ++ c) = Some (r ++ c).
Proof.
  destruct s as [|x [|y t]]; cbn; case_units; intros H;
    try discriminate; injection H as <-; reflexivity.
Qed.

Lemma blank_line_stable s r c :
  blank_line s = Some r -> blank_line (s ++ c) = Some (r ++ c).
Proof.
  unfold blank_line. destruct (newline s) as [r0|] eqn:E; [|discriminate].
  intros H. rewrite (newline_stable _ _ c E). now apply newline_stable.
Qed.

(** A separator that the added text completes at some place starts within
    the last three code units, and no other separator fits behind that
    place. *)
Lemma blank_line_no_earlier a t c :
  blank_line (a :: t) = None -> find_first blank_line t <> None ->
  blank_line (a :: t ++ c) = None.
Proof.
  destruct t as [|b [|b2 [|b3 t3]]]; intros H F.
  - now contradiction F.
  - contradiction F. unfold find_first, blank_line, newline.
    case_units; reflexivity.
  - revert H F. unfold find_first, blank_line, newline; cbn.
    case_units; intros H F;
      try discriminate; try reflexivity; try (now contradiction F).
  - revert H. clear F. unfold blank_line, newline; cbn.
    case_units; intros H;
      try discriminate; try reflexivity; try assumption.
Qed.

(** ** The read loop and the placement of chunk boundaries *)

Lemma last_app_ne {A : Type} (l l' : list A) (d : A) :
  l' <> [] -> last (l ++ l') d = last l' d.
Proof.
  intros H. rewrite (app_removelast_last d H) at 1.
  rewrite app_assoc. apply last_last.
Qed.

Lemma pump_app b c x :
  pump b (c ++ x) =
  (fst (pump b c) ++ fst (pump (snd (pump b c)) x), snd (pump (snd (pump b c)) x)).
Proof.
  unfold pump; cbn [fst snd].
  rewrite app_assoc.
  rewrite (split_app _ blank_line_shrinks blank_line_stable blank_line_no_earlier).
  set (L1 := split blank_line (b ++ c)).
  set (L2 := split blank_line (last L1 [] ++ x)).
  assert (H2 : L2 <> []) by apply (split_not_nil _ blank_line_shrinks).
  f_equal.
  - now apply removelast_app.
  - now apply last_app_ne.
Qed.

Lemma pump_nil b : find_first blank_line b = None -> pump b [] = ([], b).
Proof.
  intros F. unfold pump. rewrite app_nil_r.
  rewrite (split_eq _ blank_line_shrinks), F. reflexivity.
Qed.

Lemma pump_rest_free b c : find_first blank_line (snd (pump b c)) = None.
Proof.
  unfold pump; cbn [snd]. apply (last_split_free _ blank_line_shrinks).
Qed.

Section DecoderFacts.

Context {P : Platform}.

Lemma api_emit_all_buffer blocks :
  forall r, buffer (fold_left api_emit blocks r) = buffer r.
Proof.
  induction blocks as [|b bs IH]; intros r; cbn [fold_left]; [reflexivity|].
  now rewrite IH.
Qed.

Lemma api_emit_all_calls blocks :
  forall r, calls (fold_left api_emit blocks r) = calls r ++ map api_block blocks.
Proof.
  induction blocks as [|b bs IH]; intros r; cbn [fold_left map].
  - now rewrite app_nil_r.
  - rewrite IH. cbn [api_emit calls]. now rewrite <- app_assoc.
Qed.

(** The fields of [api_emit] other than [buffer] do not look at [buffer]. *)
Lemma api_emit_all_rebuffer blocks :
  forall r b,
  fold_left api_emit blocks {| buffer := b; calls := calls r; doneData := doneData r |} =
  {| buffer := b;
     calls := calls (fold_left api_emit blocks r);
     doneData := doneData (fold_left api_emit blocks r) |}.
Proof.
  induction blocks as [|x xs IH]; intros r b; cbn [fold_left]; [reflexivity|].
  rewrite <- IH. reflexivity.
Qed.

Lemma api_chunk_app r c x : api_chunk (api_chunk r c) x = api_chunk r (c ++ x).
Proof.
  unfold api_chunk. rewrite pump_app.
  destruct (pump (buffer r) c) as [bl1 r1]; cbn [fst snd buffer].
  destruct (pump r1 x) as [bl2 r2]; cbn [fst snd].
  rewrite fold_left_app.
  rewrite api_emit_all_rebuffer. cbn [calls doneData]. reflexivity.
Qed.

Lemma api_chunk_nil r : find_first blank_line (buffer r) = None -> api_chunk r [] = r.
Proof.
  intros F. unfold api_chunk. rewrite (pump_nil _ F). cbn [fold_left].
  now destruct r.
Qed.

(** The loop over the chunks does what one turn does on their
    concatenation. *)
Lemma api_chunks chunks :
  forall r, find_first blank_line (buffer r) = None ->
  fold_left api_chunk chunks r = api_chunk r (concat chunks).
Proof.
  induction chunks as [|c cs IH]; intros r F; cbn [fold_left concat].
  - now rewrite api_chunk_nil.
  - rewrite IH, api_chunk_app; [reflexivity|].
    unfold api_chunk. pose proof (pump_rest_free (buffer r) c) as H.
    destruct (pump (buffer r) c) as [bl rest]. exact H.
Qed.

Lemma postChatStream_chunks chunks :
  postChatStream chunks = postChatStream [concat chunks].
Proof.
  unfold postChatStream. cbn [fold_left].
  now rewrite api_chunks.
Qed.

Lemma window_chunk_app st c x :
  window_chunk (window_chunk st c) x = window_chunk st (c ++ x).
Proof.
  unfold window_chunk. rewrite pump_app.
  destruct (pump (snd st) c) as [bl1 r1]; cbn [fst snd].
  destruct (pump r1 x) as [bl2 r2]; cbn [fst snd].
  now rewrite map_app, app_assoc.
Qed.

Lemma window_chunks chunks :
  forall st, find_first blank_line (snd st) = None ->
  fold_left window_chunk chunks st = window_chunk st (concat chunks).
Proof.
  induction chunks as [|c cs IH]; intros st F; cbn [fold_left concat].
  - unfold window_chunk. rewrite (pump_nil _ F). cbn [map fst].
    rewrite app_nil_r. now destruct st.
  - rewrite IH, window_chunk_app; [reflexivity|].
    unfold window_chunk. pose proof (pump_rest_free (snd st) c) as H.
    destruct (pump (snd st) c) as [bl rest]. exact H.
Qed.

Lemma window_decode_chunks chunks :
  window_decode chunks = window_decode [concat chunks].
Proof.
  unfold window_decode. cbn [fold_left]. now rewrite window_chunks.
Qed.



End DecoderFacts.

(** ** What a block decodes to *)

Section BlockFacts.

Context {P : Platform}.

Lemma window_lines_spec lines :
  forall f,
  dataLines (fold_left window_line lines f) =
  dataLines f ++ map payload_text (filter (fun l => negb (is_event_line l)) lines).
Proof.
  induction lines as [|l ls IH]; intros f; cbn [fold_left filter map].
  - now rewrite app_nil_r.
  - rewrite IH. unfold window_line, payload_text, is_event_line, is_data_line.
    destruct (startsWith l (lit "event:")); cbn [negb dataLines]; [reflexivity|].
    cbn [map]. cbv beta.
    destruct (startsWith l (lit "data:")); cbn [dataLines];
      now rewrite <- app_assoc.
Qed.

Lemma api_lines_spec lines :
  forall f,
  dataLines (fold_left api_line lines f) =
  dataLines f ++
  map (strip_field (lit "data:"))
    (filter (fun l => negb (is_event_line l) && is_data_line l) lines).
Proof.
  induction lines as [|l ls IH]; intros f; cbn [fold_left filter map].
  - now rewrite app_nil_r.
  - rewrite IH. unfold api_line, is_event_line, is_data_line.
    destruct (startsWith l (lit "event:")); cbn [negb andb dataLines]; [reflexivity|].
    destruct (startsWith l (lit "data:")); cbn [map dataLines];
      [now rewrite <- app_assoc | reflexivity].
Qed.

(** The decoder of [handleSend] takes every line that is not an [event:]
    line into the payload. *)
Lemma window_payload_lenient block :
  raw_payload window_line block = lenient_payload block.
Proof.
  unfold raw_payload, lenient_payload. now rewrite window_lines_spec.
Qed.

(** The decoder of [postChatStream] takes the [data:] lines only. *)
Lemma api_payload_strict block :
  raw_payload api_line block = strict_payload block.
Proof.
  unfold raw_payload, strict_payload. now rewrite api_lines_spec.
Qed.

Lemma api_emit_last_done r block :
  doneData r = last_done_payload (calls r) ->
  doneData (api_emit r block) = last_done_payload (calls (api_emit r block)).
Proof.
  intros H. unfold api_emit, last_done_payload in *. cbn [calls doneData].
  rewrite rev_app_distr. cbn [rev app find]. unfold is_done at 1.
  destruct (str_eqb (event (api_block block)) (lit "done")); [reflexivity|exact H].
Qed.

Lemma api_emit_all_last_done blocks :
  forall r, doneData r = last_done_payload (calls r) ->
  doneData (fold_left api_emit blocks r) =
  last_done_payload (calls (fold_left api_emit blocks r)).
Proof.
  induction blocks as [|b bs IH]; intros r H; cbn [fold_left]; [exact H|].
  apply IH. now apply api_emit_last_done.
Qed.

Lemma api_chunk_last_done r chunk :
  doneData r = last_done_payload (calls r) ->
  doneData (api_chunk r chunk) = last_done_payload (calls (api_chunk r chunk)).
Proof.
  intros H. unfold api_chunk. destruct (pump (buffer r) chunk) as [blocks rest].
  cbn [calls doneData]. now apply api_emit_all_last_done.
Qed.

Lemma api_chunks_last_done chunks :
  forall r, doneData r = last_done_payload (calls r) ->
  doneData (fold_left api_chunk chunks r) =
  last_done_payload (calls (fold_left api_chunk chunks r)).
Proof.
  induction chunks as [|c cs IH]; intros r H; cbn [fold_left]; [exact H|].
  apply IH. now apply api_chunk_last_done.
Qed.

End BlockFacts.

(** C9.  The payload of the event of a block is what [JSON.parse] makes of
    the joined data lines whenever it makes anything of them, be it [null] or
    a zero, and is the joined text itself when [JSON.parse] throws; either
    way the block gives one call to the callback and the loop goes on to the
    next block.  This holds for both decoders, each with the lines it takes
    for data. *)
Theorem payload_parsed_or_raw (P : Platform) (block : jsstring) :
  (forall v, JSON_parse (strict_payload block) = Some v ->
             data (api_block block) = v) /\
  (JSON_parse (strict_payload block) = None ->
   data (api_block block) = VStr (strict_payload block)) /\
  (forall v, JSON_parse (lenient_payload block) = Some v ->
             data (window_block block) = v) /\
  (JSON_parse (lenient_payload block) = None ->
   data (window_block block) = VStr (lenient_payload block)) /\
  (forall r rest,
     calls (fold_left api_emit (block :: rest) r) =
     calls r ++ api_block block :: map api_block rest).
Proof.
  assert (A : data (api_block block) = parse_payload (strict_payload block))
    by (unfold api_block, decode_block; cbn [data]; now rewrite api_payload_strict).
  assert (W : data (window_block block) = parse_payload (lenient_payload block))
    by (unfold window_block, decode_block; cbn [data];
        now rewrite window_payload_lenient).
  rewrite A, W. unfold parse_payload.
  repeat split.
  - intros v H. now rewrite H.
  - intros H. now rewrite H.
  - intros v H. now rewrite H.
  - intros H. now rewrite H.
  - intros r rest. rewrite api_emit_all_calls. reflexivity.
Qed.

(** ** Turns and the search for the last one of a kind *)

Lemma str_eqb_refl a : str_eqb a a = true.
Proof.
  induction a as [|x a IH]; cbn; [reflexivity|].
  now rewrite N.eqb_refl, IH.
Qed.

Lemma str_eqb_eq a : forall b, str_eqb a b = true -> a = b.
Proof.
  induction a as [|x a IH]; intros [|y b] H; cbn in H; try discriminate.
  - reflexivity.
  - apply andb_true_iff in H as [H1 H2].
    apply N.eqb_eq in H1. apply IH in H2. now subst.
Qed.

Section TranscriptFacts.

Context {P : Platform}.

Lemma nth_error_middle (before after : list Message) m :
  nth_error (before ++ m :: after) (length before) = Some m.
Proof.
  induction before as [|x xs IH]; cbn; [reflexivity|exact IH].
Qed.

Lemma set_at_middle (before after : list Message) m x :
  set_at (length before) x (before ++ m :: after) = before ++ x :: after.
Proof.
  induction before as [|y ys IH]; cbn; [reflexivity|now rewrite IH].
Qed.

(** A list of turns has no turn of a kind, or a last one. *)
Lemma last_of_kind (p : Message -> bool) (l : list Message) :
  none_of p l \/
  exists before m after,
    l = before ++ m :: after /\ p m = true /\ none_of p after.
Proof.
  induction l as [|x xs IH].
  - left. constructor.
  - destruct IH as [IH | (before & m & after & E & Hm & Ha)].
    + destruct (p x) eqn:Hx.
      * right. exists [], x, xs. auto.
      * left. now constructor.
    + right. exists (x :: before), m, after. subst. auto.
Qed.

Lemma lastIndexOf_none r l :
  none_of (has_role r) l -> lastIndexOf r (map role l) = None.
Proof.
  induction 1 as [|x xs Hx _ IH]; cbn; [reflexivity|].
  rewrite IH. unfold has_role in Hx. now rewrite Hx.
Qed.

Lemma lastIndexOf_last r before m after :
  has_role r m = true -> none_of (has_role r) after ->
  lastIndexOf r (map role (before ++ m :: after)) = Some (length before).
Proof.
  intros Hm Ha. induction before as [|x xs IH]; cbn.
  - rewrite (lastIndexOf_none _ _ Ha). unfold has_role in Hm. now rewrite Hm.
  - cbn in IH. now rewrite IH.
Qed.

Lemma findIndex_none p l : none_of p l -> findIndex p l = None.
Proof.
  induction 1 as [|x xs Hx _ IH]; cbn; [reflexivity|].
  now rewrite Hx, IH.
Qed.

Lemma findIndex_first p before m after :
  none_of p before -> p m = true ->
  findIndex p (before ++ m :: after) = Some (length before).
Proof.
  intros Hb Hm. induction Hb as [|x xs Hx _ IH]; cbn.
  - now rewrite Hm.
  - now rewrite Hx, IH.
Qed.

Lemma none_of_rev p l : none_of p l -> none_of p (rev l).
Proof.
  unfold none_of. rewrite !Forall_forall. intros H x Hx.
  apply H. now apply in_rev.
Qed.

(** [put_answer] on a transcript with an assistant turn, and on one
    without. *)
Lemma put_answer_last answer before m after :
  has_role (lit "assistant") m = true -> none_of (has_role (lit "assistant")) after ->
  put_answer answer (before ++ m :: after) = before ++ with_text m answer :: after.
Proof.
  intros Hm Ha. unfold put_answer.
  rewrite (lastIndexOf_last _ _ _ _ Hm Ha), nth_error_middle.
  apply set_at_middle.
Qed.

Lemma put_answer_none answer l :
  none_of (has_role (lit "assistant")) l ->
  put_answer answer l =
  l ++ [{| role := lit "assistant"; text := answer; ts := None |}].
Proof.
  intros H. unfold put_answer. now rewrite (lastIndexOf_none _ _ H).
Qed.

(** [replaceLastAssistantText] on a transcript whose last assistant or
    system turn is [m], and on one without such a turn. *)
Lemma replaceLastAssistantText_last now t before m after :
  assistant_or_system m = true -> none_of assistant_or_system after ->
  replaceLastAssistantText now t (before ++ m :: after) =
  before ++ {| role := role m; text := t; ts := Some now |} :: after.
Proof.
  intros Hm Ha. unfold replaceLastAssistantText.
  rewrite rev_app_distr. cbn [rev]. rewrite <- app_assoc. cbn [app].
  rewrite (findIndex_first _ _ _ _ (none_of_rev _ _ Ha) Hm).
  rewrite length_rev, length_app. cbn [length].
  replace (length before + S (length after) - 1 - length after)%nat
    with (length before) by lia.
  rewrite nth_error_middle. apply set_at_middle.
Qed.

Lemma replaceLastAssistantText_none now t l :
  none_of assistant_or_system l ->
  replaceLastAssistantText now t l =
  l ++ [{| role := lit "assistant"; text := t; ts := Some now |}].
Proof.
  intros H. unfold replaceLastAssistantText.
  now rewrite (findIndex_none _ _ (none_of_rev _ _ H)).
Qed.

End TranscriptFacts.

(** ** The two reducers *)

(** Comparisons of two literals are computed. *)
Ltac literals :=
  repeat match goal with
  | |- context [str_eqb (lit ?a) (lit ?b)] =>
      let v := eval vm_compute in (str_eqb (lit a) (lit b)) in
      change (str_eqb (lit a) (lit b)) with v
  end;
  cbn [andb orb negb].

Section ReducerFacts.

Context {P : Platform}.

Local Abbreviation val := (value number).

Lemma truthy_get_opt_object (d : val) key :
  truthy (get_opt d key) = true -> typeof d = lit "object" /\ get d key = Ok (get_opt d key).
Proof.
  destruct d; cbn; intros H; try discriminate. split; reflexivity.
Qed.

Lemma get_of_object (d : val) key key' :
  truthy (get_opt d key) = true -> get d key' = Ok (get_opt d key').
Proof.
  destruct d; cbn; intros H; try discriminate. reflexivity.
Qed.

(** [onEvent] on a [done] event. *)
Lemma onEvent_done c d :
  onEvent c {| event := lit "done"; data := d |} =
  Ok (set_loading false
        (let c1 := if truthy (get_opt d (lit "sessionId"))
                   then set_sessionId (get_opt d (lit "sessionId")) c else c in
         let c2 := if truthy (get_opt d (lit "answer"))
                   then set_messages (put_answer (get_opt d (lit "answer")) (messages c1)) c1
                   else c1 in
         if isArray (get_opt d (lit "sources"))
         then set_sources (get_opt d (lit "sources")) c2 else c2)).
Proof.
  unfold onEvent. cbn [event data]. literals. reflexivity.
Qed.

Lemma onEvent_done_messages c d c' :
  onEvent c {| event := lit "done"; data := d |} = Ok c' ->
  loading c' = false /\
  messages c' = if truthy (get_opt d (lit "answer"))
                then put_answer (get_opt d (lit "answer")) (messages c)
                else messages c.
Proof.
  rewrite onEvent_done. intros H. injection H as <-.
  cbv zeta.
  destruct (truthy (get_opt d (lit "sessionId")));
  destruct (truthy (get_opt d (lit "answer")));
  destruct (isArray (get_opt d (lit "sources"))); cbn; auto.
Qed.

(** [take_final] on an object with a truthy [answer]. *)
Lemma take_final_answer (d ab : val) :
  truthy (get_opt d (lit "answer")) = true ->
  take_final d ab = Ok (get_opt d (lit "answer")).
Proof.
  intros H. unfold take_final.
  destruct (truthy_get_opt_object _ _ H) as [T G].
  rewrite T. literals. rewrite G. cbn [bind].
  rewrite (get_of_object _ _ (lit "text") H). cbn [bind].
  unfold or_else. rewrite H. cbv iota. now rewrite H.
Qed.

Lemma dispatch_done now d m ab :
  dispatch now {| event := lit "done"; data := d |} (m, ab) =
  (ab' <- take_final d ab ;; Ok (replaceLastAssistantText now ab' m, ab')).
Proof.
  unfold dispatch. cbn [event data]. literals. reflexivity.
Qed.

Lemma assistant_is_assistant_or_system (m : Message) :
  has_role (lit "assistant") m = true -> assistant_or_system m = true.
Proof.
  unfold has_role, assistant_or_system. now intros ->.
Qed.

Lemma in_updater_ok {A : Type} (x : outcome A) a : in_updater x = Ok a -> x = Ok a.
Proof.
  destruct x; cbn; intros H; try discriminate; exact H.
Qed.

Lemma bind_ok {A B : Type} (x : outcome A) (k : A -> outcome B) b :
  bind x k = Ok b -> exists a, x = Ok a /\ k a = Ok b.
Proof.
  destruct x; cbn; intros H; try discriminate. eauto.
Qed.

(** The updater of the [message] branch touches the last assistant turn or
    appends one. *)
Lemma append_delta_cases d prev m' :
  append_delta d prev = Ok m' ->
  (none_of (has_role (lit "assistant")) prev /\
   m' = prev ++ [assistant_turn (or_else d (VStr []))]) \/
  (exists before m after t,
     prev = before ++ m :: after /\ has_role (lit "assistant") m = true /\
     none_of (has_role (lit "assistant")) after /\
     m' = before ++ with_text m t :: after).
Proof.
  intros H. unfold append_delta in H.
  destruct (last_of_kind (has_role (lit "assistant")) prev)
    as [Hn | (before & m & after & E & Hm & Ha)].
  - rewrite (lastIndexOf_none _ _ Hn) in H. injection H as <-. now left.
  - subst prev. rewrite (lastIndexOf_last _ _ _ _ Hm Ha), nth_error_middle in H.
    apply bind_ok in H as (piece & _ & H).
    apply bind_ok in H as (t & _ & H).
    rewrite set_at_middle in H. injection H as <-.
    right. now exists before, m, after, t.
Qed.

Lemma append_error_cases errText prev m' :
  append_error errText prev = Ok m' ->
  (none_of (has_role (lit "assistant")) prev /\
   m' = prev ++ [assistant_turn (VStr (lit "[Error: " ++ errText ++ lit "]"))]) \/
  (exists before m after t,
     prev = before ++ m :: after /\ has_role (lit "assistant") m = true /\
     none_of (has_role (lit "assistant")) after /\
     m' = before ++ with_text m t :: after).
Proof.
  intros H. unfold append_error in H.
  destruct (last_of_kind (has_role (lit "assistant")) prev)
    as [Hn | (before & m & after & E & Hm & Ha)].
  - rewrite (lastIndexOf_none _ _ Hn) in H. injection H as <-. now left.
  - subst prev. rewrite (lastIndexOf_last _ _ _ _ Hm Ha), nth_error_middle in H.
    apply bind_ok in H as (t & _ & H).
    rewrite set_at_middle in H. injection H as <-.
    right. now exists before, m, after, t.
Qed.

Lemma put_answer_cases answer prev :
  (none_of (has_role (lit "assistant")) prev /\
   put_answer answer prev = prev ++ [assistant_turn answer]) \/
  (exists before m after,
     prev = before ++ m :: after /\ has_role (lit "assistant") m = true /\
     none_of (has_role (lit "assistant")) after /\
     put_answer answer prev = before ++ with_text m answer :: after).
Proof.
  destruct (last_of_kind (has_role (lit "assistant")) prev)
    as [Hn | (before & m & after & E & Hm & Ha)].
  - left. split; [assumption|]. now apply put_answer_none.
  - right. exists before, m, after. subst. repeat split; trivial.
    now apply put_answer_last.
Qed.

Lemma onEvent_frame c ev c' :
  onEvent c ev = Ok c' -> touches_last_assistant (messages c) (messages c').
Proof.
  unfold onEvent, touches_last_assistant.
  destruct (str_eqb (event ev) (lit "session") &&
            truthy (get_opt (data ev) (lit "sessionId"))).
  { intros H. injection H as <-. now left. }
  destruct (str_eqb (event ev) (lit "message")).
  { intros H. apply bind_ok in H as (m' & H & E). injection E as <-.
    cbn [messages set_messages].
    apply in_updater_ok, append_delta_cases in H.
    destruct H as [[Hn ->] | (before & m & after & t & E & Hm & Ha & ->)].
    - right. right. eauto.
    - right. left. now exists before, m, after, t. }
  destruct (str_eqb (event ev) (lit "done")).
  { intros H. injection H as <-.
    cbv zeta.
    destruct (truthy (get_opt (data ev) (lit "sessionId")));
    destruct (isArray (get_opt (data ev) (lit "sources")));
    destruct (truthy (get_opt (data ev) (lit "answer")));
      cbn [messages set_messages set_loading set_sources set_sessionId];
      try (now left);
      (destruct (put_answer_cases (get_opt (data ev) (lit "answer")) (messages c))
         as [[Hn ->] | (before & m & after & E & Hm & Ha & ->)];
       [right; right; eauto | right; left; eexists before, m, after, _; eauto]). }
  destruct (str_eqb (event ev) (lit "error")).
  { intros H. apply bind_ok in H as (errText & _ & H).
    apply bind_ok in H as (m' & H & E). injection E as <-.
    cbn [messages set_messages set_loading].
    apply in_updater_ok, append_error_cases in H.
    destruct H as [[Hn ->] | (before & m & after & t & E & Hm & Ha & ->)].
    - right. right. eauto.
    - right. left. now exists before, m, after, t. }
  intros H. injection H as <-. now left.
Qed.

Lemma onEvent_done_result c d :
  exists c',
    onEvent c {| event := lit "done"; data := d |} = Ok c' /\
    loading c' = false /\
    messages c' = if truthy (get_opt d (lit "answer"))
                  then put_answer (get_opt d (lit "answer")) (messages c)
                  else messages c.
Proof.
  eexists. split; [apply onEvent_done|].
  now apply onEvent_done_messages with (c := c), onEvent_done.
Qed.

End ReducerFacts.

Section WindowFacts.

Context {P : Platform}.

Local Abbreviation val := (value number).

(** What the dispatch of [handleSend] may do to the turns when their last
    assistant or system turn is [m]. *)
Lemma dispatch_frame now ev before m after (ab : val) m' ab' :
  assistant_or_system m = true -> none_of assistant_or_system after ->
  dispatch now ev (before ++ m :: after, ab) = Ok (m', ab') ->
  m' = before ++ m :: after \/
  (exists t, m' = before ++ {| role := role m; text := t; ts := Some now |} :: after) \/
  (exists s, m' = (before ++ m :: after) ++ [system_notice now s]).
Proof.
  intros Hm Ha. unfold dispatch.
  destruct (str_eqb (event ev) (lit "session")).
  { intros H. injection H as <- <-. now left. }
  destruct (str_eqb (event ev) (lit "message")).
  { intros H. apply bind_ok in H as (t & _ & H). injection H as <- <-.
    right. left. exists t. now apply replaceLastAssistantText_last. }
  destruct (str_eqb (event ev) (lit "done")).
  { intros H. apply bind_ok in H as (t & _ & H). injection H as <- <-.
    right. left. exists t. now apply replaceLastAssistantText_last. }
  destruct (str_eqb (event ev) (lit "error")).
  { intros H. apply bind_ok in H as (s & _ & H). injection H as <- <-.
    right. right. now exists s. }
  intros H. injection H as <- <-. now left.
Qed.

Lemma dispatch_frame_none now ev l (ab : val) m' ab' :
  none_of assistant_or_system l ->
  dispatch now ev (l, ab) = Ok (m', ab') ->
  m' = l \/
  (exists t, m' = l ++ [{| role := lit "assistant"; text := t; ts := Some now |}]) \/
  (exists s, m' = l ++ [system_notice now s]).
Proof.
  intros Hn. unfold dispatch.
  destruct (str_eqb (event ev) (lit "session")).
  { intros H. injection H as <- <-. now left. }
  destruct (str_eqb (event ev) (lit "message")).
  { intros H. apply bind_ok in H as (t & _ & H). injection H as <- <-.
    right. left. exists t. now apply replaceLastAssistantText_none. }
  destruct (str_eqb (event ev) (lit "done")).
  { intros H. apply bind_ok in H as (t & _ & H). injection H as <- <-.
    right. left. exists t. now apply replaceLastAssistantText_none. }
  destruct (str_eqb (event ev) (lit "error")).
  { intros H. apply bind_ok in H as (s & _ & H). injection H as <- <-.
    right. right. now exists s. }
  intros H. injection H as <- <-. now left.
Qed.

(** A [message] event with a string for payload, in [useChat]. *)
Lemma onEvent_message_string c before m after t s :
  messages c = before ++ m :: after ->
  has_role (lit "assistant") m = true ->
  none_of (has_role (lit "assistant")) after ->
  text m = VStr t ->
  onEvent c {| event := lit "message"; data := VStr s |} =
  Ok (set_messages (before ++ with_text m (VStr (t ++ s)) :: after) c).
Proof.
  intros E Hm Ha Ht. unfold onEvent. cbn [event data]. literals.
  unfold append_delta. rewrite E, (lastIndexOf_last _ _ _ _ Hm Ha), nth_error_middle.
  cbn [typeof]. literals. cbn [bind]. rewrite Ht.
  replace (or_else (VStr t) (VStr [])) with (@VStr number t)
    by (unfold or_else; cbn; now destruct t).
  cbn. now rewrite set_at_middle.
Qed.

Lemma window_step_session now st block :
  session (fst (window_step now st block)) = session (fst st).
Proof.
  destruct st as [w s]. unfold window_step. destruct (reading s); [|reflexivity].
  destruct (dispatch now (window_block block) (turns w, assistantBuffer s))
    as [[m ab]|e|e]; reflexivity.
Qed.

Lemma window_steps_session now blocks :
  forall st, session (fst (fold_left (window_step now) blocks st)) = session (fst st).
Proof.
  induction blocks as [|b bs IH]; intros st; cbn [fold_left]; [reflexivity|].
  now rewrite IH, window_step_session.
Qed.

Lemma window_read_session now w s arrives :
  session (fst (window_read now (w, s) arrives)) = session w.
Proof.
  unfold window_read. destruct (reading s); [|reflexivity].
  destruct (reader_read (signal_aborted s) arrives) as [c| |e].
  - destruct (pump (leftover s) c) as [blocks rest].
    now rewrite window_steps_session.
  - destruct (window_leftover (leftover s)) as [ev|];
      [destruct (dispatch_leftover now ev (turns w, assistantBuffer s))|];
      reflexivity.
  - reflexivity.
Qed.

End WindowFacts.

(** C3 (amended).  A [done] event whose payload has a truthy [answer] puts
    exactly that answer in place of the text of the most recent assistant
    turn, whatever had been gathered there, or adds an assistant turn with it
    when there is none; in [handleSend] this is said of transcripts in which
    no system turn stands behind that turn.  A falsy [answer], the empty
    string for one, counts as absent: [useChat] leaves the text as it is, and
    [handleSend], for a payload that is an object, puts there the [text] of
    the payload when that is truthy and the text gathered in
    [assistantBuffer] otherwise.  [useChat] clears [loading] on every [done]
    event; [handleSend] leaves [isStreaming] as it is on a [done] event whose
    payload is an object and clears it when the body ends. *)
Theorem done_event_sets_answer (P : Platform) (d : value number) :
  (truthy (get_opt d (lit "answer")) = true ->
   (forall c, exists c',
      onEvent c {| event := lit "done"; data := d |} = Ok c' /\
      loading c' = false /\
      (forall before m after,
         messages c = before ++ m :: after ->
         has_role (lit "assistant") m = true ->
         none_of (has_role (lit "assistant")) after ->
         messages c' = before ++ with_text m (get_opt d (lit "answer")) :: after) /\
      (none_of (has_role (lit "assistant")) (messages c) ->
       messages c' = messages c ++ [assistant_turn (get_opt d (lit "answer"))])) /\
   (forall now w s block,
      reading s = true ->
      window_block block = {| event := lit "done"; data := d |} ->
      exists w' s',
        window_step now (w, s) block = (w', s') /\
        assistantBuffer s' = get_opt d (lit "answer") /\
        isStreaming w' = isStreaming w /\
        (forall before m after,
           turns w = before ++ m :: after ->
           has_role (lit "assistant") m = true ->
           none_of assistant_or_system after ->
           turns w' =
           before ++ {| role := role m; text := get_opt d (lit "answer");
                        ts := Some now |} :: after) /\
        (none_of assistant_or_system (turns w) ->
         turns w' =
         turns w ++ [{| role := lit "assistant"; text := get_opt d (lit "answer");
                        ts := Some now |}]))) /\
  (truthy (get_opt d (lit "answer")) = false ->
   forall c, exists c',
     onEvent c {| event := lit "done"; data := d |} = Ok c' /\
     loading c' = false /\ messages c' = messages c) /\
  (forall props now w s block,
     d = VObj props ->
     reading s = true ->
     window_block block = {| event := lit "done"; data := d |} ->
     let final :=
       or_else (or_else (get_opt d (lit "answer")) (get_opt d (lit "text")))
         (assistantBuffer s) in
     window_step now (w, s) block =
       (set_turns (replaceLastAssistantText now final (turns w)) w,
        stream_with true (leftover s) final s) /\
     isStreaming (fst (window_step now (w, s) block)) = isStreaming w /\
     reading (snd (window_step now (w, s) block)) = true /\
     (truthy (get_opt d (lit "answer")) = false ->
      truthy (get_opt d (lit "text")) = true -> final = get_opt d (lit "text")) /\
     (truthy (get_opt d (lit "answer")) = false ->
      truthy (get_opt d (lit "text")) = false -> final = assistantBuffer s)) /\
  (forall now w s,
     reading s = true -> signal_aborted s = false ->
     isStreaming (fst (window_read now (w, s) EndOfBody)) = false).
Proof.
  split; [|split; [|split]].
  - intros T. split.
    + intros c. destruct (onEvent_done_result c d) as (c' & E & L & M).
      exists c'. rewrite T in M. split; [exact E|]. split; [exact L|].
      rewrite M. split.
      * intros before m after E0 Hm Ha. rewrite E0. now apply put_answer_last.
      * intros Hn. now apply put_answer_none.
    + intros now w s block R B. unfold window_step. rewrite R, B.
      rewrite dispatch_done, (take_final_answer _ _ T). cbn [bind].
      eexists _, _. split; [reflexivity|]. cbn. repeat split.
      * intros before m after E Hm Ha. rewrite E.
        apply replaceLastAssistantText_last; [|assumption].
        now apply assistant_is_assistant_or_system.
      * intros Hn. now apply replaceLastAssistantText_none.
  - intros F c. destruct (onEvent_done_result c d) as (c' & E & L & M).
    exists c'. rewrite F in M. auto.
  - intros props now w s block D R B final.
    assert (E : window_step now (w, s) block =
                (set_turns (replaceLastAssistantText now final (turns w)) w,
                 stream_with true (leftover s) final s)).
    { unfold window_step. rewrite R, B, dispatch_done. unfold final. now rewrite D. }
    rewrite E. split; [reflexivity|]. split; [reflexivity|]. split; [reflexivity|].
    unfold final, or_else. split.
    + intros F T. now rewrite F, T.
    + intros F T. now rewrite F, T.
  - intros now w s R A. unfold window_read. rewrite R, A. cbn [reader_read].
    destruct (window_leftover (leftover s)) as [ev|];
      [destruct (dispatch_leftover now ev (turns w, assistantBuffer s))|];
      reflexivity.
Qed.

(** C7 (amended).  An event that [onEvent] of [useChat] applies leaves
    every turn but the most recent assistant turn as it was: it gives that
    turn a new text, adds an assistant turn when the transcript has none, or
    changes nothing.  The dispatch of [handleSend] does the same on a
    transcript in which no system turn stands behind the most recent assistant
    turn, or none at all, an [error] event adding a system turn at the end.
    Nothing closes
    the turn: whatever [loading] says, so after a [done] event too, a
    [message] event adds its text to it. *)
Theorem events_touch_last_assistant_turn_only (P : Platform) :
  (forall c ev c',
     onEvent c ev = Ok c' -> touches_last_assistant (messages c) (messages c')) /\
  (forall now ev before m after (ab : value number) m' ab',
     has_role (lit "assistant") m = true ->
     none_of assistant_or_system after ->
     dispatch now ev (before ++ m :: after, ab) = Ok (m', ab') ->
     m' = before ++ m :: after \/
     (exists t, m' = before ++ {| role := role m; text := t; ts := Some now |} :: after) \/
     (exists s, m' = (before ++ m :: after) ++ [system_notice now s])) /\
  (forall now ev l (ab : value number) m' ab',
     none_of assistant_or_system l ->
     dispatch now ev (l, ab) = Ok (m', ab') ->
     m' = l \/
     (exists t, m' = l ++ [{| role := lit "assistant"; text := t; ts := Some now |}]) \/
     (exists s, m' = l ++ [system_notice now s])) /\
  (forall c before m after t s,
     messages c = before ++ m :: after ->
     has_role (lit "assistant") m = true ->
     none_of (has_role (lit "assistant")) after ->
     text m = VStr t ->
     onEvent c {| event := lit "message"; data := VStr s |} =
     Ok (set_messages (before ++ with_text m (VStr (t ++ s)) :: after) c)).
Proof.
  split; [|split; [|split]].
  - apply onEvent_frame.
  - intros now ev before m after ab m' ab' Hm Ha H.
    eapply dispatch_frame; eauto using assistant_is_assistant_or_system.
  - apply dispatch_frame_none.
  - apply onEvent_message_string.
Qed.

(** C8 (amended).  A [session] event whose payload has a truthy
    [sessionId] makes it the session identifier of [useChat], whether one was
    set before or not; a [session] event without one changes nothing.
    [handleSend] does nothing on a [session] event, and no read of a
    response changes the session of the window. *)
Theorem session_event_sets_identifier (P : Platform) (d : value number) :
  (truthy (get_opt d (lit "sessionId")) = true ->
   forall c,
     onEvent c {| event := lit "session"; data := d |} =
     Ok (set_sessionId (get_opt d (lit "sessionId")) c)) /\
  (truthy (get_opt d (lit "sessionId")) = false ->
   forall c, onEvent c {| event := lit "session"; data := d |} = Ok c) /\
  (forall now st, dispatch now {| event := lit "session"; data := d |} st = Ok st) /\
  (forall now w s arrives, session (fst (window_read now (w, s) arrives)) = session w).
Proof.
  split; [|split; [|split]].
  - intros T c. unfold onEvent. cbn [event data]. literals. now rewrite T.
  - intros F c. unfold onEvent. cbn [event data]. literals. now rewrite F.
  - intros now [m ab]. unfold dispatch. cbn [event data]. literals. reflexivity.
  - intros now w s arrives. apply window_read_session.
Qed.

(** ** Cancelling *)

Section CancelFacts.

Context {P : Platform}.

Lemma kept_refl (l : list Message) : kept l l.
Proof. intros i m H. exact H. Qed.

Lemma kept_app (l l' : list Message) : kept l (l ++ l').
Proof.
  intros i m H. rewrite nth_error_app1; [exact H|].
  apply nth_error_Some. congruence.
Qed.

Lemma kept_trans (a b c : list Message) : kept a b -> kept b c -> kept a c.
Proof. intros H1 H2 i m H. auto. Qed.

(** A read that settles after the cancel runs the [catch] of [send]. *)
Lemma send_read_cancelled now (s : Send) arrives :
  pending s = true -> aborted s = true ->
  send_read now s arrives = Ok (send_catch now AbortError s).
Proof.
  intros Hp Ha. unfold send_read. now rewrite Hp, Ha.
Qed.

Lemma send_reads_settled (s : Send) settles :
  pending s = false -> send_reads s settles = Ok s.
Proof.
  intros Hp. induction settles as [|[now r] rest IH]; cbn [send_reads]; [reflexivity|].
  unfold send_read. rewrite Hp. cbn [bind]. exact IH.
Qed.

Lemma send_reads_cancelled (s : Send) settles :
  pending s = true -> aborted s = true ->
  send_reads s settles = Ok s \/
  exists now, send_reads s settles = Ok (send_catch now AbortError s).
Proof.
  intros Hp Ha. destruct settles as [|[now r] rest]; [now left|].
  right. exists now. cbn [send_reads].
  rewrite (send_read_cancelled _ _ _ Hp Ha). cbn [bind].
  now apply send_reads_settled.
Qed.

Lemma nth_error_set_stream (l : list Stream) :
  forall i x s, nth_error l i = Some s -> nth_error (set_stream i x l) i = Some x.
Proof.
  induction l as [|y ys IH]; intros [|i] x s H; cbn in *; try discriminate; eauto.
Qed.

Lemma length_set_stream (l : list Stream) :
  forall i x, length (set_stream i x l) = length l.
Proof.
  induction l as [|y ys IH]; intros [|i] x; cbn; auto.
Qed.

Lemma set_stream_same (l : list Stream) :
  forall i s, nth_error l i = Some s -> set_stream i s l = l.
Proof.
  induction l as [|y ys IH]; intros [|i] s H; cbn in *; try discriminate.
  - now injection H as ->.
  - f_equal. eauto.
Qed.

Lemma set_stream_twice (l : list Stream) :
  forall i x y, set_stream i x (set_stream i y l) = set_stream i x l.
Proof.
  induction l as [|z zs IH]; intros [|i] x y; cbn; try reflexivity.
  now rewrite IH.
Qed.

End CancelFacts.

(** ** A stream that outlives its session *)

Section StaleFacts.

Context {P : Platform}.

Lemma take_delta_string (t d : jsstring) :
  take_delta (VObj [(lit "delta", VStr d)]) (VStr t) = Ok (@VStr number (t ++ d)).
Proof.
  unfold take_delta. cbn [typeof]. literals.
  unfold get, get_opt. cbn [lookup]. literals. cbn [bind].
  destruct d as [|x d]; cbn; now rewrite ?app_nil_r.
Qed.

Lemma dispatch_message_delta now (t d : jsstring) m :
  dispatch now {| event := lit "message"; data := VObj [(lit "delta", VStr d)] |}
    (m, VStr t) =
  Ok (replaceLastAssistantText now (VStr (t ++ d)) m, VStr (t ++ d)).
Proof.
  unfold dispatch. cbn [event data]. literals.
  now rewrite take_delta_string.
Qed.

End StaleFacts.

(** C5 (amended).  Nothing guards the events of a stream against a change
    of the session: when the session is switched while a call of
    [handleSend] is still reading, and the history of the new session has
    been loaded, a [message] event of that call puts the text the call has
    gathered, with the new delta, into the loaded list, in the place
    [replaceLastAssistantText] picks.  The only guard is on the history: the
    answer to a load that an earlier run of the effect started is dropped. *)
Theorem stale_stream_events_are_applied
  (P : Platform) (a : App) (i : nat) (s : Stream) (now : N)
  (c block rest t d : jsstring) (id : value number) (history : list Message) :
  nth_error (streams a) i = Some s ->
  reading s = true ->
  signal_aborted s = false ->
  assistantBuffer s = VStr t ->
  pump (leftover s) c = ([block], rest) ->
  window_block block =
    {| event := lit "message"; data := VObj [(lit "delta", VStr d)] |} ->
  let a1 := step (step a (SelectSession id)) (Loaded (S (effect_run a)) (Some history)) in
  turns (window a1) = history /\
  turns (window (step a1 (Read i now (Chunk c)))) =
    replaceLastAssistantText now (VStr (t ++ d)) history /\
  (forall run msgs,
     Nat.eqb run (effect_run a1) = false -> step a1 (Loaded run (Some msgs)) = a1).
Proof.
  intros Hs Hr Ha Hb Hp Hw a1.
  assert (E1 : turns (window a1) = history).
  { unfold a1, step. cbn [effect_run window streams]. now rewrite Nat.eqb_refl. }
  assert (E2 : streams a1 = streams a).
  { unfold a1, step. cbn [effect_run window streams]. now rewrite Nat.eqb_refl. }
  split; [exact E1|]. split.
  - unfold step at 1. rewrite E2, Hs.
    unfold window_read. rewrite Hr, Ha. cbn [reader_read]. rewrite Hp.
    cbn [fold_left]. unfold window_step. cbn [reading stream_with].
    rewrite Hw, Hb. cbn [turns assistantBuffer stream_with].
    rewrite dispatch_message_delta. cbn [window turns set_turns].
    now rewrite E1.
  - intros run msgs H. unfold step at 1. rewrite H. reflexivity.
Qed.

(** ** Further facts about the two decoders and the window *)

(** X1.  In the window, two [message] events in a row leave the gathered text
    followed by the two deltas in the most recent assistant turn, when no
    system turn stands behind it. *)
Theorem window_message_deltas_append
  (P : Platform) (now1 now2 : N) (before after : list Message) (m : Message)
  (t d1 d2 : jsstring) :
  has_role (lit "assistant") m = true ->
  none_of assistant_or_system after ->
  (st <- dispatch now1
           {| event := lit "message"; data := VObj [(lit "delta", VStr d1)] |}
           (before ++ m :: after, VStr t) ;;
   dispatch now2
     {| event := lit "message"; data := VObj [(lit "delta", VStr d2)] |} st) =
  Ok (before ++ {| role := role m; text := VStr (t ++ d1 ++ d2); ts := Some now2 |}
               :: after,
      VStr (t ++ d1 ++ d2)).
Proof.
  intros Hm Ha. apply assistant_is_assistant_or_system in Hm.
  rewrite dispatch_message_delta. cbn [bind].
  rewrite (replaceLastAssistantText_last _ _ _ _ _ Hm Ha).
  rewrite dispatch_message_delta.
  rewrite replaceLastAssistantText_last by assumption.
  cbn [role]. now rewrite <- app_assoc.
Qed.

(** X2.  In the window, a [message] event that follows an [error] event puts the
    gathered text into the system notice the [error] event added. *)
Theorem message_after_error_rewrites_notice
  (P : Platform) (now1 now2 : N) (m : list Message) (t e d : jsstring) :
  (st <- dispatch now1 {| event := lit "error"; data := VStr e |} (m, VStr t) ;;
   dispatch now2
     {| event := lit "message"; data := VObj [(lit "delta", VStr d)] |} st) =
  Ok (m ++ [{| role := lit "system"; text := VStr (t ++ d); ts := Some now2 |}],
      VStr (t ++ d)).
Proof.
  unfold dispatch at 1. cbn [event data]. literals.
  cbn [get_opt or_else truthy ToString bind].
  rewrite dispatch_message_delta.
  now rewrite replaceLastAssistantText_last by (reflexivity || constructor).
Qed.

(** X3.  The lines each decoder takes for data: [postChatStream] the [data:]
    lines, the decoder of [handleSend] every line but the [event:] lines. *)
Theorem payload_lines_of_each_decoder (P : Platform) (block : jsstring) :
  raw_payload api_line block = strict_payload block /\
  raw_payload window_line block = lenient_payload block.
Proof.
  split; [apply api_payload_strict | apply window_payload_lenient].
Qed.

Section GateFacts.

Context {P : Platform}.

Lemma scan_keeps_no_event (scan : Fields -> jsstring -> Fields) lines :
  (forall f l, is_event_line l = false -> evt (scan f l) = evt f) ->
  Forall (fun l => is_event_line l = false) lines ->
  forall f, evt (fold_left scan lines f) = evt f.
Proof.
  intros Hscan H. induction H as [|l ls Hl _ IH]; intros f; cbn [fold_left].
  - reflexivity.
  - now rewrite IH, Hscan.
Qed.

Lemma window_step_gated now w s block :
  (isStreaming w = false -> streamingAbortController w = None) ->
  let (w', s') := window_step now (w, s) block in
  (isStreaming w' = false -> streamingAbortController w' = None) /\
  signal_aborted s' = signal_aborted s.
Proof.
  intros H. unfold window_step. destruct (reading s); [|now split].
  destruct (dispatch now (window_block block) (turns w, assistantBuffer s))
    as [[m ab]|e|e]; now split.
Qed.

Lemma window_steps_gated now blocks :
  forall w s,
  (isStreaming w = false -> streamingAbortController w = None) ->
  (isStreaming (fst (fold_left (window_step now) blocks (w, s))) = false ->
   streamingAbortController (fst (fold_left (window_step now) blocks (w, s))) = None) /\
  signal_aborted (snd (fold_left (window_step now) blocks (w, s))) = signal_aborted s.
Proof.
  induction blocks as [|b bs IH]; intros w s H; cbn [fold_left]; [now split|].
  pose proof (window_step_gated now w s b H) as G.
  destruct (window_step now (w, s) b) as [w' s']. destruct G as [G1 G2].
  destruct (IH w' s' G1) as [I1 I2]. split; [exact I1|congruence].
Qed.

Lemma window_read_gated now w s arrives :
  (isStreaming w = false -> streamingAbortController w = None) ->
  (isStreaming (fst (window_read now (w, s) arrives)) = false ->
   streamingAbortController (fst (window_read now (w, s) arrives)) = None) /\
  signal_aborted (snd (window_read now (w, s) arrives)) = signal_aborted s.
Proof.
  intros H. unfold window_read. destruct (reading s); [|now split].
  destruct (reader_read (signal_aborted s) arrives) as [c| |e].
  - destruct (pump (leftover s) c) as [blocks rest].
    now apply (window_steps_gated now blocks w (stream_with true rest (assistantBuffer s) s)).
  - destruct (window_leftover (leftover s)) as [ev|];
      [destruct (dispatch_leftover now ev (turns w, assistantBuffer s))|];
      now split.
  - now split.
Qed.

Lemma Forall_set_stream (Q : Stream -> Prop) (l : list Stream) :
  forall i x, Forall Q l -> Q x -> Forall Q (set_stream i x l).
Proof.
  induction l as [|y ys IH]; intros [|i] x Hl Hx; cbn; trivial;
    inversion Hl; subst; constructor; auto.
Qed.

Lemma step_gated a act : gated a -> gated (step a act).
Proof.
  intros [G1 G2]. unfold gated, never_aborted in *.
  destruct act as [id|r history|s|now|call now arrives]; cbn [step].
  - now split.
  - destruct history as [msgs|]; [destruct (Nat.eqb r (effect_run a))|]; now split.
  - now split.
  - assert (K : (isStreaming (window a) = false ->
                 streamingAbortController (window a) = None) /\
                Forall (fun s => signal_aborted s = false) (streams a))
      by (split; assumption).
    destruct (isStreaming (window a)) eqn:S; cbv iota;
      [rewrite S; exact K|].
    unfold handleSend.
    destruct (nonempty (trim (input (window a)))); cbn [negb]; cbv iota;
      [|rewrite S; exact K].
    destruct (truthy (session (window a))); cbn [negb]; cbv iota;
      [|rewrite S; exact K].
    cbn [window streams isStreaming]. split; [discriminate|].
    rewrite (G1 eq_refl). cbn [abort_current].
    apply Forall_app. split; [assumption|]. now repeat constructor.
  - destruct (nth_error (streams a) call) as [s|] eqn:E; [|now split].
    pose proof (window_read_gated now (window a) s arrives G1) as [R1 R2].
    destruct (window_read now (window a, s) arrives) as [w' s'].
    cbn [fst snd] in *. cbn [window streams]. split; [exact R1|].
    apply Forall_set_stream; [assumption|]. rewrite R2.
    rewrite Forall_forall in G2. apply G2. eapply nth_error_In; eauto.
Qed.

End GateFacts.

(** X4.  Behind the guards on the Enter key and on the button, [handleSend] never
    meets a controller to abort: whatever happens to a window whose
    responses are all [ok] ones and that starts without a call in flight, no
    request is ever aborted. *)
Theorem window_never_aborts (P : Platform) (a : App) (acts : list action) :
  gated a -> never_aborted (run a acts).
Proof.
  unfold run. revert a. induction acts as [|act rest IH]; intros a G; cbn [fold_left].
  - apply G.
  - apply IH. now apply step_gated.
Qed.

(** X5.  A block without an [event:] line is a [message] event, in both
    decoders. *)
Theorem event_name_defaults_to_message (P : Platform) (block : jsstring) :
  Forall (fun l => is_event_line l = false) (block_lines block) ->
  event (api_block block) = lit "message" /\
  event (window_block block) = lit "message".
Proof.
  intros H. unfold api_block, window_block, decode_block. cbn [event]. split.
  - rewrite scan_keeps_no_event; [reflexivity| |assumption].
    intros f l Hl. unfold api_line. unfold is_event_line in Hl. rewrite Hl.
    now destruct (startsWith l (lit "data:")).
  - rewrite scan_keeps_no_event; [reflexivity| |assumption].
    intros f l Hl. unfold window_line. unfold is_event_line in Hl. rewrite Hl.
    now destruct (startsWith l (lit "data:")).
Qed.

(** X7.  In the window a [message] or [done] event whose payload is [null]
    ends the read: [typeof null] is ["object"], reading [delta] or [answer]
    of it throws, and the [catch] of [handleSend] takes over. *)
Theorem null_payload_ends_the_read
  (P : Platform) (now : N) (w : Window) (s : Stream) (block : jsstring) :
  reading s = true ->
  window_block block = {| event := lit "message"; data := VNull |} \/
  window_block block = {| event := lit "done"; data := VNull |} ->
  window_step now (w, s) block =
  (window_catch now TypeError_property_of_null w,
   stream_with false (leftover s) (assistantBuffer s) s).
Proof.
  intros R [B | B]; unfold window_step; rewrite R, B;
    unfold dispatch; cbn [event data]; literals; reflexivity.
Qed.

(** X8.  [useChat] appends the string of a payload object, whatever its
    members are, as long as none is named [toString]: the text of the most
    recent assistant turn grows by ["[object Object]"]. *)
Theorem useChat_appends_string_of_object
  (P : Platform) (c : Chat) (before after : list Message) (m : Message)
  (t : jsstring) (props : list (jsstring * value number)) :
  messages c = before ++ m :: after ->
  has_role (lit "assistant") m = true ->
  none_of (has_role (lit "assistant")) after ->
  text m = VStr t ->
  lookup (lit "toString") props = None ->
  onEvent c {| event := lit "message"; data := VObj props |} =
  Ok (set_messages
        (before ++ with_text m (VStr (t ++ lit "[object Object]")) :: after) c).
Proof.
  intros E Hm Ha Ht Hp. unfold onEvent. cbn [event data]. literals.
  unfold append_delta. rewrite E, (lastIndexOf_last _ _ _ _ Hm Ha), nth_error_middle.
  cbn [typeof]. literals. cbn [ToString]. rewrite Hp. cbn [bind]. rewrite Ht.
  replace (or_else (VStr t) (VStr [])) with (@VStr number t)
    by (unfold or_else; cbn; now destruct t).
  cbn. now rewrite set_at_middle.
Qed.

(** * More properties *)

(** ** The pieces of a split *)

Section PieceFacts.

Variable m : matcher.

Hypothesis m_shrinks : forall s r, m s = Some r -> (length r < length s)%nat.

Hypothesis m_suffix : forall s r, m s = Some r -> exists d, s = d ++ r.

Lemma find_first_parts s :
  forall p r, find_first m s = Some (p, r) -> exists d, s = p ++ d ++ r.
Proof.
  induction s as [|c t IH]; intros p r H; cbn in H.
  - destruct (m []) eqn:E; [|discriminate].
    inversion H; subst. exact (m_suffix _ _ E).
  - destruct (m (c :: t)) eqn:E.
    + inversion H; subst. exact (m_suffix _ _ E).
    + destruct (find_first m t) as [[p' r']|] eqn:F; [|discriminate].
      inversion H; subst.
      destruct (IH _ _ eq_refl) as [d D]. exists d. cbn. f_equal. exact D.
Qed.

Lemma split_pieces (Q : N -> Prop) n :
  forall s, (length s <= n)%nat -> Forall Q s -> Forall (Forall Q) (split m s).
Proof.
  induction n as [|n IH]; intros s L H; rewrite (split_eq m m_shrinks s);
    destruct (find_first m s) as [[p r]|] eqn:F;
    try (constructor; [exact H|constructor]).
  - apply (find_first_shrinks m m_shrinks) in F. lia.
  - pose proof (find_first_shrinks m m_shrinks _ _ _ F) as K.
    destruct (find_first_parts _ _ _ F) as [d D]. subst s.
    apply Forall_app in H. destruct H as [Hp H].
    apply Forall_app in H. destruct H as [_ Hr].
    constructor; [exact Hp|]. apply IH; [lia|exact Hr].
Qed.

End PieceFacts.

Lemma newline_suffix s r : newline s = Some r -> exists d, s = d ++ r.
Proof.
  destruct s as [|c [|c' t]]; cbn; try discriminate; case_units;
    intro H; inversion H; subst.
  - now exists [LF].
  - now exists [LF].
  - now exists [CR; LF].
Qed.

Lemma blank_line_suffix s r : blank_line s = Some r -> exists d, s = d ++ r.
Proof.
  unfold blank_line. destruct (newline s) as [r1|] eqn:E; [|discriminate].
  intro H. destruct (newline_suffix _ _ E) as [d1 D1].
  destruct (newline_suffix _ _ H) as [d2 D2]. subst.
  exists (d1 ++ d2). now rewrite app_assoc.
Qed.

(** ** White space and [trim] *)

Lemma nonempty_rev (s : jsstring) : nonempty (rev s) = nonempty s.
Proof.
  destruct s as [|c t]; [reflexivity|].
  cbn. now destruct (rev t).
Qed.

Lemma nonempty_drop_white s :
  nonempty (drop_white s) = existsb (fun c => negb (is_white_space c)) s.
Proof.
  induction s as [|c t IH]; [reflexivity|].
  cbn [drop_white existsb]. now destruct (is_white_space c).
Qed.

Lemma ink_drop_white s :
  existsb (fun c => negb (is_white_space c)) (drop_white s) =
  existsb (fun c => negb (is_white_space c)) s.
Proof.
  induction s as [|c t IH]; [reflexivity|].
  cbn [drop_white]. destruct (is_white_space c) eqn:W; [|reflexivity].
  cbn [existsb]. now rewrite W.
Qed.

Lemma ink_rev (s : jsstring) :
  existsb (fun c => negb (is_white_space c)) (rev s) =
  existsb (fun c => negb (is_white_space c)) s.
Proof.
  induction s as [|c t IH]; [reflexivity|].
  cbn [rev]. rewrite existsb_app, IH. cbn. rewrite orb_false_r. apply orb_comm.
Qed.

(** A trimmed text is empty exactly when the text is blank. *)
Lemma nonempty_trim s :
  nonempty (trim s) = existsb (fun c => negb (is_white_space c)) s.
Proof.
  unfold trim.
  now rewrite nonempty_rev, nonempty_drop_white, ink_rev, ink_drop_white.
Qed.

Lemma blank_no_ink s :
  blank s = true -> existsb (fun c => negb (is_white_space c)) s = false.
Proof.
  unfold blank. induction s as [|c t IH]; [reflexivity|].
  cbn. intro H. apply andb_true_iff in H. destruct H as [W H].
  now rewrite W, IH.
Qed.

Lemma trim_blank s : blank s = true -> trim s = [].
Proof.
  intro H. apply blank_no_ink in H. rewrite <- nonempty_trim in H.
  now destruct (trim s).
Qed.

Lemma block_lines_blank block : blank block = true -> block_lines block = [].
Proof.
  intro H. unfold block_lines.
  assert (F : Forall (Forall (fun c => is_white_space c = true)) (split newline block)).
  { apply (split_pieces newline newline_shrinks newline_suffix _ (length block));
      [lia|]. apply Forall_forall. intros c I.
    unfold blank in H. rewrite forallb_forall in H. now apply H. }
  induction F as [|p l Hp _ IH]; [reflexivity|].
  cbn [map filter]. rewrite trim_blank; [exact IH|].
  unfold blank. apply forallb_forall. intros c I.
  rewrite Forall_forall in Hp. now apply Hp.
Qed.

(** ** Bodies sent with carriage returns *)

Lemma crlf_app a b : crlf (a ++ b) = crlf a ++ crlf b.
Proof. unfold crlf. apply flat_map_app. Qed.

Lemma no_CR_app a b : no_CR (a ++ b) = no_CR a && no_CR b.
Proof. unfold no_CR. apply forallb_app. Qed.

Lemma newline_crlf s :
  no_CR s = true -> newline (crlf s) = option_map crlf (newline s).
Proof.
  destruct s as [|c t]; [reflexivity|].
  cbn. intro H. apply andb_true_iff in H. destruct H as [H _].
  destruct (N.eqb_spec c LF) as [->|nl]; [reflexivity|].
  cbn. destruct (N.eqb_spec c CR) as [->|ncr]; [discriminate|].
  destruct (N.eqb_spec c LF); [contradiction|reflexivity].
Qed.

Lemma newline_no_CR s r : no_CR s = true -> newline s = Some r -> no_CR r = true.
Proof.
  intros H E. destruct (newline_suffix _ _ E) as [d D]. subst.
  rewrite no_CR_app in H. now apply andb_true_iff in H.
Qed.

Lemma blank_line_crlf s :
  no_CR s = true -> blank_line (crlf s) = option_map crlf (blank_line s).
Proof.
  intro H. unfold blank_line. rewrite (newline_crlf _ H).
  destruct (newline s) as [r|] eqn:E; [|reflexivity].
  cbn. apply newline_crlf. exact (newline_no_CR _ _ H E).
Qed.

(** A text without a line feed and without a carriage return is sent as it
    is. *)
Lemma crlf_one_line s :
  no_CR s = true -> find_first newline s = None -> crlf s = s.
Proof.
  induction s as [|c t IH]; [reflexivity|].
  intros H F. cbn in H. apply andb_true_iff in H. destruct H as [Hc Ht].
  cbn in F. cbn.
  destruct (N.eqb_spec c LF) as [->|nl]; [discriminate|].
  destruct (N.eqb_spec c CR) as [->|ncr]; [discriminate|].
  destruct (find_first newline t) as [[p r]|] eqn:G; [discriminate|].
  cbn. f_equal. now apply IH.
Qed.

Lemma find_first_newline_crlf s :
  no_CR s = true ->
  find_first newline (crlf s) =
  option_map (fun pr => (fst pr, crlf (snd pr))) (find_first newline s).
Proof.
  induction s as [|c t IH]; [reflexivity|].
  intro H. cbn in H. apply andb_true_iff in H. destruct H as [Hc Ht].
  specialize (IH Ht).
  destruct (N.eqb_spec c LF) as [->|nl]; [reflexivity|].
  destruct (N.eqb_spec c CR) as [->|ncr]; [discriminate|].
  assert (E : crlf (c :: t) = c :: crlf t).
  { cbn. now destruct (N.eqb_spec c LF). }
  rewrite E. cbn.
  destruct (N.eqb_spec c LF); [contradiction|].
  destruct (N.eqb_spec c CR); [contradiction|].
  rewrite IH. now destruct (find_first newline t) as [[p r]|].
Qed.

Lemma split_newline_crlf n :
  forall s, (length s <= n)%nat -> no_CR s = true ->
  split newline (crlf s) = split newline s.
Proof.
  induction n as [|n IH]; intros s L H;
    rewrite (split_eq newline newline_shrinks (crlf s)),
            (split_eq newline newline_shrinks s),
            (find_first_newline_crlf _ H);
    destruct (find_first newline s) as [[p r]|] eqn:F; cbn.
  - apply (find_first_shrinks newline newline_shrinks) in F. lia.
  - now rewrite (crlf_one_line _ H F).
  - pose proof (find_first_shrinks newline newline_shrinks _ _ _ F) as K.
    destruct (find_first_parts newline newline_suffix _ _ _ F) as [d D].
    f_equal. apply IH; [lia|].
    subst s. rewrite !no_CR_app in H.
    apply andb_true_iff in H. destruct H as [_ H].
    now apply andb_true_iff in H.
  - now rewrite (crlf_one_line _ H F).
Qed.

Lemma block_lines_crlf block :
  no_CR block = true -> block_lines (crlf block) = block_lines block.
Proof.
  intro H. unfold block_lines.
  now rewrite (split_newline_crlf (length block) block (le_n _) H).
Qed.

Lemma find_first_blank_line_crlf s :
  no_CR s = true ->
  find_first blank_line (crlf s) =
  option_map (fun pr => (crlf (fst pr), crlf (snd pr))) (find_first blank_line s).
Proof.
  induction s as [|c t IH]; [reflexivity|].
  intro H. pose proof H as H0.
  cbn in H. apply andb_true_iff in H. destruct H as [Hc Ht].
  specialize (IH Ht).
  pose proof (blank_line_crlf _ H0) as B.
  destruct (N.eqb_spec c CR) as [->|ncr]; [discriminate|].
  destruct (N.eqb_spec c LF) as [->|nl].
  - change (crlf (LF :: t)) with (CR :: LF :: crlf t) in *.
    cbn [find_first]. rewrite B.
    destruct (blank_line (LF :: t)) as [r|] eqn:E; [reflexivity|].
    cbn [option_map].
    assert (E' : blank_line (LF :: crlf t) = None).
    { change (blank_line (LF :: crlf t)) with (newline (crlf t)).
      rewrite (newline_crlf _ Ht).
      change (blank_line (LF :: t)) with (newline t) in E. now rewrite E. }
    rewrite E', IH.
    now destruct (find_first blank_line t) as [[p r]|].
  - assert (E : crlf (c :: t) = c :: crlf t).
    { cbn. now destruct (N.eqb_spec c LF). }
    rewrite E.
    assert (N1 : forall x, blank_line (c :: x) = None).
    { intro x. unfold blank_line. cbn.
      destruct (N.eqb_spec c LF); [contradiction|].
      now destruct (N.eqb_spec c CR). }
    cbn [find_first]. rewrite !N1, IH.
    destruct (find_first blank_line t) as [[p r]|]; [|reflexivity].
    cbn. now destruct (N.eqb_spec c LF).
Qed.

Lemma split_blank_line_crlf n :
  forall s, (length s <= n)%nat -> no_CR s = true ->
  split blank_line (crlf s) = map crlf (split blank_line s).
Proof.
  induction n as [|n IH]; intros s L H;
    rewrite (split_eq blank_line blank_line_shrinks (crlf s)),
            (split_eq blank_line blank_line_shrinks s),
            (find_first_blank_line_crlf _ H);
    destruct (find_first blank_line s) as [[p r]|] eqn:F; cbn; try reflexivity.
  - apply (find_first_shrinks blank_line blank_line_shrinks) in F. lia.
  - pose proof (find_first_shrinks blank_line blank_line_shrinks _ _ _ F) as K.
    destruct (find_first_parts blank_line blank_line_suffix _ _ _ F) as [d D].
    f_equal. apply IH; [lia|].
    subst s. rewrite !no_CR_app in H.
    apply andb_true_iff in H. destruct H as [_ H].
    now apply andb_true_iff in H.
Qed.

Lemma removelast_map {A B : Type} (f : A -> B) (l : list A) :
  removelast (map f l) = map f (removelast l).
Proof.
  induction l as [|a [|b t] IH]; [reflexivity|reflexivity|].
  change (f a :: removelast (map f (b :: t)) = f a :: map f (removelast (b :: t))).
  now rewrite IH.
Qed.

Lemma last_map {A B : Type} (f : A -> B) (l : list A) (d : A) :
  last (map f l) (f d) = f (last l d).
Proof.
  induction l as [|a [|b t] IH]; [reflexivity|reflexivity|].
  exact IH.
Qed.

Lemma Forall_removelast {A : Type} (Q : A -> Prop) (l : list A) :
  Forall Q l -> Forall Q (removelast l).
Proof.
  induction 1 as [|a [|b t] Ha Ht IH]; cbn; auto.
Qed.

Lemma Forall_last {A : Type} (Q : A -> Prop) (l : list A) (d : A) :
  Q d -> Forall Q l -> Q (last l d).
Proof.
  intros Hd. induction 1 as [|a [|b t] Ha Ht IH]; cbn; auto.
Qed.

Lemma no_CR_blocks s :
  no_CR s = true -> Forall (fun b => no_CR b = true) (split blank_line s).
Proof.
  intro H.
  assert (F : Forall (Forall (fun c => negb (c =? CR) = true)) (split blank_line s)).
  { apply (split_pieces blank_line blank_line_shrinks blank_line_suffix _ (length s));
      [lia|]. apply Forall_forall. intros c I.
    unfold no_CR in H. rewrite forallb_forall in H. now apply H. }
  eapply Forall_impl; [|exact F].
  intros b Hb. unfold no_CR. apply forallb_forall. intros c I.
  rewrite Forall_forall in Hb. now apply Hb.
Qed.

Lemma pump_crlf s :
  no_CR s = true ->
  pump [] (crlf s) = (map crlf (fst (pump [] s)), crlf (snd (pump [] s))).
Proof.
  intro H. unfold pump. cbn [app fst snd].
  rewrite (split_blank_line_crlf (length s) s (le_n _) H).
  now rewrite removelast_map, (last_map crlf _ []).
Qed.

Lemma ink_crlf s :
  existsb (fun c => negb (is_white_space c)) (crlf s) =
  existsb (fun c => negb (is_white_space c)) s.
Proof.
  induction s as [|c t IH]; [reflexivity|].
  change (crlf (c :: t)) with ((if c =? LF then [CR; LF] else [c]) ++ crlf t).
  rewrite existsb_app, IH.
  destruct (N.eqb_spec c LF) as [->|nl]; [reflexivity|].
  cbn [existsb]. now rewrite orb_false_r.
Qed.

Section LineEndFacts.

Context {P : Platform}.

Lemma decode_block_crlf scan block :
  no_CR block = true -> decode_block scan (crlf block) = decode_block scan block.
Proof.
  intro H. unfold decode_block, raw_payload. now rewrite (block_lines_crlf _ H).
Qed.

Lemma api_emit_crlf blocks :
  Forall (fun b => no_CR b = true) blocks ->
  forall r, fold_left api_emit (map crlf blocks) r = fold_left api_emit blocks r.
Proof.
  induction 1 as [|b l Hb _ IH]; intro r; [reflexivity|].
  cbn [map fold_left]. rewrite IH. f_equal.
  unfold api_emit, api_block. now rewrite (decode_block_crlf _ _ Hb).
Qed.

Lemma window_blocks_crlf blocks :
  Forall (fun b => no_CR b = true) blocks ->
  map window_block (map crlf blocks) = map window_block blocks.
Proof.
  induction 1 as [|b l Hb _ IH]; [reflexivity|].
  cbn [map]. rewrite IH. f_equal. exact (decode_block_crlf _ _ Hb).
Qed.

Lemma postChatStream_crlf s :
  no_CR s = true -> postChatStream [crlf s] = postChatStream [s].
Proof.
  intro H. unfold postChatStream. cbn [fold_left].
  unfold api_chunk. cbn [buffer reader_start].
  rewrite (pump_crlf _ H).
  pose proof (no_CR_blocks _ H) as F.
  unfold pump. cbn [app fst snd].
  rewrite (api_emit_crlf _ (Forall_removelast _ _ F)).
  set (r := fold_left api_emit (removelast (split blank_line s)) reader_start).
  set (rest := last (split blank_line s) []).
  assert (R : no_CR rest = true) by (apply Forall_last; [reflexivity|exact F]).
  unfold api_flush. cbn [buffer].
  rewrite !nonempty_trim, ink_crlf.
  destruct (existsb _ rest); [|reflexivity].
  unfold api_emit, api_block. cbn [calls doneData].
  now rewrite (decode_block_crlf _ _ R).
Qed.

Lemma window_decode_crlf s :
  no_CR s = true ->
  fst (window_decode [crlf s]) = fst (window_decode [s]) /\
  window_leftover (snd (window_decode [crlf s])) = window_leftover (snd (window_decode [s])).
Proof.
  intro H. unfold window_decode. cbn [fold_left].
  unfold window_chunk. cbn [fst snd].
  rewrite (pump_crlf _ H).
  pose proof (no_CR_blocks _ H) as F.
  unfold pump. cbn [app fst snd].
  rewrite (window_blocks_crlf _ (Forall_removelast _ _ F)).
  split; [reflexivity|].
  set (rest := last (split blank_line s) []).
  assert (R : no_CR rest = true) by (apply Forall_last; [reflexivity|exact F]).
  unfold window_leftover. rewrite !nonempty_trim, ink_crlf.
  destruct (existsb _ rest); [|reflexivity].
  unfold window_block. now rewrite (decode_block_crlf _ _ R).
Qed.

End LineEndFacts.

(** X9.  A body sent with carriage returns before its line feeds decodes as
    the same body sent with line feeds alone, however the two are cut into
    chunks: [postChatStream] makes the same calls and resolves to the same
    value, and [handleSend] dispatches on the same events and ends with the
    same leftover block. *)
Theorem line_ends_do_not_matter
  (P : Platform) (text : jsstring) (chunks chunks' : list jsstring) :
  no_CR text = true ->
  concat chunks = text ->
  concat chunks' = crlf text ->
  postChatStream chunks' = postChatStream chunks /\
  fst (window_decode chunks') = fst (window_decode chunks) /\
  window_leftover (snd (window_decode chunks')) =
    window_leftover (snd (window_decode chunks)).
Proof.
  intros H E E'.
  rewrite (postChatStream_chunks chunks'), (postChatStream_chunks chunks).
  rewrite (window_decode_chunks chunks'), (window_decode_chunks chunks).
  rewrite E, E'.
  split; [exact (postChatStream_crlf _ H)|exact (window_decode_crlf _ H)].
Qed.

(** X10.  A block of white space only is no gap in the stream: either
    decoder makes of it a [message] event whose payload is what the empty
    text gives.  Left in the buffer at the end of the body it is dropped. *)
Theorem blank_block_is_an_empty_message (P : Platform) (block : jsstring) :
  blank block = true ->
  api_block block = {| event := lit "message"; data := parse_payload [] |} /\
  window_block block = {| event := lit "message"; data := parse_payload [] |} /\
  window_leftover block = None /\
  forall r, buffer r = block -> api_flush r = r.
Proof.
  intro H.
  unfold api_block, window_block, decode_block, raw_payload.
  rewrite (block_lines_blank _ H).
  split; [reflexivity|]. split; [reflexivity|].
  unfold window_leftover, api_flush. rewrite (trim_blank _ H).
  split; [reflexivity|].
  intros r ->. now rewrite (trim_blank _ H).
Qed.

(** ** Transcripts that grow *)

Section GrowthFacts.

Context {P : Platform}.

Local Abbreviation val := (value number).

Lemma grows_refl p (l : list Message) : grows p l l.
Proof. intros i m H. exists m. auto. Qed.

Lemma grows_trans p (a b c : list Message) : grows p a b -> grows p b c -> grows p a c.
Proof.
  intros H1 H2 i m E.
  destruct (H1 i m E) as (m1 & E1 & R1 & K1).
  destruct (H2 i m1 E1) as (m2 & E2 & R2 & K2).
  exists m2. split; [exact E2|]. split; [congruence|].
  intro F. specialize (K1 F). subst m1. exact (K2 F).
Qed.

Lemma grows_app p (l l' : list Message) : grows p l (l ++ l').
Proof.
  intros i m H. exists m. split; [|auto].
  rewrite nth_error_app1; [exact H|].
  apply nth_error_Some. congruence.
Qed.

Lemma grows_middle p (before after : list Message) m m' :
  role m' = role m -> p m = true ->
  grows p (before ++ m :: after) (before ++ m' :: after).
Proof.
  intros R T. induction before as [|b l IH]; intros i x H.
  - destruct i as [|i]; cbn in *.
    + inversion H; subst. exists m'. split; [reflexivity|]. split; [exact R|].
      congruence.
    + exists x. auto.
  - destruct i as [|i]; cbn in *.
    + exists x. auto.
    + exact (IH i x H).
Qed.


Lemma grows_put_answer answer (l : list Message) :
  grows (has_role (lit "assistant")) l (put_answer answer l).
Proof.
  destruct (put_answer_cases answer l) as [[_ E]|(before & m & after & E & T & _ & E')].
  - rewrite E. apply grows_app.
  - rewrite E'. subst l. now apply grows_middle.
Qed.

Lemma grows_touch (old new : list Message) :
  touches_last_assistant old new -> grows (has_role (lit "assistant")) old new.
Proof.
  intros [->|[(before & m & after & t & -> & T & _ & ->)|(t & _ & ->)]].
  - apply grows_refl.
  - now apply grows_middle.
  - apply grows_app.
Qed.








Lemma grows_send_block now (s : Send) block s' :
  send_block now s block = Ok s' ->
  grows (has_role (lit "assistant")) (messages (chat s)) (messages (chat s')).
Proof.
  unfold send_block. destruct (pending s).
  - destruct (onEvent (chat s) (api_block block)) as [c|e|e] eqn:E; intro H;
      inversion H; subst; cbn.
    + apply grows_touch. exact (onEvent_frame _ _ _ E).
    + apply grows_app.
  - intro H. inversion H. apply grows_refl.
Qed.

Lemma grows_send_blocks now blocks :
  forall (s s' : Send),
  send_blocks now blocks s = Ok s' ->
  grows (has_role (lit "assistant")) (messages (chat s)) (messages (chat s')).
Proof.
  induction blocks as [|b l IH]; intros s s' H; cbn in H.
  - inversion H. apply grows_refl.
  - apply bind_ok in H. destruct H as (s1 & H1 & H2).
    eapply grows_trans; [exact (grows_send_block _ _ _ _ H1)|exact (IH _ _ H2)].
Qed.

Lemma grows_send_fallback (s : Send) :
  grows (has_role (lit "assistant")) (messages (chat s)) (messages (chat (send_fallback s))).
Proof.
  unfold send_fallback.
  cbn [chat messages set_loading set_sessionId].
  destruct (truthy (get_opt (done_data s) (lit "answer")));
    destruct (truthy (get_opt (done_data s) (lit "sources")));
    cbn [messages set_sources set_messages];
    try apply grows_refl; apply grows_put_answer.
Qed.

Lemma grows_send_read now (s : Send) arrives s' :
  send_read now s arrives = Ok s' ->
  grows (has_role (lit "assistant")) (messages (chat s)) (messages (chat s')).
Proof.
  unfold send_read. destruct (pending s) eqn:Pn.
  - destruct (reader_read (aborted s) arrives) as [c| |e].
    + destruct (pump (buf s) c) as [blocks rest]. intro H.
      exact (grows_send_blocks _ _ _ _ H).
    + intro H. apply bind_ok in H. destruct H as (s1 & H1 & H2).
      inversion H2; subst.
      assert (G : grows (has_role (lit "assistant")) (messages (chat s)) (messages (chat s1))).
      { destruct (nonempty (trim (buf s))).
        - exact (grows_send_block _ _ _ _ H1).
        - inversion H1. apply grows_refl. }
      destruct (pending s1); [|exact G].
      eapply grows_trans; [exact G|apply grows_send_fallback].
    + intro H. inversion H. cbn. apply grows_app.
  - intro H. inversion H. apply grows_refl.
Qed.

End GrowthFacts.

(** X11.  A streaming [send] of [useChat] never removes or moves a turn and
    never changes a role; a turn that is not an assistant turn, the user's
    own among them, is left exactly as it was, whatever the body holds and
    however the reads settle. *)
Theorem streaming_send_keeps_other_turns
  (P : Platform) (settles : list (N * read_result)) :
  forall s s' : Send,
  send_reads s settles = Ok s' ->
  grows (has_role (lit "assistant")) (messages (chat s)) (messages (chat s')).
Proof.
  induction settles as [|[now r] l IH]; intros s s' H; cbn in H.
  - inversion H. apply grows_refl.
  - apply bind_ok in H. destruct H as (s1 & H1 & H2).
    eapply grows_trans; [exact (grows_send_read _ _ _ _ H1)|exact (IH _ _ H2)].
Qed.


(** ** One call at a time *)

Section CallFacts.

Context {P : Platform}.

Local Abbreviation val := (value number).

Lemma nth_error_set_stream_other (l : list Stream) :
  forall i j x, i <> j -> nth_error (set_stream j x l) i = nth_error l i.
Proof.
  induction l as [|y t IH]; intros i j x N; [now destruct j|].
  destruct j as [|j], i as [|i]; cbn; try reflexivity; try congruence.
  apply IH. congruence.
Qed.

Lemma nth_error_set_stream_cases (l : list Stream) i j x y :
  nth_error (set_stream j x l) i = Some y ->
  (i = j /\ y = x) \/ (i <> j /\ nth_error l i = Some y).
Proof.
  intro H. destruct (Nat.eq_dec i j) as [->|N].
  - left. split; [reflexivity|].
    destruct (nth_error l j) as [s|] eqn:E.
    + rewrite (nth_error_set_stream l j x s E) in H. congruence.
    + assert (L : (length l <= j)%nat) by now apply nth_error_None.
      rewrite <- (length_set_stream l j x) in L.
      apply nth_error_None in L. congruence.
  - right. split; [exact N|]. now rewrite nth_error_set_stream_other in H.
Qed.

Lemma abort_current_reading c (l : list Stream) i x :
  nth_error (abort_current c l) i = Some x ->
  exists y, nth_error l i = Some y /\ reading x = reading y.
Proof.
  unfold abort_current. destruct c as [j|]; [|eauto].
  destruct (nth_error l j) as [s|] eqn:E; [|eauto].
  intro H. apply nth_error_set_stream_cases in H.
  destruct H as [[-> ->]|[_ H]]; eauto.
Qed.

Lemma length_abort_current c (l : list Stream) : length (abort_current c l) = length l.
Proof.
  unfold abort_current. destruct c as [j|]; [|reflexivity].
  destruct (nth_error l j); [apply length_set_stream|reflexivity].
Qed.

(** A block leaves the flags and the controller alone unless it ends the
    call. *)
Lemma window_step_live now (w : Window) (s : Stream) block :
  let (w', s') := window_step now (w, s) block in
  signal_aborted s' = signal_aborted s /\
  (reading s' = true ->
   reading s = true /\ isStreaming w' = isStreaming w /\
   streamingAbortController w' = streamingAbortController w).
Proof.
  unfold window_step. destruct (reading s) eqn:R; [|now rewrite R].
  destruct (dispatch now (window_block block) (turns w, assistantBuffer s))
    as [[m ab]|e|e]; cbn; auto; split; auto; discriminate.
Qed.

Lemma window_steps_live now blocks :
  forall (w : Window) (s : Stream),
  let (w', s') := fold_left (window_step now) blocks (w, s) in
  signal_aborted s' = signal_aborted s /\
  (reading s' = true ->
   reading s = true /\ isStreaming w' = isStreaming w /\
   streamingAbortController w' = streamingAbortController w).
Proof.
  induction blocks as [|b l IH]; intros w s; [cbn; auto|].
  cbn [fold_left].
  pose proof (window_step_live now w s b) as H1.
  destruct (window_step now (w, s) b) as [w1 s1].
  specialize (IH w1 s1).
  destruct (fold_left (window_step now) l (w1, s1)) as [w2 s2].
  destruct H1 as [A1 L1], IH as [A2 L2].
  split; [congruence|]. intro R.
  destruct (L2 R) as (R1 & I2 & C2). destruct (L1 R1) as (R0 & I1 & C1).
  split; [exact R0|]. split; congruence.
Qed.

Lemma window_read_live now (w : Window) (s : Stream) arrives :
  let (w', s') := window_read now (w, s) arrives in
  signal_aborted s' = signal_aborted s /\
  (reading s' = true ->
   reading s = true /\ isStreaming w' = isStreaming w /\
   streamingAbortController w' = streamingAbortController w).
Proof.
  unfold window_read. destruct (reading s) eqn:R; [|now rewrite R].
  destruct (reader_read (signal_aborted s) arrives) as [c| |e].
  - destruct (pump (leftover s) c) as [blocks rest].
    pose proof (window_steps_live now blocks w (stream_with true rest (assistantBuffer s) s))
      as H.
    destruct (fold_left (window_step now) blocks
                (w, stream_with true rest (assistantBuffer s) s)) as [w' s'].
    destruct H as [A L]. split; [exact A|]. intro R'.
    destruct (L R') as (_ & I & C). auto.
  - destruct (match window_leftover (leftover s) with
              | Some ev => dispatch_leftover now ev (turns w, assistantBuffer s)
              | None => (turns w, assistantBuffer s)
              end) as [m ab].
    cbn. split; [reflexivity|discriminate].
  - cbn. split; [reflexivity|discriminate].
Qed.

Lemma window_read_idle now (w : Window) (s : Stream) arrives :
  reading s = false -> window_read now (w, s) arrives = (w, s).
Proof.
  intro R. unfold window_read. now rewrite R.
Qed.

Lemma one_call_reads_unique (a : App) i j si sj :
  one_call_reads a ->
  nth_error (streams a) i = Some si -> nth_error (streams a) j = Some sj ->
  reading si = true -> reading sj = true -> i = j.
Proof.
  intros I Ei Ej Ri Rj.
  destruct (I i si Ei Ri) as (_ & Ci & _).
  destruct (I j sj Ej Rj) as (_ & Cj & _).
  congruence.
Qed.

Lemma one_call_reads_step (a : App) x :
  one_call_reads a -> one_call_reads (step_request a x).
Proof.
  intro I.
  destruct x as [[id|run history|s|now|call now arrives]|call now status statusText txt];
    cbn [step_request step].
  - exact I.
  - destruct history as [msgs|]; [destruct (Nat.eqb run (effect_run a))|]; exact I.
  - exact I.
  - destruct (isStreaming (window a)) eqn:S; [exact I|].
    unfold handleSend.
    destruct (negb (nonempty (trim (input (window a))))); [exact I|].
    destruct (negb (truthy (session (window a)))); [exact I|].
    intros i si E R. cbn [window streams] in *.
    destruct (Nat.lt_ge_cases i (length (streams a))) as [L|L].
    + rewrite nth_error_app1 in E by now rewrite length_abort_current.
      apply abort_current_reading in E. destruct E as (y & Ey & Ry).
      rewrite Ry in R. destruct (I i y Ey R) as (S' & _). congruence.
    + rewrite nth_error_app2 in E by now rewrite length_abort_current.
      rewrite length_abort_current in E.
      destruct (i - length (streams a))%nat as [|k] eqn:K.
      * cbn in E. inversion E; subst si. cbn.
        split; [reflexivity|]. split; [|reflexivity]. f_equal. lia.
      * cbn in E. now destruct k.
  - destruct (nth_error (streams a) call) as [s|] eqn:E; [|exact I].
    pose proof (window_read_live now (window a) s arrives) as H.
    destruct (reading s) eqn:R.
    + destruct (window_read now (window a, s) arrives) as [w' s'].
      destruct H as [A L].
      intros i si Ei Ri. cbn [window streams] in *.
      apply nth_error_set_stream_cases in Ei.
      destruct Ei as [[-> ->]|[N Ei]].
      * destruct (L Ri) as (_ & I' & C').
        destruct (I call s E R) as (S0 & C0 & A0).
        split; [congruence|]. split; congruence.
      * exfalso. apply N.
        exact (one_call_reads_unique a i call si s I Ei E Ri R).
    + rewrite (window_read_idle now (window a) s arrives R).
      rewrite (set_stream_same _ _ _ E). now destruct a.
  - destruct (nth_error (streams a) call) as [s|] eqn:E; [|exact I].
    destruct (reading s) eqn:R; [|exact I].
    intros i si Ei Ri. cbn [window streams] in *.
    apply nth_error_set_stream_cases in Ei.
    destruct Ei as [[-> ->]|[N Ei]]; [discriminate|].
    exfalso. apply N.
    exact (one_call_reads_unique a i call si s I Ei E Ri R).
Qed.

Lemma one_call_reads_run xs :
  forall a : App, one_call_reads a -> one_call_reads (run_requests a xs).
Proof.
  induction xs as [|x l IH]; intros a I; [exact I|].
  unfold run_requests. cbn [fold_left].
  apply IH. now apply one_call_reads_step.
Qed.

End CallFacts.

(** X13.  At most one call of [handleSend] reads at a time, also when
    responses are refused: in every run of the window that starts with no
    call reading, two calls that read are the same call, and a call that
    reads belongs to the controller, has its signal not aborted, and
    [isStreaming] is up. *)
Theorem one_call_reads_at_a_time (P : Platform) (a : App) (xs : list request) :
  one_call_reads a ->
  one_call_reads (run_requests a xs) /\
  forall i j si sj,
    nth_error (streams (run_requests a xs)) i = Some si ->
    nth_error (streams (run_requests a xs)) j = Some sj ->
    reading si = true -> reading sj = true -> i = j.
Proof.
  intro I. pose proof (one_call_reads_run xs a I) as I'.
  split; [exact I'|].
  intros i j si sj. now apply one_call_reads_unique.
Qed.

(** X14.  A refused request leaves its controller behind
    (ChatWindow.jsx, lines 132-144, against lines 273-275): the call is
    over and both flags are down, but [streamingAbortController.current]
    still holds the call, and the next [handleSend] aborts that finished
    call. *)
Theorem refused_request_keeps_its_controller
  (P : Platform) (a : App) (i : nat) (s : Stream) (now now' : N)
  (status : number) (statusText txt : jsstring) :
  one_call_reads a ->
  nth_error (streams a) i = Some s ->
  reading s = true ->
  let a1 := step_request a (Refused i now status statusText txt) in
  isStreaming (window a1) = false /\
  streamingAbortController (window a1) = Some i /\
  turns (window a1) =
    replaceLastAssistantText now (VStr []) (turns (window a))
    ++ [system_notice now (refusal_text (lit "Send failed: ") status statusText txt)] /\
  (forall j sj, nth_error (streams a1) j = Some sj -> reading sj = false) /\
  (nonempty (trim (input (window a))) = true ->
   truthy (session (window a)) = true ->
   exists s2,
     nth_error (streams (step_request a1 (Act (Submit now')))) i = Some s2 /\
     reading s2 = false /\ signal_aborted s2 = true).
Proof.
  intros I E R a1.
  destruct (I i s E R) as (S & C & A).
  assert (E1 : a1 =
               {| window := window_refused now status statusText txt (window a);
                  streams := set_stream i
                               (stream_with false (leftover s) (assistantBuffer s) s)
                               (streams a);
                  effect_run := effect_run a |}).
  { unfold a1. cbn [step_request]. now rewrite E, R. }
  rewrite E1. cbn [window streams window_refused isStreaming streamingAbortController turns].
  split; [reflexivity|]. split; [exact C|]. split; [reflexivity|].
  split.
  - intros j sj Ej. apply nth_error_set_stream_cases in Ej.
    destruct Ej as [[-> ->]|[N Ej]]; [reflexivity|].
    destruct (reading sj) eqn:Rj; [|reflexivity].
    exfalso. apply N. exact (one_call_reads_unique a j i sj s I Ej E Rj R).
  - intros T U. cbn [step_request step window isStreaming].
    unfold handleSend.
    cbn [window input session streams streamingAbortController isStreaming
         window_refused].
    rewrite T, U. cbn [negb]. rewrite C. cbn [streams abort_current].
    rewrite (nth_error_set_stream _ _ _ _ E).
    rewrite set_stream_twice.
    eexists. split.
    + rewrite nth_error_app1.
      * apply (nth_error_set_stream _ _ _ _ E).
      * rewrite length_set_stream. apply nth_error_Some. congruence.
    + split; reflexivity.
Qed.

(** X15.  A read that fails erases the text the window has shown: the
    [catch] of [handleSend] empties the last assistant or system turn before
    it adds its notice.  The [catch] of [send] in [useChat] keeps the text
    and adds a turn with the message. *)
Theorem failed_read_erases_window_text
  (P : Platform) (now : N) (e : error) (w : Window) (s : Stream)
  (before after : list Message) (m : Message) :
  reading s = true ->
  signal_aborted s = false ->
  turns w = before ++ m :: after ->
  assistant_or_system m = true ->
  none_of assistant_or_system after ->
  turns (fst (window_read now (w, s) (ReadFailed e))) =
    (before ++ {| role := role m; text := VStr []; ts := Some now |} :: after)
    ++ [system_notice now (lit "Stream error: " ++ Error_text e)] /\
  isStreaming (fst (window_read now (w, s) (ReadFailed e))) = false /\
  forall sd : Send,
    pending sd = true -> aborted sd = false ->
    exists sd',
      send_read now sd (ReadFailed e) = Ok sd' /\
      loading (chat sd') = false /\
      messages (chat sd') =
        messages (chat sd)
        ++ [{| role := lit "assistant"; text := VStr (lit "Error: " ++ Error_text e);
               ts := Some now |}].
Proof.
  intros R A E T N.
  unfold window_read. rewrite R, A. cbn [reader_read fst].
  unfold window_catch. cbn [turns set_turns stop_streaming isStreaming].
  rewrite E, (replaceLastAssistantText_last _ _ _ _ _ T N).
  split; [reflexivity|]. split; [reflexivity|].
  intros sd Pn Ab. unfold send_read. rewrite Pn, Ab. cbn [reader_read].
  eexists. split; [reflexivity|]. split; reflexivity.
Qed.

Section LeftoverFacts.

Context {P : Platform}.

Local Abbreviation val := (value number).




End LeftoverFacts.


(** X17.  A [send] without streaming adds two turns, whatever the request
    does: the user's message, then one assistant turn, which holds the
    answer, the empty text for an answer without one, or the error message
    when the request fails or answers [null].  [loading] is down afterwards,
    and the session identifier changes only for an answer that brings
    one. *)
Theorem plain_send_adds_two_turns
  (P : Platform) (now now' : N) (message : jsstring) (c : Chat) (r : settled) :
  let c1 := fst (send_plain_begin now message c) in
  let c2 := send_plain_settle now' (snd (send_plain_begin now message c)) r c1 in
  loading c1 = true /\
  loading c2 = false /\
  (exists t,
     messages c2 =
     messages c
     ++ [{| role := lit "user"; text := VStr message; ts := Some now |};
         {| role := lit "assistant"; text := t; ts := Some now' |}] /\
     (forall resp,
        r = Resolved resp -> truthy (get_opt resp (lit "answer")) = true ->
        t = get_opt resp (lit "answer")) /\
     (forall e, r = Rejected e -> t = VStr (lit "Error: " ++ Error_text e))) /\
  ((forall resp, r = Resolved resp -> truthy (get_opt resp (lit "sessionId")) = false) ->
   sessionId c2 = sessionId c) /\
  (forall resp,
     r = Resolved resp -> truthy (get_opt resp (lit "sessionId")) = true ->
     sessionId c2 = get_opt resp (lit "sessionId")).
Proof.
  intros c1 c2. unfold c2, c1, send_plain_begin, send_plain_settle.
  cbn [fst snd].
  destruct r as [resp|e].
  - destruct (get resp (lit "sessionId")) as [sid|e|e] eqn:G.
    + assert (Es : sid = get_opt resp (lit "sessionId")).
      { unfold get in G. destruct resp; inversion G; reflexivity. }
      split; [reflexivity|]. split; [reflexivity|]. split; [|split].
      * eexists. split.
        { cbn [messages set_loading set_sources appendMessage set_messages set_sessionId].
          rewrite <- app_assoc. reflexivity. }
        split.
        { intros resp' H T. inversion H; subst resp'. unfold or_else. now rewrite T. }
        { intros e H. discriminate. }
      * intro H. cbn. unfold or_else. rewrite Es, (H resp eq_refl). reflexivity.
      * intros resp' H T. inversion H; subst resp'. cbn. unfold or_else.
        rewrite Es, T. reflexivity.
    + assert (N : get_opt resp (lit "answer") = VUndefined /\
                  get_opt resp (lit "sessionId") = VUndefined).
      { unfold get in G. destruct resp; inversion G; split; reflexivity. }
      destruct N as [Na Ns].
      split; [reflexivity|]. split; [reflexivity|]. split; [|split].
      * eexists. split.
        { cbn [messages set_loading chat_catch appendMessage set_messages].
          rewrite <- app_assoc. reflexivity. }
        split.
        { intros resp' H T. inversion H; subst resp'. rewrite Na in T. discriminate. }
        { intros e' H. discriminate. }
      * intros _. reflexivity.
      * intros resp' H T. inversion H; subst resp'. rewrite Ns in T. discriminate.
    + unfold get in G. destruct resp; discriminate.
  - split; [reflexivity|]. split; [reflexivity|]. split; [|split].
    + eexists. split.
      { cbn [messages set_loading chat_catch appendMessage set_messages].
        rewrite <- app_assoc. reflexivity. }
      split.
      { intros resp H. discriminate. }
      { intros e' H. now inversion H. }
    + intros _. reflexivity.
    + intros resp H. discriminate.
Qed.

(** X18.  A streaming [send] that fails before any text has come leaves the
    empty assistant turn it began with in the list and puts the error in a
    turn of its own behind it: after a refused request the list ends with
    the user's message, an empty assistant turn and the error turn, and no
    later read changes the state. *)
Theorem refused_stream_leaves_empty_turn
  (P : Platform) (now now' : N) (message : jsstring) (c : Chat)
  (status : number) (statusText txt : jsstring) (settles : list (N * read_result)) :
  let s := send_refused now' status statusText txt (send_begin now message c) in
  loading (chat s) = false /\
  messages (chat s) =
    messages c
    ++ [{| role := lit "user"; text := VStr message; ts := Some now |};
        {| role := lit "assistant"; text := VStr []; ts := Some now |};
        {| role := lit "assistant";
           text := VStr (lit "Error: "
                         ++ refusal_text (lit "Stream request failed: ")
                              status statusText txt);
           ts := Some now' |}] /\
  send_reads s settles = Ok s.
Proof.
  intro s. split; [reflexivity|]. split.
  - unfold s, send_refused, send_begin.
    cbn [pending chat messages set_loading appendMessage set_messages].
    now rewrite <- !app_assoc.
  - apply send_reads_settled. reflexivity.
Qed.

Section ResetFacts.

Context {P : Platform}.

(** The session identifier after the fallback: the one of the state, else
    the one of [doneData], else the one [send] was called with. *)
Lemma send_fallback_sessionId (s : Send) :
  sessionId (chat (send_fallback s)) =
  or_else (or_else (sessionId (chat s)) (get_opt (done_data s) (lit "sessionId")))
    (captured s).
Proof.
  unfold send_fallback. cbn [chat sessionId set_loading set_sessionId].
  destruct (truthy (get_opt (done_data s) (lit "answer")));
    destruct (truthy (get_opt (done_data s) (lit "sources"))); reflexivity.
Qed.

Lemma truthy_or_else (a b : value number) :
  truthy (or_else a b) = truthy a || truthy b.
Proof.
  unfold or_else. destruct (truthy a) eqn:T; [now rewrite T|reflexivity].
Qed.

End ResetFacts.

(** X19.  [reset] does not stop a stream.  It empties the list and forgets
    the session, but the call of [send] goes on reading: the next [message]
    event starts a new list with one assistant turn that holds the payload,
    and the end of the stream sets a session identifier again when [send]
    was called with one. *)
Theorem reset_does_not_stop_the_stream
  (P : Platform) (s : Send) (now now' : N) (c block rest d : jsstring) :
  pending s = true ->
  aborted s = false ->
  pump (buf s) c = ([block], rest) ->
  blank rest = true ->
  api_block block = {| event := lit "message"; data := VStr d |} ->
  let s0 := with_chat (reset (sessionId (chat s)) (chat s)) s in
  messages (chat s0) = [] /\
  truthy (sessionId (chat s0)) = false /\
  pending s0 = true /\ aborted s0 = false /\
  exists s1 s2,
    send_read now s0 (Chunk c) = Ok s1 /\
    messages (chat s1) = [assistant_turn (VStr d)] /\
    send_read now' s1 EndOfBody = Ok s2 /\
    pending s2 = false /\
    (truthy (captured s) = true -> truthy (sessionId (chat s2)) = true).
Proof.
  intros Pn Ab Pu Bl Ev s0.
  assert (M0 : messages (chat s0) = []).
  { unfold s0, reset. cbn. now destruct (truthy (sessionId (chat s))). }
  assert (T0 : truthy (sessionId (chat s0)) = false).
  { unfold s0, reset. cbn. destruct (truthy (sessionId (chat s))) eqn:T; [reflexivity|].
    exact T. }
  split; [exact M0|]. split; [exact T0|]. split; [exact Pn|]. split; [exact Ab|].
  set (s1 := {| chat := set_messages [assistant_turn (VStr d)] (chat s0);
                captured := captured s; abortRef := abortRef s; aborted := false;
                pending := true; buf := rest; done_data := done_data s |}).
  exists s1, (send_fallback s1).
  split.
  { unfold send_read.
    change (pending s0) with (pending s). change (aborted s0) with (aborted s).
    change (buf s0) with (buf s).
    rewrite Pn, Ab. cbn [reader_read]. rewrite Pu.
    cbn [send_blocks]. unfold send_block. cbn [pending chat].
    rewrite Ev. unfold onEvent. cbn [event data]. literals.
    unfold append_delta. rewrite M0. cbn [map lastIndexOf in_updater bind].
    assert (O : or_else (@VStr number d) (VStr []) = VStr d).
    { unfold or_else. cbn. now destruct d. }
    rewrite O. reflexivity. }
  split; [reflexivity|].
  split.
  { unfold send_read. cbn [s1 pending aborted buf reader_read].
    rewrite (trim_blank _ Bl). reflexivity. }
  split; [reflexivity|].
  intro Tc. rewrite send_fallback_sessionId, !truthy_or_else.
  cbn [s1 captured]. rewrite Tc. apply orb_true_r.
Qed.

(** X20.  A load that fails empties the list even when it belongs to a
    session that is no longer selected: after session A, then session B was
    selected and the turns of B were shown, a late answer for A is dropped,
    but a late failure for A removes the turns of B. *)
Theorem failed_stale_load_empties_the_list
  (P : Platform) (a : App) (idA idB : value number) (history : list Message) :
  truthy idB = true ->
  let a2 := run a [SelectSession idA; SelectSession idB;
                   Loaded (2 + effect_run a) (Some history)] in
  session (window a2) = idB /\
  turns (window a2) = history /\
  (forall late, step a2 (Loaded (1 + effect_run a) (Some late)) = a2) /\
  turns (window (step a2 (Loaded (1 + effect_run a) None))) = [] /\
  session (window (step a2 (Loaded (1 + effect_run a) None))) = idB.
Proof.
  intros T a2.
  assert (E : a2 = {| window := {| session := idB; turns := history;
                                   input := input (window a);
                                   isStreaming := isStreaming (window a);
                                   streamIndicator := streamIndicator (window a);
                                   streamingAbortController :=
                                     streamingAbortController (window a) |};
                      streams := streams a;
                      effect_run := S (S (effect_run a)) |}).
  { unfold a2, run. cbn [fold_left step window effect_run streams].
    rewrite Nat.eqb_refl. reflexivity. }
  rewrite E. split; [reflexivity|]. split; [reflexivity|]. split; [|split].
  - intro late. cbn [step effect_run].
    assert (N : Nat.eqb (1 + effect_run a) (S (S (effect_run a))) = false)
      by (apply Nat.eqb_neq; lia).
    now rewrite N.
  - reflexivity.
  - reflexivity.
Qed.

(** X21.  The selected session survives a reload: what the effect of [App]
    writes to the storage for a session identifier that is a string with
    something in it is read back as that identifier when [App] mounts, and
    the list the server then sends does not change the selection, whether
    or not the identifier is in it.  With nothing stored the first session
    of the list is selected. *)
Theorem stored_selection_survives_reload
  (P : Platform) (id : jsstring) (r : settled) :
  nonempty id = true ->
  persist (VStr id) = Ok (Some id) /\
  selectedSessionId (mount (Some id)) = VStr id /\
  selectedSessionId (sessions_fetched (restore (Some id)) r (mount (Some id))) = VStr id /\
  persist VNull = Ok None /\
  selectedSessionId (mount None) = VNull /\
  (forall first more x,
     get first (lit "id") = Ok x ->
     selectedSessionId
       (sessions_fetched (restore None) (Resolved (VArr (first :: more))) (mount None)) = x).
Proof.
  intro H.
  assert (R : restore (Some id) = @VStr number id).
  { unfold restore, or_else. cbn. now rewrite H. }
  split; [unfold persist; cbn; now rewrite H|].
  split; [exact R|]. split.
  - unfold sessions_fetched, mount. rewrite R. cbn [truthy]. rewrite H.
    destruct r as [[| | | | |[|first more]|]|e]; reflexivity.
  - split; [reflexivity|]. split; [reflexivity|].
    intros first more x G. unfold sessions_fetched, restore, or_else.
    cbn [truthy]. now rewrite G.
Qed.

(** ** A streaming [send] is [postChatStream] with [onEvent] as callback *)

Section SendFacts.

Context {P : Platform}.

Local Abbreviation val := (value number).

Lemma onEvents_app (c : Chat) evs evs' :
  onEvents c (evs ++ evs') = (c1 <- onEvents c evs ;; onEvents c1 evs').
Proof.
  revert c. induction evs as [|ev l IH]; intro c; [reflexivity|].
  cbn [app onEvents]. destruct (onEvent c ev) as [c1|e|e]; cbn [bind]; auto.
Qed.

Lemma api_chunk_calls (r : Reader) chunk :
  calls (api_chunk r chunk) = calls r ++ map api_block (fst (pump (buffer r) chunk)).
Proof.
  unfold api_chunk. destruct (pump (buffer r) chunk) as [blocks rest].
  cbn [calls fst]. apply api_emit_all_calls.
Qed.

Lemma api_chunks_calls chunks :
  forall r : Reader, exists more,
  calls (fold_left api_chunk chunks r) = calls r ++ more.
Proof.
  induction chunks as [|ch l IH]; intro r.
  - exists []. cbn. now rewrite app_nil_r.
  - cbn [fold_left]. destruct (IH (api_chunk r ch)) as [more E].
    rewrite E, api_chunk_calls, <- app_assoc. eauto.
Qed.

(** The blocks of one chunk: [send] has called [onEvent] on each of them and
    holds the [doneData] of [postChatStream]. *)
Lemma send_blocks_emit now blocks :
  forall (s : Send) (r : Reader) c',
  pending s = true ->
  done_data s = doneData r ->
  onEvents (chat s) (map api_block blocks) = Ok c' ->
  send_blocks now blocks s =
  Ok {| chat := c'; captured := captured s; abortRef := abortRef s; aborted := aborted s;
        pending := true; buf := buf s;
        done_data := doneData (fold_left api_emit blocks r) |}.
Proof.
  induction blocks as [|b l IH]; intros s r c' Pn D H.
  - cbn in H. inversion H; subst c'. cbn. rewrite <- D, <- Pn. now destruct s.
  - cbn [map onEvents] in H. apply bind_ok in H. destruct H as (c1 & H1 & H2).
    cbn [send_blocks fold_left]. unfold send_block at 1. rewrite Pn, H1. cbn [bind].
    rewrite (IH _ (api_emit r b) c'); [reflexivity|reflexivity| |exact H2].
    cbn [done_data]. unfold api_emit at 1. cbn [doneData].
    now rewrite D.
Qed.

Lemma send_chunks_emit (c0 : Chat) chunks :
  forall (s : Send) (r : Reader) c',
  pending s = true ->
  aborted s = false ->
  buf s = buffer r ->
  done_data s = doneData r ->
  onEvents c0 (calls r) = Ok (chat s) ->
  onEvents c0 (calls (fold_left api_chunk (map snd chunks) r)) = Ok c' ->
  send_reads s (map (fun x => (fst x, Chunk (snd x))) chunks) =
  Ok {| chat := c'; captured := captured s; abortRef := abortRef s; aborted := false;
        pending := true;
        buf := buffer (fold_left api_chunk (map snd chunks) r);
        done_data := doneData (fold_left api_chunk (map snd chunks) r) |}.
Proof.
  induction chunks as [|[now ch] l IH]; intros s r c' Pn Ab B D H0 H.
  - cbn in *. rewrite H0 in H. inversion H; subst c'.
    rewrite <- B, <- D, <- Pn, <- Ab. now destruct s.
  - cbn [map fold_left snd fst] in *. cbn [send_reads].
    destruct (api_chunks_calls (map snd l) (api_chunk r ch)) as [more E].
    rewrite E, onEvents_app in H. apply bind_ok in H. destruct H as (c1 & H1 & H2).
    pose proof H1 as H1'.
    rewrite api_chunk_calls, onEvents_app, H0 in H1'. cbn [bind] in H1'.
    assert (R1 : api_chunk r ch =
                 {| buffer := snd (pump (buffer r) ch);
                    calls := calls (api_chunk r ch);
                    doneData := doneData (fold_left api_emit (fst (pump (buffer r) ch)) r) |}).
    { unfold api_chunk. now destruct (pump (buffer r) ch). }
    unfold send_read at 1. rewrite Pn, Ab. cbn [reader_read]. rewrite B.
    destruct (pump (buffer r) ch) as [blocks rest] eqn:Pu. cbn [fst snd] in *.
    rewrite (send_blocks_emit now blocks _ r c1); [|reflexivity|exact D|exact H1'].
    cbn [bind].
    rewrite (IH _ (api_chunk r ch) c').
    + reflexivity.
    + reflexivity.
    + reflexivity.
    + rewrite R1. reflexivity.
    + rewrite R1. reflexivity.
    + exact H1.
    + rewrite E, onEvents_app, H1. exact H2.
Qed.

Lemma send_body_emit (c0 : Chat) chunks now :
  forall (s : Send) c',
  pending s = true ->
  aborted s = false ->
  buf s = [] ->
  done_data s = VNull ->
  chat s = c0 ->
  onEvents c0 (fst (postChatStream (map snd chunks))) = Ok c' ->
  send_reads s (body_reads chunks now) =
  Ok (send_fallback
        {| chat := c'; captured := captured s; abortRef := abortRef s; aborted := false;
           pending := true;
           buf := buffer (fold_left api_chunk (map snd chunks) reader_start);
           done_data := snd (postChatStream (map snd chunks)) |}).
Proof.
  intros s c' Pn Ab B D C H.
  unfold postChatStream in *. cbn [fst snd] in *.
  set (r := fold_left api_chunk (map snd chunks) reader_start) in *.
  assert (K : exists c1, onEvents c0 (calls r) = Ok c1 /\
                         (if nonempty (trim (buffer r))
                          then onEvent c1 (api_block (buffer r)) else Ok c1) = Ok c').
  { unfold api_flush in H. destruct (nonempty (trim (buffer r))).
    - unfold api_emit in H. cbn [calls] in H. rewrite onEvents_app in H.
      apply bind_ok in H. destruct H as (c1 & H1 & H2). exists c1. split; [exact H1|].
      cbn in H2. now destruct (onEvent c1 (api_block (buffer r))).
    - eauto. }
  destruct K as (c1 & K1 & K2).
  unfold body_reads.
  assert (SR : forall l l' (x : Send),
             send_reads x (l ++ l') = (y <- send_reads x l ;; send_reads y l')).
  { induction l as [|[n q] l IHl]; intros l' x; [reflexivity|].
    cbn [app send_reads]. destruct (send_read n x q); cbn [bind]; auto. }
  rewrite SR.
  rewrite (send_chunks_emit c0 chunks s reader_start c1 Pn Ab B D);
    [|cbn; now rewrite C|exact K1].
  fold r. cbn [bind send_reads]. unfold send_read. cbn [pending aborted reader_read buf].
  unfold api_flush.
  destruct (nonempty (trim (buffer r))) eqn:T.
  - unfold send_block. cbn [pending chat]. rewrite K2. cbn [bind pending].
    cbn [captured abortRef aborted buf done_data]. unfold api_emit. cbn [doneData].
    reflexivity.
  - inversion K2; subst c1. cbn [bind pending]. reflexivity.
Qed.

End SendFacts.

(** X6.  A streaming [send] of [useChat] is [postChatStream] with [onEvent]
    as its callback: when the callback throws on none of the events that
    [postChatStream] makes of the body, the reads of the body leave [send]
    with the state the callback has built, [doneData] being what
    [postChatStream] resolves to, and the fallback of [send] applied to
    it. *)
Theorem send_runs_onEvent_on_postChatStream
  (P : Platform) (now now' : N) (message : jsstring) (c c' : Chat)
  (chunks : list (N * jsstring)) :
  onEvents (chat (send_begin now message c)) (fst (postChatStream (map snd chunks))) = Ok c' ->
  send_reads (send_begin now message c) (body_reads chunks now') =
  Ok (send_fallback
        {| chat := c'; captured := sessionId c; abortRef := true; aborted := false;
           pending := true;
           buf := buffer (fold_left api_chunk (map snd chunks) reader_start);
           done_data := snd (postChatStream (map snd chunks)) |}).
Proof.
  intro H.
  exact (send_body_emit _ chunks now' (send_begin now message c) c'
           eq_refl eq_refl eq_refl eq_refl eq_refl H).
Qed.

(** X22.  The state a streaming [send] ends in does not depend on how the
    body was cut into chunks, nor on when the chunks were read: two bodies
    with the same text, on whose events the callback does not throw, leave
    the hook in the same state. *)
Theorem send_does_not_depend_on_chunks
  (P : Platform) (now now1 now2 : N) (message : jsstring) (c c' : Chat)
  (chunks1 chunks2 : list (N * jsstring)) :
  concat (map snd chunks1) = concat (map snd chunks2) ->
  onEvents (chat (send_begin now message c)) (fst (postChatStream (map snd chunks1))) = Ok c' ->
  send_reads (send_begin now message c) (body_reads chunks1 now1) =
  send_reads (send_begin now message c) (body_reads chunks2 now2).
Proof.
  intros E H.
  pose proof H as H2.
  rewrite postChatStream_chunks, E, <- postChatStream_chunks in H2.
  rewrite (send_body_emit _ chunks1 now1 (send_begin now message c) c'
             eq_refl eq_refl eq_refl eq_refl eq_refl H).
  rewrite (send_body_emit _ chunks2 now2 (send_begin now message c) c'
             eq_refl eq_refl eq_refl eq_refl eq_refl H2).
  rewrite (postChatStream_chunks (map snd chunks1)), E, <- postChatStream_chunks.
  rewrite (api_chunks (map snd chunks1) reader_start eq_refl).
  rewrite (api_chunks (map snd chunks2) reader_start eq_refl).
  now rewrite E.
Qed.

(** ** Where the two decoders agree *)

Section AgreeFacts.

Context {P : Platform}.

Lemma scans_agree lines :
  forallb is_field_line lines = true ->
  forall f, fold_left api_line lines f = fold_left window_line lines f.
Proof.
  induction lines as [|l t IH]; intros H f; [reflexivity|].
  cbn in H. apply andb_true_iff in H. destruct H as [Hl Ht].
  cbn [fold_left]. rewrite <- (IH Ht). f_equal.
  unfold api_line, window_line.
  unfold is_field_line, is_event_line, is_data_line in Hl.
  destruct (startsWith l (lit "event:")); [reflexivity|].
  destruct (startsWith l (lit "data:")); [reflexivity|discriminate].
Qed.

Lemma blocks_agree block :
  fields_only block = true -> api_block block = window_block block.
Proof.
  intro H. unfold api_block, window_block, decode_block, raw_payload.
  now rewrite (scans_agree _ H).
Qed.

Lemma map_blocks_agree blocks :
  Forall (fun b => fields_only b = true) blocks ->
  map api_block blocks = map window_block blocks.
Proof.
  induction 1 as [|b l Hb _ IH]; [reflexivity|].
  cbn [map]. now rewrite IH, (blocks_agree _ Hb).
Qed.

End AgreeFacts.

(** ** Events the reducer of [useChat] takes without an exception *)

Section TameFacts.

Context {P : Platform}.

Local Abbreviation val := (value number).

Lemma has_assistant_last (l : list Message) :
  has_assistant l = true ->
  exists before m after,
    l = before ++ m :: after /\ has_role (lit "assistant") m = true /\
    none_of (has_role (lit "assistant")) after.
Proof.
  intro H. destruct (last_of_kind (has_role (lit "assistant")) l) as [N|K]; [|exact K].
  exfalso. unfold has_assistant in H. apply existsb_exists in H.
  destruct H as (x & I & T). unfold none_of in N. rewrite Forall_forall in N.
  rewrite (N x I) in T. discriminate.
Qed.

Lemma texts_are_strings_middle (before after : list Message) m :
  texts_are_strings (before ++ m :: after) =
  texts_are_strings before && (is_string (text m) && texts_are_strings after).
Proof. unfold texts_are_strings. now rewrite forallb_app. Qed.

Lemma has_assistant_middle (before after : list Message) m :
  has_role (lit "assistant") m = true -> has_assistant (before ++ m :: after) = true.
Proof.
  intro T. unfold has_assistant. rewrite existsb_app. cbn [existsb]. rewrite T.
  now rewrite orb_true_r.
Qed.

(** A new text for the last assistant turn of a list whose texts are
    strings. *)
Lemma rewrite_last_text (before after : list Message) m t :
  has_role (lit "assistant") m = true ->
  texts_are_strings (before ++ m :: after) = true ->
  texts_are_strings (before ++ with_text m (VStr t) :: after) = true /\
  has_assistant (before ++ with_text m (VStr t) :: after) = true /\
  length (before ++ with_text m (VStr t) :: after) = length (before ++ m :: after).
Proof.
  intros T S. rewrite texts_are_strings_middle in *.
  apply andb_true_iff in S. destruct S as [Sb S].
  apply andb_true_iff in S. destruct S as [_ Sa].
  split; [now rewrite Sb, Sa|]. split.
  - now apply has_assistant_middle.
  - now rewrite !length_app.
Qed.

Lemma js_add_strings (a b : jsstring) : js_add (@VStr number a) (VStr b) = Ok (VStr (a ++ b)).
Proof. reflexivity. Qed.

Lemma or_else_string (v : val) :
  is_string v = true -> exists t, or_else v (VStr []) = VStr t.
Proof.
  destruct v; try discriminate. intros _. unfold or_else.
  destruct (truthy (VStr s)); eauto.
Qed.

Lemma onEvent_tame (c : Chat) ev :
  texts_are_strings (messages c) = true ->
  has_assistant (messages c) = true ->
  tame ev = true ->
  exists c',
    onEvent c ev = Ok c' /\
    texts_are_strings (messages c') = true /\
    has_assistant (messages c') = true /\
    length (messages c') = length (messages c).
Proof.
  intros S A T.
  destruct (has_assistant_last _ A) as (before & m & after & E & Tm & N).
  unfold tame in T. apply andb_true_iff in T. destruct T as [T Ta].
  apply andb_true_iff in T. destruct T as [Td Te].
  assert (Sm : is_string (text m) = true).
  { rewrite E, texts_are_strings_middle in S.
    apply andb_true_iff in S. destruct S as [_ S].
    now apply andb_true_iff in S. }
  destruct (or_else_string _ Sm) as [t Ot].
  unfold onEvent.
  destruct (str_eqb (event ev) (lit "session")
            && truthy (get_opt (data ev) (lit "sessionId"))).
  { exists (set_sessionId (get_opt (data ev) (lit "sessionId")) c). auto. }
  destruct (str_eqb (event ev) (lit "message")).
  { unfold append_delta. rewrite E, (lastIndexOf_last _ _ _ _ Tm N), nth_error_middle.
    unfold prints in Td.
    assert (K : exists s,
               (if str_eqb (typeof (data ev)) (lit "string") then Ok (data ev)
                else s <- ToString (data ev) ;; Ok (VStr s)) = Ok (VStr s)).
    { destruct (data ev) as [| |b|n|s|items|props] eqn:D;
        try (destruct (ToString (data ev)) as [s|x|x] eqn:Q; rewrite D in Q;
             [|rewrite Q in Td; discriminate|rewrite Q in Td; discriminate];
             exists s; cbn [typeof]; literals; now rewrite Q).
      exists s. reflexivity. }
    destruct K as [s K]. rewrite K. cbn [bind]. rewrite Ot, js_add_strings.
    cbn [bind in_updater]. rewrite set_at_middle.
    eexists. split; [reflexivity|]. cbn [messages set_messages].
    rewrite E in S.
    exact (rewrite_last_text before after m (t ++ s) Tm S). }
  destruct (str_eqb (event ev) (lit "done")).
  { eexists. split; [reflexivity|].
    set (c1 := if truthy (get_opt (data ev) (lit "sessionId"))
               then set_sessionId (get_opt (data ev) (lit "sessionId")) c else c).
    assert (M1 : messages c1 = messages c).
    { unfold c1. now destruct (truthy (get_opt (data ev) (lit "sessionId"))). }
    assert (G : forall x : Chat,
              messages (set_loading false
                          (if isArray (get_opt (data ev) (lit "sources"))
                           then set_sources (get_opt (data ev) (lit "sources")) x
                           else x)) = messages x).
    { intro x. now destruct (isArray (get_opt (data ev) (lit "sources"))). }
    rewrite G.
    destruct (truthy (get_opt (data ev) (lit "answer"))) eqn:Tr.
    - rewrite ?Tr in Ta. cbn [negb] in Ta. rewrite orb_false_r in Ta.
      destruct (get_opt (data ev) (lit "answer")) as [| |b|n|s|items|props];
        try discriminate.
      cbn [messages set_messages]. rewrite M1, E.
      rewrite (put_answer_last _ _ _ _ Tm N). rewrite E in S.
      exact (rewrite_last_text before after m s Tm S).
    - rewrite M1. auto. }
  destruct (str_eqb (event ev) (lit "error")).
  { assert (K : exists s,
               (if truthy (get_opt (data ev) (lit "error"))
                then ToString (get_opt (data ev) (lit "error"))
                else Ok (lit "Unknown stream error")) = Ok s).
    { destruct (truthy (get_opt (data ev) (lit "error"))); [|eauto].
      unfold prints in Te.
      destruct (ToString (get_opt (data ev) (lit "error"))); try discriminate. eauto. }
    destruct K as [s K]. rewrite K. cbn [bind].
    unfold append_error. rewrite E, (lastIndexOf_last _ _ _ _ Tm N), nth_error_middle.
    rewrite Ot, js_add_strings. cbn [bind in_updater]. rewrite set_at_middle.
    eexists. split; [reflexivity|]. cbn [messages set_messages set_loading].
    rewrite E in S.
    exact (rewrite_last_text before after m _ Tm S). }
  exists c. auto.
Qed.

Lemma onEvents_tame evs :
  forall c : Chat,
  texts_are_strings (messages c) = true ->
  has_assistant (messages c) = true ->
  forallb tame evs = true ->
  exists c',
    onEvents c evs = Ok c' /\
    texts_are_strings (messages c') = true /\
    has_assistant (messages c') = true /\
    length (messages c') = length (messages c).
Proof.
  induction evs as [|ev l IH]; intros c S A T.
  - exists c. auto.
  - cbn in T. apply andb_true_iff in T. destruct T as [Te Tl].
    destruct (onEvent_tame c ev S A Te) as (c1 & E1 & S1 & A1 & L1).
    destruct (IH c1 S1 A1 Tl) as (c' & E' & S' & A' & L').
    exists c'. cbn [onEvents]. rewrite E1. cbn [bind].
    split; [exact E'|]. split; [exact S'|]. split; [exact A'|congruence].
Qed.

Lemma resolved_is_last_done chunks :
  snd (postChatStream chunks) = last_done_payload (fst (postChatStream chunks)).
Proof.
  unfold postChatStream; cbn [fst snd].
  assert (H : doneData (fold_left api_chunk chunks reader_start) =
              last_done_payload (calls (fold_left api_chunk chunks reader_start)))
    by (now apply api_chunks_last_done).
  unfold api_flush.
  destruct (nonempty (trim (buffer (fold_left api_chunk chunks reader_start)))).
  - now apply api_emit_last_done.
  - exact H.
Qed.

Lemma tame_last_done evs :
  forallb tame evs = true ->
  is_string (get_opt (last_done_payload evs) (lit "answer"))
  || negb (truthy (get_opt (last_done_payload evs) (lit "answer"))) = true.
Proof.
  intro T. unfold last_done_payload.
  destruct (find is_done (rev evs)) as [ev|] eqn:F; [|reflexivity].
  apply find_some in F. destruct F as [I _]. apply in_rev in I.
  rewrite forallb_forall in T. specialize (T ev I).
  unfold tame in T. now apply andb_true_iff in T.
Qed.

End TameFacts.

(** X24.  On events whose payloads hold text the reducer of [useChat] never
    throws, and a streaming [send] adds exactly two turns: when the texts of
    the list are strings before the call and each event of the body has a
    payload and an [error] that [String()] accepts and an [answer] that is a
    string or absent, the reads of the body end without an exception, every
    text is a string again, and the list is two turns longer than before the
    call. *)
Theorem send_of_text_events_adds_two_turns
  (P : Platform) (now now' : N) (message : jsstring) (c : Chat)
  (chunks : list (N * jsstring)) :
  texts_are_strings (messages c) = true ->
  forallb tame (fst (postChatStream (map snd chunks))) = true ->
  exists s,
    send_reads (send_begin now message c) (body_reads chunks now') = Ok s /\
    pending s = false /\
    loading (chat s) = false /\
    texts_are_strings (messages (chat s)) = true /\
    length (messages (chat s)) = (2 + length (messages c))%nat.
Proof.
  intros S T.
  pose proof (tame_last_done _ T) as Ta.
  rewrite <- resolved_is_last_done in Ta.
  set (s0 := send_begin now message c).
  assert (S0 : texts_are_strings (messages (chat s0)) = true).
  { unfold s0, send_begin. cbn [chat messages appendMessage set_messages set_loading].
    unfold texts_are_strings in *. rewrite !forallb_app, S. reflexivity. }
  assert (A0 : has_assistant (messages (chat s0)) = true).
  { unfold s0, send_begin. cbn [chat messages appendMessage set_messages set_loading].
    unfold has_assistant. rewrite existsb_app. cbn [existsb].
    unfold has_role at 2. cbn [role]. rewrite str_eqb_refl.
    now rewrite orb_true_r. }
  assert (L0 : length (messages (chat s0)) = (2 + length (messages c))%nat).
  { unfold s0, send_begin. cbn [chat messages appendMessage set_messages set_loading].
    rewrite !length_app. cbn. lia. }
  destruct (onEvents_tame _ (chat s0) S0 A0 T) as (c' & E & S' & A' & L').
  eexists. split.
  { exact (send_body_emit _ chunks now' s0 c' eq_refl eq_refl eq_refl eq_refl eq_refl E). }
  split; [reflexivity|]. split; [reflexivity|].
  unfold send_fallback.
  cbn [chat messages set_loading set_sessionId done_data].
  set (dd := snd (postChatStream (map snd chunks))) in *.
  assert (G : forall x : Chat,
            messages (if truthy (get_opt dd (lit "sources"))
                      then set_sources (get_opt dd (lit "sources")) x else x) = messages x).
  { intro x. now destruct (truthy (get_opt dd (lit "sources"))). }
  rewrite G.
  destruct (truthy (get_opt dd (lit "answer"))) eqn:Tr.
  - rewrite ?Tr in Ta. cbn [negb] in Ta. rewrite orb_false_r in Ta.
    destruct (get_opt dd (lit "answer")) as [| |b|n|t|items|props]; try discriminate.
    cbn [messages set_messages].
    destruct (has_assistant_last _ A') as (before & m & after & Em & Tm & N).
    rewrite Em, (put_answer_last _ _ _ _ Tm N). rewrite Em in S'.
    destruct (rewrite_last_text before after m t Tm S') as (R1 & _ & R3).
    split; [exact R1|]. rewrite R3, <- Em. congruence.
  - split; [exact S'|congruence].
Qed.

(** ** What the window shows does not depend on the chunks *)

Section ShownFacts.

Context {P : Platform}.

Local Abbreviation val := (value number).

Lemma shown_app (l l' : list Message) : shown (l ++ l') = shown l ++ shown l'.
Proof. apply map_app. Qed.

Lemma none_of_shown (l : list Message) :
  forall l', shown l = shown l' ->
  none_of assistant_or_system l -> none_of assistant_or_system l'.
Proof.
  induction l as [|x t IH]; intros [|y u] H N; try discriminate; [constructor|].
  cbn in H. injection H as Hr Ht Hs. inversion N; subst.
  constructor.
  - unfold assistant_or_system in *. now rewrite <- Hr.
  - now apply IH.
Qed.

Lemma shown_replace now now' t (l l' : list Message) :
  shown l = shown l' ->
  shown (replaceLastAssistantText now t l) = shown (replaceLastAssistantText now' t l').
Proof.
  intro H.
  destruct (last_of_kind assistant_or_system l) as [N|(before & m & after & E & T & N)].
  - rewrite (replaceLastAssistantText_none _ _ _ N),
            (replaceLastAssistantText_none _ _ _ (none_of_shown _ _ H N)).
    rewrite !shown_app, H. reflexivity.
  - subst l. symmetry in H. unfold shown in H. rewrite map_app in H.
    apply map_eq_app in H. destruct H as (b' & r' & -> & Hb & Hr).
    cbn [map] in Hr. apply map_eq_cons in Hr. destruct Hr as (m' & a' & -> & Hm & Ha).
    injection Hm as Hrole Htext.
    assert (T' : assistant_or_system m' = true)
      by (unfold assistant_or_system in *; now rewrite Hrole).
    assert (N' : none_of assistant_or_system a')
      by (apply (none_of_shown after); [symmetry; exact Ha|exact N]).
    rewrite (replaceLastAssistantText_last _ _ _ _ _ T N),
            (replaceLastAssistantText_last _ _ _ _ _ T' N').
    unfold shown. rewrite !map_app. cbn [map role text]. now rewrite Hb, Ha, Hrole.
Qed.

Lemma dispatch_shown now now' ev (m m' : list Message) (ab : val) :
  shown m = shown m' ->
  (exists m1 m2 ab1,
     dispatch now ev (m, ab) = Ok (m1, ab1) /\
     dispatch now' ev (m', ab) = Ok (m2, ab1) /\
     shown m1 = shown m2) \/
  (exists e, dispatch now ev (m, ab) = Throw e /\ dispatch now' ev (m', ab) = Throw e) \/
  (exists e, dispatch now ev (m, ab) = Crash e /\ dispatch now' ev (m', ab) = Crash e).
Proof.
  intro H. unfold dispatch.
  destruct (str_eqb (event ev) (lit "session")).
  { left. eauto 10. }
  destruct (str_eqb (event ev) (lit "message")).
  { destruct (take_delta (data ev) ab) as [x|e|e]; cbn [bind]; eauto.
    left. do 3 eexists. split; [reflexivity|]. split; [reflexivity|].
    now apply shown_replace. }
  destruct (str_eqb (event ev) (lit "done")).
  { destruct (take_final (data ev) ab) as [x|e|e]; cbn [bind]; eauto.
    left. do 3 eexists. split; [reflexivity|]. split; [reflexivity|].
    now apply shown_replace. }
  destruct (str_eqb (event ev) (lit "error")).
  { destruct (ToString (or_else (get_opt (data ev) (lit "error")) (data ev)))
      as [x|e|e]; cbn [bind]; eauto.
    left. do 3 eexists. split; [reflexivity|]. split; [reflexivity|].
    rewrite !shown_app, H. reflexivity. }
  left. eauto 10.
Qed.

Lemma dispatch_leftover_shown now now' ev (m m' : list Message) (ab : val) :
  shown m = shown m' ->
  shown (fst (dispatch_leftover now ev (m, ab))) =
    shown (fst (dispatch_leftover now' ev (m', ab))) /\
  snd (dispatch_leftover now ev (m, ab)) = snd (dispatch_leftover now' ev (m', ab)).
Proof.
  intro H. unfold dispatch_leftover.
  destruct (str_eqb (event ev) (lit "message")).
  { destruct (take_delta (data ev) ab) as [x|e|e]; cbn [bind fst snd]; auto.
    split; [now apply shown_replace|reflexivity]. }
  destruct (str_eqb (event ev) (lit "done")).
  { destruct (take_final (data ev) ab) as [x|e|e]; cbn [bind fst snd]; auto.
    split; [now apply shown_replace|reflexivity]. }
  cbn [fst snd]. auto.
Qed.

Lemma alike_refl (a : Window * Stream) : alike a a.
Proof. unfold alike. repeat split. Qed.

Lemma alike_sym (a b : Window * Stream) : alike a b -> alike b a.
Proof. unfold alike. intuition congruence. Qed.

Lemma alike_trans (a b c : Window * Stream) : alike a b -> alike b c -> alike a c.
Proof. unfold alike. intuition congruence. Qed.

Lemma shown_catch now now' e (w w' : Window) :
  shown (turns w) = shown (turns w') ->
  shown (turns (window_catch now e w)) = shown (turns (window_catch now' e w')).
Proof.
  intro H. cbn [window_catch stop_streaming set_turns turns].
  rewrite !shown_app. f_equal. now apply shown_replace.
Qed.

Lemma alike_window_step now now' block (w w' : Window) (s s' : Stream) :
  alike (w, s) (w', s') ->
  alike (window_step now (w, s) block) (window_step now' (w', s') block).
Proof.
  intro A. pose proof A as A0.
  destruct A as (A1 & A2 & A3 & A4 & A5 & A6 & A7 & A8 & A9). cbn [fst snd] in *.
  unfold window_step. rewrite A8, A9.
  destruct (reading s'); [|exact A0].
  destruct (dispatch_shown now now' (window_block block) (turns w) (turns w')
              (assistantBuffer s') A1)
    as [(m1 & m2 & ab1 & E1 & E2 & Hs)|[(e & E1 & E2)|(e & E1 & E2)]];
    rewrite E1, E2; unfold alike; cbn [fst snd];
    cbn [window_catch stop_streaming set_turns stream_with turns session input isStreaming
         streamIndicator streamingAbortController signal_aborted reading assistantBuffer];
    repeat split; auto;
    rewrite !shown_app; f_equal; now apply shown_replace.
Qed.

Lemma alike_window_steps blocks :
  forall blocks' (a b : Window * Stream),
  map snd blocks = map snd blocks' ->
  alike a b -> alike (window_steps a blocks) (window_steps b blocks').
Proof.
  induction blocks as [|[n x] l IH]; intros [|[n' x'] l'] a b H A; try discriminate.
  - exact A.
  - cbn [map snd] in H. injection H as Hx Hl. subst x'.
    unfold window_steps. cbn [fold_left fst snd].
    apply IH; [exact Hl|].
    destruct a as [w s], b as [w' s']. now apply alike_window_step.
Qed.

Lemma window_step_keeps now block (a : Window * Stream) :
  leftover (snd (window_step now a block)) = leftover (snd a) /\
  signal_aborted (snd (window_step now a block)) = signal_aborted (snd a).
Proof.
  destruct a as [w s]. unfold window_step. destruct (reading s); [|auto].
  destruct (dispatch now (window_block block) (turns w, assistantBuffer s))
    as [[m ab]|e|e]; cbn; auto.
Qed.

Lemma window_steps_keep blocks :
  forall a : Window * Stream,
  leftover (snd (window_steps a blocks)) = leftover (snd a) /\
  signal_aborted (snd (window_steps a blocks)) = signal_aborted (snd a).
Proof.
  induction blocks as [|[n x] l IH]; intro a; [auto|].
  unfold window_steps. cbn [fold_left fst snd].
  destruct (IH (window_step n a x)) as [L S].
  destruct (window_step_keeps n x a) as [L1 S1].
  unfold window_steps in *. split; congruence.
Qed.

Lemma window_steps_idle blocks :
  forall a : Window * Stream, reading (snd a) = false -> window_steps a blocks = a.
Proof.
  induction blocks as [|[n x] l IH]; intros a R; [reflexivity|].
  unfold window_steps. cbn [fold_left fst snd].
  assert (E : window_step n a x = a).
  { destruct a as [w s]. cbn [snd] in R. unfold window_step. now rewrite R. }
  rewrite E. now apply IH.
Qed.

Lemma window_steps_app blocks blocks' (a : Window * Stream) :
  window_steps a (blocks ++ blocks') = window_steps (window_steps a blocks) blocks'.
Proof. unfold window_steps. apply fold_left_app. Qed.

Lemma window_reads_idle reads :
  forall a : Window * Stream, reading (snd a) = false -> window_reads a reads = a.
Proof.
  induction reads as [|[n r] l IH]; intros a R; [reflexivity|].
  unfold window_reads. cbn [fold_left fst snd].
  assert (E : window_read n a r = a).
  { destruct a as [w s]. cbn [snd] in R. now apply window_read_idle. }
  rewrite E. now apply IH.
Qed.

Lemma window_read_chunk now (w : Window) (s : Stream) c :
  reading s = true -> signal_aborted s = false ->
  window_read now (w, s) (Chunk c) =
  window_steps (w, stream_with true (snd (pump (leftover s) c)) (assistantBuffer s) s)
    (map (pair now) (fst (pump (leftover s) c))).
Proof.
  intros R A. unfold window_read. rewrite R, A. cbn [reader_read].
  destruct (pump (leftover s) c) as [blocks rest]. cbn [fst snd].
  generalize (w, stream_with true rest (assistantBuffer s) s).
  induction blocks as [|b l IH]; intro st; [reflexivity|].
  cbn [map fold_left]. unfold window_steps. cbn [fold_left fst snd]. apply IH.
Qed.

(** The reads of the chunks of a body seen as the blocks of the whole body,
    each with the time it was read at. *)
Lemma chunks_as_steps chunks :
  forall (w : Window) (s : Stream),
  reading s = true -> signal_aborted s = false ->
  find_first blank_line (leftover s) = None ->
  exists blocks,
    map snd blocks = fst (pump (leftover s) (concat (map snd chunks))) /\
    alike (window_reads (w, s) (map (fun x => (fst x, Chunk (snd x))) chunks))
          (window_steps (w, s) blocks) /\
    (reading (snd (window_reads (w, s) (map (fun x => (fst x, Chunk (snd x))) chunks)))
     = true ->
     leftover (snd (window_reads (w, s) (map (fun x => (fst x, Chunk (snd x))) chunks)))
     = snd (pump (leftover s) (concat (map snd chunks)))).
Proof.
  induction chunks as [|[now c] l IH]; intros w s R A F.
  - exists []. cbn [map concat]. rewrite (pump_nil _ F). cbn [fst snd map].
    split; [reflexivity|]. split; [apply alike_refl|reflexivity].
  - cbn [map concat fst snd]. unfold window_reads. cbn [fold_left fst snd].
    fold (window_reads (window_read now (w, s) (Chunk c))
            (map (fun x => (fst x, Chunk (snd x))) l)).
    rewrite (window_read_chunk now w s c R A).
    rewrite pump_app. cbn [fst snd].
    set (blocks_c := fst (pump (leftover s) c)).
    set (rest := snd (pump (leftover s) c)).
    set (s0 := stream_with true rest (assistantBuffer s) s).
    set (st1 := window_steps (w, s0) (map (pair now) blocks_c)).
    assert (A1 : alike st1 (window_steps (w, s) (map (pair now) blocks_c))).
    { apply alike_window_steps; [reflexivity|].
      unfold alike, s0. cbn. repeat split. congruence. }
    destruct (window_steps_keep (map (pair now) blocks_c) (w, s0)) as [K1 K2].
    fold st1 in K1, K2. cbn [snd s0 stream_with leftover signal_aborted] in K1, K2.
    assert (Ms : map snd (map (pair now) blocks_c) = blocks_c).
    { rewrite map_map. cbn [snd]. apply map_id. }
    destruct (reading (snd st1)) eqn:R1.
    + destruct st1 as [w1 s1] eqn:E1. cbn [snd] in *.
      assert (F1 : find_first blank_line (leftover s1) = None).
      { rewrite K1. apply pump_rest_free. }
      destruct (IH w1 s1 R1 (eq_trans K2 A) F1) as (blocks' & M' & A' & L').
      rewrite K1 in M', L'.
      exists (map (pair now) blocks_c ++ blocks').
      split; [rewrite map_app, Ms, M'; reflexivity|].
      split; [|exact L'].
      rewrite window_steps_app.
      eapply alike_trans; [exact A'|].
      apply alike_window_steps; [reflexivity|exact A1].
    + exists (map (pair now) blocks_c ++ map (pair now) (fst (pump rest (concat (map snd l))))).
      split.
      { rewrite map_app, Ms, map_map. cbn [snd]. now rewrite map_id. }
      rewrite (window_reads_idle _ st1 R1). split.
      * rewrite window_steps_app.
        rewrite (window_steps_idle _ (window_steps (w, s) (map (pair now) blocks_c))).
        { exact A1. }
        destruct A1 as (_ & _ & _ & _ & _ & _ & _ & A8 & _).
        rewrite <- A8. exact R1.
      * rewrite R1. discriminate.
Qed.

Lemma alike_end now now' (a b : Window * Stream) :
  alike a b ->
  (reading (snd a) = true -> leftover (snd a) = leftover (snd b)) ->
  alike (window_read now a EndOfBody) (window_read now' b EndOfBody) /\
  (signal_aborted (snd a) = false -> reading (snd (window_read now a EndOfBody)) = false).
Proof.
  intros A L. pose proof A as A0.
  destruct a as [w s], b as [w' s'].
  destruct A as (A1 & A2 & A3 & A4 & A5 & A6 & A7 & A8 & A9). cbn [fst snd] in *.
  unfold window_read. rewrite A8, A7.
  destruct (reading s') eqn:R; [|split; [exact A0|intros _; cbn [snd]; congruence]].
  rewrite (L A8), A9.
  destruct (signal_aborted s') eqn:Ab; cbn [reader_read].
  - split; [|discriminate].
    unfold alike; cbn [fst snd];
    cbn [window_catch stop_streaming set_turns stream_with turns session input isStreaming
         streamIndicator streamingAbortController signal_aborted reading assistantBuffer].
    repeat split; auto; try congruence.
    rewrite !shown_app; f_equal; now apply shown_replace.
  - destruct (window_leftover (leftover s')) as [ev|].
    + destruct (dispatch_leftover_shown now now' ev (turns w) (turns w')
                  (assistantBuffer s') A1) as [Hs Hb].
      destruct (dispatch_leftover now ev (turns w, assistantBuffer s')) as [m1 ab1].
      destruct (dispatch_leftover now' ev (turns w', assistantBuffer s')) as [m2 ab2].
      cbn [fst snd] in Hs, Hb.
      split; [|reflexivity].
      unfold alike; cbn [fst snd];
      cbn [stop_streaming set_turns stream_with turns session input isStreaming
           streamIndicator streamingAbortController signal_aborted reading
           assistantBuffer].
      repeat split; auto; congruence.
    + split; [|reflexivity].
      unfold alike; cbn [fst snd];
      cbn [stop_streaming set_turns stream_with turns session input isStreaming
           streamIndicator streamingAbortController signal_aborted reading
           assistantBuffer].
      repeat split; auto; congruence.
Qed.

Lemma window_reads_body (a : Window * Stream) chunks now :
  window_reads a (body_reads chunks now) =
  window_read now (window_reads a (map (fun x => (fst x, Chunk (snd x))) chunks)) EndOfBody.
Proof.
  unfold window_reads, body_reads. now rewrite fold_left_app.
Qed.

End ShownFacts.

(** X25.  What the chat window shows at the end of a response does not depend
    on how the body was cut into chunks: two bodies with the same text leave
    the same roles and texts in the list, the same answer gathered and the
    same flags, and the call has ended; only the times of the turns and the
    buffer can differ.  This holds for every body, also when an event ends
    the call in the [catch]. *)
Theorem window_text_does_not_depend_on_chunks
  (P : Platform) (w : Window) (s : Stream) (now1 now2 : N)
  (chunks1 chunks2 : list (N * jsstring)) :
  reading s = true ->
  signal_aborted s = false ->
  find_first blank_line (leftover s) = None ->
  concat (map snd chunks1) = concat (map snd chunks2) ->
  alike (window_reads (w, s) (body_reads chunks1 now1))
        (window_reads (w, s) (body_reads chunks2 now2)) /\
  reading (snd (window_reads (w, s) (body_reads chunks1 now1))) = false.
Proof.
  intros R A F E.
  destruct (chunks_as_steps chunks1 w s R A F) as (b1 & M1 & A1 & L1).
  destruct (chunks_as_steps chunks2 w s R A F) as (b2 & M2 & A2 & L2).
  rewrite !window_reads_body.
  set (st1 := window_reads (w, s) (map (fun x => (fst x, Chunk (snd x))) chunks1)) in *.
  set (st2 := window_reads (w, s) (map (fun x => (fst x, Chunk (snd x))) chunks2)) in *.
  assert (A12 : alike st1 st2).
  { eapply alike_trans; [exact A1|].
    eapply alike_trans; [|apply alike_sym; exact A2].
    apply alike_window_steps; [|apply alike_refl].
    rewrite M1, M2. exact (f_equal (fun t => fst (pump (leftover s) t)) E). }
  assert (L12 : reading (snd st1) = true -> leftover (snd st1) = leftover (snd st2)).
  { intro R1. rewrite (L1 R1).
    assert (R2 : reading (snd st2) = true).
    { destruct A12 as (_ & _ & _ & _ & _ & _ & _ & A8 & _). congruence. }
    rewrite (L2 R2). exact (f_equal (fun t => snd (pump (leftover s) t)) E). }
  destruct (alike_end now1 now2 st1 st2 A12 L12) as [Ae Re].
  split; [exact Ae|]. apply Re.
  destruct (window_steps_keep b1 (w, s)) as [_ K].
  destruct A1 as (_ & _ & _ & _ & _ & _ & A7 & _). cbn [snd] in K. congruence.
Qed.

(** X26.  How an [error] event is shown.  [useChat] adds the message to the
    answer itself: two line feeds and [[Error: ...]] behind the text of the
    last assistant turn, with the words [Unknown stream error] when the
    payload names no error, and it clears [loading].  The chat window leaves
    the answer alone and adds a system notice that holds the [error] of the
    payload, or the payload itself when it has none. *)
Theorem error_event_is_shown
  (P : Platform) (d : value number) (e : jsstring) :
  (forall c before m after t,
     messages c = before ++ m :: after ->
     has_role (lit "assistant") m = true ->
     none_of (has_role (lit "assistant")) after ->
     text m = VStr t ->
     (truthy (get_opt d (lit "error")) = true /\ ToString (get_opt d (lit "error")) = Ok e) \/
     (truthy (get_opt d (lit "error")) = false /\ e = lit "Unknown stream error") ->
     onEvent c {| event := lit "error"; data := d |} =
     Ok (set_loading false
           (set_messages
              (before
               ++ with_text m (VStr (t ++ [LF; LF] ++ lit "[Error: " ++ e ++ lit "]"))
               :: after) c))) /\
  (forall now m (ab : value number),
     ToString (or_else (get_opt d (lit "error")) d) = Ok e ->
     dispatch now {| event := lit "error"; data := d |} (m, ab) =
     Ok (m ++ [system_notice now e], ab)).
Proof.
  split.
  - intros c before m after t E T N Tx H.
    unfold onEvent. cbn [event data]. literals.
    assert (S : truthy (get_opt d (lit "sessionId")) && false = false)
      by apply andb_false_r.
    assert (K : (if truthy (get_opt d (lit "error"))
                 then ToString (get_opt d (lit "error"))
                 else Ok (lit "Unknown stream error")) = Ok e).
    { destruct H as [[H1 H2]|[H1 H2]]; rewrite H1; [exact H2|now rewrite H2]. }
    rewrite K. cbn [bind].
    unfold append_error. rewrite E, (lastIndexOf_last _ _ _ _ T N), nth_error_middle, Tx.
    assert (O : or_else (@VStr number t) (VStr []) = VStr t).
    { unfold or_else. cbn. now destruct t. }
    rewrite O. cbn [js_add ToPrimitive bind is_string orb ToString in_updater].
    now rewrite set_at_middle.
  - intros now m ab H. unfold dispatch. cbn [event data]. literals.
    now rewrite H.
Qed.

(** X27.  Nothing is sent without text or without a session: when the input
    holds white space only, or no session is selected, Enter and the button
    leave the window as it is: no turn is added, the input stays, and no
    request is made.  With text and a session the trimmed text is sent:
    the list gets the user's turn with it and an empty assistant turn, the
    input is emptied and one more call reads. *)
Theorem nothing_is_sent_without_text_or_session
  (P : Platform) (a : App) (now : N) :
  (blank (input (window a)) = true \/ truthy (session (window a)) = false ->
   step a (Submit now) = a) /\
  (blank (input (window a)) = false ->
   truthy (session (window a)) = true ->
   isStreaming (window a) = false ->
   turns (window (step a (Submit now))) =
     turns (window a)
     ++ [{| role := lit "user"; text := VStr (trim (input (window a))); ts := Some now |};
         {| role := lit "assistant"; text := VStr []; ts := Some now |}] /\
   input (window (step a (Submit now))) = [] /\
   isStreaming (window (step a (Submit now))) = true /\
   length (streams (step a (Submit now))) = S (length (streams a))).
Proof.
  split.
  - intro H. cbn [step]. destruct (isStreaming (window a)); [reflexivity|].
    unfold handleSend. destruct H as [H|H].
    + now rewrite (trim_blank _ H).
    + rewrite H. cbn [negb]. now destruct (negb (nonempty (trim (input (window a))))).
  - intros B T S. cbn [step]. rewrite S. unfold handleSend.
    assert (K : nonempty (trim (input (window a))) = true).
    { rewrite nonempty_trim. unfold blank in B.
      destruct (existsb (fun c => negb (is_white_space c)) (input (window a))) eqn:X;
        [reflexivity|].
      exfalso.
      assert (Y : forallb is_white_space (input (window a)) = true).
      { apply forallb_forall. intros c I.
        destruct (is_white_space c) eqn:W; [reflexivity|].
        assert (Z : existsb (fun c => negb (is_white_space c)) (input (window a)) = true).
        { apply existsb_exists. exists c. now rewrite W. }
        congruence. }
      congruence. }
    rewrite K, T. cbn [negb window turns input isStreaming streams].
    split; [reflexivity|]. split; [reflexivity|]. split; [reflexivity|].
    rewrite length_app, length_abort_current. cbn. lia.
Qed.

(** * The loop of [handleSend], the end of a body, and the hook with its calls *)

(** ** The events the loop dispatches on *)

Section LoopFacts.

Context {P : Platform}.

Local Abbreviation val := (value number).

Lemma dispatched_idle blocks :
  forall st : Window * Stream, reading (snd st) = false -> dispatched st blocks = [].
Proof.
  destruct blocks as [|x l]; intros st R; [reflexivity|].
  cbn [dispatched]. now rewrite R.
Qed.

Lemma dispatched_alike blocks :
  forall blocks' (a b : Window * Stream),
  map snd blocks = map snd blocks' ->
  alike a b -> dispatched a blocks = dispatched b blocks'.
Proof.
  induction blocks as [|[n x] l IH]; intros [|[n' x'] l'] a b H A; try discriminate.
  - reflexivity.
  - cbn [map snd] in H. injection H as Hx Hl. subst x'.
    cbn [dispatched fst snd].
    assert (R : reading (snd a) = reading (snd b)).
    { destruct A as (_ & _ & _ & _ & _ & _ & _ & A8 & _). exact A8. }
    rewrite R. destruct (reading (snd b)); [|reflexivity].
    f_equal. apply IH; [exact Hl|].
    destruct a as [w s], b as [w' s']. now apply alike_window_step.
Qed.

Lemma dispatched_app blocks blocks' :
  forall st : Window * Stream,
  dispatched st (blocks ++ blocks') =
  dispatched st blocks ++ dispatched (window_steps st blocks) blocks'.
Proof.
  induction blocks as [|[n x] l IH]; intro st; [reflexivity|].
  cbn [app dispatched fst snd].
  destruct (reading (snd st)) eqn:R.
  - cbn [app]. f_equal. rewrite IH. reflexivity.
  - cbn [app]. rewrite (window_steps_idle _ st R).
    symmetry. now apply dispatched_idle.
Qed.

(** The events dispatched on are a first part of the events of the
    blocks. *)
Lemma dispatched_prefix blocks :
  forall st : Window * Stream,
  dispatched st blocks =
    firstn (length (dispatched st blocks)) (map window_block (map snd blocks)) /\
  (length (dispatched st blocks) <= length blocks)%nat.
Proof.
  induction blocks as [|[n x] l IH]; intro st; [split; [reflexivity|apply le_n]|].
  cbn [dispatched fst snd map].
  destruct (reading (snd st)).
  - destruct (IH (window_step n st x)) as [E L].
    cbn [length firstn]. split; [now rewrite <- E|cbn; lia].
  - split; [reflexivity|cbn; lia].
Qed.

(** A call that reads after its blocks has dispatched on the event of each
    one. *)
Lemma dispatched_all blocks :
  forall st : Window * Stream,
  reading (snd (window_steps st blocks)) = true ->
  dispatched st blocks = map window_block (map snd blocks).
Proof.
  induction blocks as [|[n x] l IH]; intros st R; [reflexivity|].
  cbn [dispatched fst snd map].
  destruct (reading (snd st)) eqn:R0.
  - f_equal. apply IH. exact R.
  - rewrite (window_steps_idle _ st R0) in R. congruence.
Qed.

Lemma loop_events_idle reads :
  forall st : Window * Stream, reading (snd st) = false -> loop_events st reads = [].
Proof.
  induction reads as [|[n r] l IH]; intros st R; [reflexivity|].
  cbn [loop_events fst snd]. rewrite R. cbn [app].
  assert (E : window_read n st r = st).
  { destruct st as [w s]. now apply window_read_idle. }
  rewrite E. now apply IH.
Qed.

Lemma loop_events_app reads reads' :
  forall st : Window * Stream,
  loop_events st (reads ++ reads') =
  loop_events st reads ++ loop_events (window_reads st reads) reads'.
Proof.
  induction reads as [|[n r] l IH]; intro st; [reflexivity|].
  cbn [app loop_events fst snd]. rewrite IH, <- app_assoc. reflexivity.
Qed.

(** The events of the reads of the chunks of a body are the events of the
    blocks of the whole body that the loop gets to. *)
Lemma chunks_events chunks :
  forall (w : Window) (s : Stream),
  reading s = true -> signal_aborted s = false ->
  find_first blank_line (leftover s) = None ->
  exists blocks,
    map snd blocks = fst (pump (leftover s) (concat (map snd chunks))) /\
    loop_events (w, s) (chunk_reads chunks) = dispatched (w, s) blocks.
Proof.
  induction chunks as [|[now c] l IH]; intros w s R A F.
  - exists []. cbn [map concat]. rewrite (pump_nil _ F). split; reflexivity.
  - unfold chunk_reads. cbn [map concat fst snd]. fold (chunk_reads l).
    cbn [loop_events fst snd]. rewrite R, A. cbn [reader_read].
    rewrite (window_read_chunk now w s c R A).
    rewrite pump_app. cbn [fst snd].
    set (blocks_c := fst (pump (leftover s) c)).
    set (rest := snd (pump (leftover s) c)).
    set (s0 := stream_with true rest (assistantBuffer s) s).
    set (st1 := window_steps (w, s0) (map (pair now) blocks_c)).
    assert (A0 : alike (w, s0) (w, s)).
    { unfold alike, s0. cbn. repeat split. congruence. }
    assert (A1 : alike st1 (window_steps (w, s) (map (pair now) blocks_c)))
      by (apply alike_window_steps; [reflexivity|exact A0]).
    assert (D0 : dispatched (w, s0) (map (pair now) blocks_c) =
                 dispatched (w, s) (map (pair now) blocks_c))
      by (apply dispatched_alike; [reflexivity|exact A0]).
    destruct (window_steps_keep (map (pair now) blocks_c) (w, s0)) as [K1 K2].
    fold st1 in K1, K2. cbn [snd s0 stream_with leftover signal_aborted] in K1, K2.
    assert (Ms : map snd (map (pair now) blocks_c) = blocks_c).
    { rewrite map_map. cbn [snd]. apply map_id. }
    destruct (reading (snd st1)) eqn:R1.
    + destruct st1 as [w1 s1] eqn:E1. cbn [snd] in *.
      assert (F1 : find_first blank_line (leftover s1) = None).
      { rewrite K1. apply pump_rest_free. }
      destruct (IH w1 s1 R1 (eq_trans K2 A) F1) as (blocks' & M' & E').
      rewrite K1 in M'.
      exists (map (pair now) blocks_c ++ blocks').
      split; [rewrite map_app, Ms, M'; reflexivity|].
      rewrite dispatched_app, D0, E'. f_equal.
      apply dispatched_alike; [reflexivity|exact A1].
    + exists (map (pair now) blocks_c
              ++ map (pair now) (fst (pump rest (concat (map snd l))))).
      split.
      { rewrite map_app, Ms, map_map. cbn [snd]. now rewrite map_id. }
      rewrite (loop_events_idle _ st1 R1), app_nil_r, dispatched_app, D0.
      rewrite (dispatched_idle _ (window_steps (w, s) (map (pair now) blocks_c))).
      { now rewrite app_nil_r. }
      destruct A1 as (_ & _ & _ & _ & _ & _ & _ & A8 & _).
      rewrite <- A8. exact R1.
Qed.

(** The same facts for a call that starts with an empty buffer, on the
    blocks of the whole body. *)
Lemma fresh_call_blocks (w : Window) (s : Stream) (timed : list (N * jsstring)) :
  reading s = true -> signal_aborted s = false -> leftover s = [] ->
  exists steps,
    map snd steps = removelast (split blank_line (concat (map snd timed))) /\
    loop_events (w, s) (chunk_reads timed) = dispatched (w, s) steps /\
    alike (window_reads (w, s) (chunk_reads timed)) (window_steps (w, s) steps) /\
    signal_aborted (snd (window_reads (w, s) (chunk_reads timed))) = false /\
    (reading (snd (window_reads (w, s) (chunk_reads timed))) = true ->
     leftover (snd (window_reads (w, s) (chunk_reads timed))) =
     last (split blank_line (concat (map snd timed))) []).
Proof.
  intros R A L.
  assert (F : find_first blank_line (leftover s) = None) by now rewrite L.
  destruct (chunks_as_steps timed w s R A F) as (b & M & Al & Lf).
  destruct (chunks_events timed w s R A F) as (e & Me & Ee).
  rewrite L in M, Me, Lf. unfold pump in M, Me, Lf. cbn [app fst snd] in M, Me, Lf.
  exists b. split; [exact M|].
  split.
  { rewrite Ee. apply dispatched_alike; [congruence|apply alike_refl]. }
  split; [exact Al|]. split; [|exact Lf].
  destruct (window_steps_keep b (w, s)) as [_ K].
  destruct Al as (_ & _ & _ & _ & _ & _ & A7 & _).
  unfold chunk_reads. cbn [snd] in K. congruence.
Qed.

(** The events of the loop are a first part of the events the blocks of the
    body decode to, and all of them when the call still reads after the
    chunks. *)
Lemma loop_events_decoded (w : Window) (s : Stream) (timed : list (N * jsstring)) :
  reading s = true -> signal_aborted s = false -> leftover s = [] ->
  (exists n,
     loop_events (w, s) (chunk_reads timed) =
     firstn n (fst (window_decode (map snd timed)))) /\
  (reading (snd (window_reads (w, s) (chunk_reads timed))) = true ->
   loop_events (w, s) (chunk_reads timed) = fst (window_decode (map snd timed))).
Proof.
  intros R A L.
  destruct (fresh_call_blocks w s timed R A L) as (b & M & E & Al & _).
  assert (D : fst (window_decode (map snd timed)) = map window_block (map snd b)).
  { rewrite window_decode_chunks. unfold window_decode. cbn [fold_left].
    unfold window_chunk, pump. cbn [fst snd app]. now rewrite <- M. }
  split.
  - exists (length (dispatched (w, s) b)).
    rewrite E, D. exact (proj1 (dispatched_prefix b (w, s))).
  - intro Rd. rewrite E, D. apply dispatched_all.
    destruct Al as (_ & _ & _ & _ & _ & _ & _ & A8 & _).
    rewrite <- A8. exact Rd.
Qed.

End LoopFacts.


(** X23.  On a body in which every line that is not blank starts with
    [event:] or [data:], [postChatStream] hands its callback, block for
    block, the event that [handleSend] decodes from that block, the block
    left in the buffer at the end included.  The events the loop of
    [handleSend] dispatches on are a first part of them: all of them when
    the call still reads after the chunks, and those up to the event whose
    branch throws otherwise. *)
Theorem decoders_agree_on_field_lines (P : Platform) (chunks : list jsstring) :
  forallb fields_only (split blank_line (concat chunks)) = true ->
  fst (postChatStream chunks) =
    map window_block (removelast (split blank_line (concat chunks)))
    ++ leftover_events (last (split blank_line (concat chunks)) []) /\
  forall (w : Window) (s : Stream) (timed : list (N * jsstring)) (now : N),
    map snd timed = chunks ->
    reading s = true -> signal_aborted s = false -> leftover s = [] ->
    (exists n,
       loop_events (w, s) (body_reads timed now) = firstn n (fst (postChatStream chunks))) /\
    (reading (snd (window_reads (w, s) (chunk_reads timed))) = true ->
     loop_events (w, s) (body_reads timed now) = fst (postChatStream chunks)).
Proof.
  intro H.
  assert (F : Forall (fun b => fields_only b = true) (split blank_line (concat chunks))).
  { apply Forall_forall. intros b I. rewrite forallb_forall in H. now apply H. }
  set (blocks := split blank_line (concat chunks)) in *.
  assert (Ev : fst (postChatStream chunks) =
               map window_block (removelast blocks) ++ leftover_events (last blocks [])).
  { rewrite postChatStream_chunks.
    unfold postChatStream. cbn [fold_left fst].
    unfold api_chunk, pump. cbn [buffer reader_start snd fst app]. fold blocks.
    unfold api_flush, leftover_events, window_leftover. cbn [buffer].
    rewrite api_emit_all_calls. cbn [calls reader_start app].
    rewrite (map_blocks_agree _ (Forall_removelast _ _ F)).
    destruct (nonempty (trim (last blocks []))).
    - unfold api_emit. cbn [calls].
      f_equal. f_equal. apply blocks_agree.
      apply (Forall_last (fun b => fields_only b = true)); [reflexivity|exact F].
    - cbn [calls]. now rewrite app_nil_r. }
  split; [exact Ev|].
  intros w s timed now T R A L.
  destruct (fresh_call_blocks w s timed R A L) as (b & M & E & Al & Sg & Lf).
  assert (Tb : split blank_line (concat (map snd timed)) = blocks).
  { unfold blocks. f_equal. now rewrite T. }
  assert (Mb : map snd b = removelast blocks)
    by exact (eq_trans M (f_equal (@removelast jsstring) Tb)).
  assert (Lb : reading (snd (window_reads (w, s) (chunk_reads timed))) = true ->
               leftover (snd (window_reads (w, s) (chunk_reads timed))) = last blocks [])
    by (intro Rd; exact (eq_trans (Lf Rd) (f_equal (fun l => last l ([] : jsstring)) Tb))).
  clear M Lf.
  assert (B : loop_events (w, s) (body_reads timed now) =
              loop_events (w, s) (chunk_reads timed)
              ++ loop_events (window_reads (w, s) (chunk_reads timed)) [(now, EndOfBody)])
    by (apply loop_events_app).
  rewrite B, Ev, E.
  destruct (dispatched_prefix b (w, s)) as [Pf Ln].
  rewrite Mb in Pf. rewrite <- (length_map snd b), Mb in Ln.
  destruct (reading (snd (window_reads (w, s) (chunk_reads timed)))) eqn:Rd.
  - assert (All : dispatched (w, s) b = map window_block (removelast blocks)).
    { rewrite <- Mb. apply dispatched_all.
      destruct Al as (_ & _ & _ & _ & _ & _ & _ & A8 & _).
      rewrite <- A8. exact Rd. }
    assert (End : loop_events (window_reads (w, s) (chunk_reads timed)) [(now, EndOfBody)] =
                  leftover_events (last blocks [])).
    { cbn [loop_events fst snd]. rewrite Rd, Sg. cbn [reader_read].
      rewrite (Lb eq_refl). apply app_nil_r. }
    rewrite All, End. split; [|reflexivity].
    exists (length (map window_block (removelast blocks) ++ leftover_events (last blocks []))).
    now rewrite firstn_all.
  - rewrite (loop_events_idle _ _ Rd), app_nil_r. split; [|discriminate].
    exists (length (dispatched (w, s) b)).
    rewrite firstn_app.
    assert (Z : (length (dispatched (w, s) b)
                 - length (map window_block (removelast blocks)) = 0)%nat).
    { rewrite length_map. lia. }
    rewrite Z. cbn [firstn]. rewrite app_nil_r. exact Pf.
Qed.

(** ** What [postChatStream] resolves to *)

Section ResolveFacts.

Context {P : Platform}.

Lemma find_skips (p : StreamEvent -> bool) l :
  forall l', Forall (fun x => p x = false) l -> find p (l ++ l') = find p l'.
Proof.
  induction l as [|x t IH]; intros l' H; [reflexivity|].
  inversion H as [|? ? Hx Ht]; subst. cbn [app find]. rewrite Hx. now apply IH.
Qed.

Lemma last_done_payload_last before ev after :
  is_done ev = true ->
  Forall (fun x => is_done x = false) after ->
  last_done_payload (before ++ ev :: after) = data ev.
Proof.
  intros D N. unfold last_done_payload.
  rewrite rev_app_distr. cbn [rev]. rewrite <- app_assoc. cbn [app].
  rewrite find_skips by (apply Forall_rev; exact N).
  cbn [find]. now rewrite D.
Qed.

Lemma last_done_payload_none evs :
  Forall (fun x => is_done x = false) evs -> last_done_payload evs = VNull.
Proof.
  intro N. unfold last_done_payload.
  rewrite <- (app_nil_r (rev evs)), find_skips by (apply Forall_rev; exact N).
  reflexivity.
Qed.

End ResolveFacts.

(** C10.  The calls [postChatStream] makes to its callback are the events of
    the blocks of the body in their order, the block left in the buffer at
    the end of the body included when it is not blank, and the value its
    promise resolves to is the payload of the last of these events that is
    named [done], [null] when there is none. *)
Theorem postChatStream_resolves_to_last_done (P : Platform) (chunks : list jsstring) :
  fst (postChatStream chunks) =
    map api_block (removelast (split blank_line (concat chunks)))
    ++ (if nonempty (trim (last (split blank_line (concat chunks)) []))
        then [api_block (last (split blank_line (concat chunks)) [])]
        else []) /\
  snd (postChatStream chunks) = last_done_payload (fst (postChatStream chunks)) /\
  (forall before ev after,
     fst (postChatStream chunks) = before ++ ev :: after ->
     event ev = lit "done" ->
     Forall (fun x => is_done x = false) after ->
     snd (postChatStream chunks) = data ev) /\
  (Forall (fun x => is_done x = false) (fst (postChatStream chunks)) ->
   snd (postChatStream chunks) = VNull).
Proof.
  assert (R : snd (postChatStream chunks) = last_done_payload (fst (postChatStream chunks)))
    by apply resolved_is_last_done.
  split; [|split; [exact R|split]].
  - rewrite postChatStream_chunks.
    unfold postChatStream. cbn [fold_left fst].
    unfold api_chunk, pump. cbn [buffer reader_start snd fst app].
    unfold api_flush. cbn [buffer].
    destruct (nonempty (trim (last (split blank_line (concat chunks)) []))).
    + unfold api_emit at 1. cbn [calls].
      rewrite api_emit_all_calls. reflexivity.
    + cbn [calls]. rewrite api_emit_all_calls. cbn [calls reader_start app].
      now rewrite app_nil_r.
  - intros before ev after E D N. rewrite R, E.
    apply last_done_payload_last; [|exact N].
    unfold is_done. rewrite D. apply str_eqb_refl.
  - intro N. rewrite R. now apply last_done_payload_none.
Qed.

(** ** One hook, several calls *)

Section HookFacts.

Context {P : Platform}.

Local Abbreviation val := (value number).

Lemma nth_error_set_call (l : list Call) :
  forall i x c, nth_error l i = Some c -> nth_error (set_call i x l) i = Some x.
Proof.
  induction l as [|y t IH]; intros [|i] x c H; try discriminate; cbn; eauto.
Qed.

Lemma set_call_same (l : list Call) :
  forall i c, nth_error l i = Some c -> set_call i c l = l.
Proof.
  induction l as [|y t IH]; intros [|i] c H; try discriminate; cbn in *.
  - now inversion H.
  - f_equal. now apply IH.
Qed.

Lemma set_call_twice (l : list Call) :
  forall i x y, set_call i x (set_call i y l) = set_call i x l.
Proof.
  induction l as [|z t IH]; intros [|i] x y; cbn; try reflexivity.
  now rewrite IH.
Qed.

Lemma send_block_abortRef now (s s' : Send) block :
  send_block now s block = Ok s' -> abortRef s' = abortRef s /\ captured s' = captured s.
Proof.
  unfold send_block. destruct (pending s).
  - destruct (onEvent (chat s) (api_block block)); intro H; inversion H; subst;
      split; reflexivity.
  - intro H. inversion H. split; reflexivity.
Qed.

Lemma send_blocks_abortRef now blocks :
  forall s s' : Send,
  send_blocks now blocks s = Ok s' -> abortRef s' = abortRef s /\ captured s' = captured s.
Proof.
  induction blocks as [|b l IH]; intros s s' H; cbn in H.
  - inversion H. split; reflexivity.
  - apply bind_ok in H. destruct H as (s1 & H1 & H2).
    destruct (send_block_abortRef _ _ _ _ H1) as [A1 C1].
    destruct (IH _ _ H2) as [A2 C2]. split; congruence.
Qed.

Lemma send_read_abortRef now (s s' : Send) arrives :
  send_read now s arrives = Ok s' -> abortRef s' = abortRef s.
Proof.
  unfold send_read. destruct (pending s).
  - destruct (reader_read (aborted s) arrives) as [c| |e].
    + destruct (pump (buf s) c) as [blocks rest]. intro H.
      exact (proj1 (send_blocks_abortRef _ _ _ _ H)).
    + intro H. apply bind_ok in H. destruct H as (s1 & H1 & H2).
      inversion H2; subst.
      assert (A1 : abortRef s1 = abortRef s).
      { destruct (nonempty (trim (buf s))).
        - exact (proj1 (send_block_abortRef _ _ _ _ H1)).
        - now inversion H1. }
      destruct (pending s1); [exact A1|exact A1].
    + intro H. inversion H. reflexivity.
  - intro H. now inversion H.
Qed.

(** A call seen as a [send], stored and seen again. *)
Lemma as_send_as_call (h : Hook) i (s : Send) :
  abortRef s = match abortRef_current h with
               | Some j => Nat.eqb i j
               | None => false
               end ->
  hook_chat h = chat s ->
  as_send h i (as_call s) = s.
Proof.
  intros A C. unfold as_send, as_call. cbn. rewrite <- A, C. now destruct s.
Qed.

(** The reads of one call of the hook are the reads of that call seen as a
    [send]. *)
Lemma hook_reads_as_send settles :
  forall (h : Hook) i c (s' : Send),
  nth_error (hook_calls h) i = Some c ->
  send_reads (as_send h i c) settles = Ok s' ->
  hook_reads i h settles =
  Ok {| hook_chat := chat s';
        abortRef_current := abortRef_current h;
        hook_calls := set_call i (as_call s') (hook_calls h) |}.
Proof.
  induction settles as [|[now r] l IH]; intros h i c s' E H.
  - cbn in H. inversion H; subst s'. cbn.
    assert (V : as_call (as_send h i c) = c) by now destruct c.
    rewrite V, (set_call_same _ _ _ E). now destruct h.
  - cbn [send_reads] in H. apply bind_ok in H. destruct H as (s1 & H1 & H2).
    cbn [hook_reads]. unfold hook_read. rewrite E, H1. cbn [bind].
    set (h1 := {| hook_chat := chat s1; abortRef_current := abortRef_current h;
                  hook_calls := set_call i (as_call s1) (hook_calls h) |}).
    assert (E1 : nth_error (hook_calls h1) i = Some (as_call s1))
      by (apply (nth_error_set_call _ _ _ _ E)).
    assert (V : as_send h1 i (as_call s1) = s1).
    { apply as_send_as_call; [|reflexivity].
      rewrite (send_read_abortRef _ _ _ _ H1). reflexivity. }
    rewrite (IH h1 i (as_call s1) s' E1); [|rewrite V; exact H2].
    cbn [h1 hook_calls abortRef_current]. now rewrite set_call_twice.
Qed.

End HookFacts.

(** X28.  Cancelling stops the streaming [send] that was started last, the
    one whose controller [abortRef.current] holds: [cancelStream] aborts its
    request, clears [loading] and empties the ref without touching a turn,
    and no read of that call that settles afterwards hands an event to the
    reducer; the first one runs the [catch] of [send], which adds an
    [Error: ...] turn at the end, and the later ones do nothing, so every
    turn is kept with the text it had. *)
Theorem cancel_keeps_partial_text
  (P : Platform) (h : Hook) (i : nat) (c : Call) :
  abortRef_current h = Some i ->
  nth_error (hook_calls h) i = Some c ->
  call_pending c = true ->
  loading (hook_chat (cancelStream h)) = false /\
  messages (hook_chat (cancelStream h)) = messages (hook_chat h) /\
  abortRef_current (cancelStream h) = None /\
  (exists c1,
     nth_error (hook_calls (cancelStream h)) i = Some c1 /\ call_aborted c1 = true) /\
  forall settles, exists h',
    hook_reads i (cancelStream h) settles = Ok h' /\
    loading (hook_chat h') = false /\
    kept (messages (hook_chat h)) (messages (hook_chat h')) /\
    (messages (hook_chat h') = messages (hook_chat h) \/
     exists now,
       messages (hook_chat h') =
       messages (hook_chat h) ++
       [{| role := lit "assistant";
           text := VStr (lit "Error: " ++ Error_text AbortError);
           ts := Some now |}]).
Proof.
  intros Hr Hc Hp.
  set (c1 := {| call_captured := call_captured c; call_aborted := true;
                call_pending := call_pending c; call_buf := call_buf c;
                call_done := call_done c |}).
  assert (Ec : cancelStream h =
               {| hook_chat := set_loading false (hook_chat h);
                  abortRef_current := None;
                  hook_calls := set_call i c1 (hook_calls h) |}).
  { unfold cancelStream. now rewrite Hr, Hc. }
  rewrite Ec. cbn [hook_chat abortRef_current hook_calls].
  assert (E1 : nth_error (set_call i c1 (hook_calls h)) i = Some c1)
    by (apply (nth_error_set_call _ _ _ _ Hc)).
  split; [reflexivity|]. split; [reflexivity|]. split; [reflexivity|].
  split; [exists c1; split; [exact E1|reflexivity]|].
  intro settles.
  set (h1 := {| hook_chat := set_loading false (hook_chat h);
                abortRef_current := None;
                hook_calls := set_call i c1 (hook_calls h) |}).
  set (s1 := as_send h1 i c1).
  destruct (send_reads_cancelled s1 settles Hp eq_refl) as [E|[now E]].
  - rewrite (hook_reads_as_send settles h1 i c1 s1 E1 E).
    eexists. split; [reflexivity|]. cbn. repeat split.
    + apply kept_refl.
    + now left.
  - rewrite (hook_reads_as_send settles h1 i c1 _ E1 E).
    eexists. split; [reflexivity|]. cbn. repeat split.
    + apply kept_app.
    + right. now exists now.
Qed.

(** ** The theorems at concrete inputs

    Each hypothesis above is met by some input, and each statement that does
    not hold fails at a concrete one.  The examples run on [Demo.platform]. *)

Import Demo.

#[local] Existing Instance platform.


(** C2 at its failing input: [useChat] appends the string of the payload
    object, not its [delta]. *)
Lemma useChat_message_object_delta :
  (c1 <- onEvent (chat_with empty) (event_of "message" (payload "delta" "foo")) ;;
   onEvent c1 (event_of "message" (payload "delta" "bar"))) =
  Ok (chat_with "[object Object][object Object]").
Proof.
  reflexivity.
Qed.

(** C3 as stated fails: an empty [answer] leaves the gathered text in
    place, and a [done] event leaves [isStreaming] of the window up. *)
Lemma done_event_empty_answer_keeps_text :
  onEvent (chat_with "partial") (event_of "done" (payload "answer" empty)) =
  Ok (set_loading false (chat_with "partial")) /\
  isStreaming
    (window
       (step window_A_streaming
          (Read 0 3 (Chunk (block_of (lit "done") (lit "answer") (lit "final")))))) =
  true.
Proof.
  split; reflexivity.
Qed.

Lemma done_event_sets_answer_witness :
  truthy (get_opt (payload "answer" "final") (lit "answer")) = true /\
  exists c',
    onEvent (chat_with "partial") (event_of "done" (payload "answer" "final")) = Ok c' /\
    loading c' = false /\
    messages c' = [user_turn "q" 1; assistant_says "final" 1].
Proof.
  assert (T : truthy (get_opt (payload "answer" "final") (lit "answer")) = true)
    by reflexivity.
  split; [exact T|].
  destruct (done_event_sets_answer platform (payload "answer" "final")) as [H _].
  destruct (H T) as [Hu _].
  destruct (Hu (chat_with "partial")) as (c' & E & L & M & _).
  exists c'. split; [exact E|]. split; [exact L|].
  exact (M [user_turn "q" 1] (assistant_says "partial" 1) [] eq_refl eq_refl
           (Forall_nil _)).
Defined.


(** C5 as stated fails: after the switch to session B and the load of
    its turns, a chunk of the stream started for session A rewrites the
    answer session B had. *)
Lemma stale_stream_rewrites_new_session :
  turns
    (window
       (run window_A_streaming
          [SelectSession (VStr (lit "B"));
           Loaded 1 (Some history_B);
           Read 0 3 (Chunk (block_of (lit "message") (lit "delta") (lit " there")))])) =
  [user_turn "q" 0; assistant_says "Hi there" 3].
Proof.
  reflexivity.
Qed.

Lemma stale_stream_events_are_applied_witness :
  nth_error (streams window_A_streaming) 0 =
    Some {| signal_aborted := false; reading := true; leftover := [];
            assistantBuffer := VStr (lit "Hi") |} /\
  turns
    (window
       (step
          (step (step window_A_streaming (SelectSession (VStr (lit "B"))))
             (Loaded 1 (Some history_B)))
          (Read 0 3 (Chunk (block_of (lit "message") (lit "delta") (lit " there")))))) =
  replaceLastAssistantText 3 (VStr (lit "Hi" ++ lit " there")) history_B.
Proof.
  split; [reflexivity|].
  exact (proj1 (proj2
    (stale_stream_events_are_applied platform window_A_streaming 0%nat
       {| signal_aborted := false; reading := true; leftover := [];
          assistantBuffer := VStr (lit "Hi") |}
       3
       (block_of (lit "message") (lit "delta") (lit " there"))
       (lit "event: message" ++ [LF] ++ lit "data: {" ++ dq ++ lit "delta" ++ dq
        ++ lit ":" ++ dq ++ lit " there" ++ dq ++ lit "}")
       [] (lit "Hi") (lit " there") (VStr (lit "B")) history_B
       eq_refl eq_refl eq_refl eq_refl eq_refl eq_refl))).
Defined.

(** C6 at its failing input: [postChatStream] leaves the line without a
    prefix out of the payload, the decoder of [handleSend] takes it in. *)
Lemma postChatStream_drops_unprefixed_line :
  fst (postChatStream [lit "data: a" ++ [LF] ++ lit "b" ++ [LF; LF]]) =
  [event_of "message" (VStr (lit "a"))] /\
  fst (window_decode [lit "data: a" ++ [LF] ++ lit "b" ++ [LF; LF]]) =
  [event_of "message" (VStr (lit "a" ++ [LF] ++ lit "b"))].
Proof.
  split; reflexivity.
Qed.

(** C7 as stated fails: the turn a [done] event has filled is not
    closed, a later [message] event changes its text. *)
Lemma message_after_done_changes_text :
  (c1 <- onEvent (chat_with "Hi") (event_of "done" (payload "answer" "final")) ;;
   onEvent c1 (event_of "message" (VStr (lit "!")))) =
  Ok (set_loading false (chat_with "final!")).
Proof.
  reflexivity.
Qed.

Lemma events_touch_last_assistant_turn_only_witness :
  onEvent (chat_with "Hi") (event_of "message" (VStr (lit "!"))) = Ok (chat_with "Hi!") /\
  touches_last_assistant (messages (chat_with "Hi")) (messages (chat_with "Hi!")) /\
  (dispatch 3 (event_of "message" (payload "delta" "!"))
     ([user_turn "q" 1] ++ assistant_says "Hi" 1 :: [], VStr (lit "Hi")) =
   Ok ([user_turn "q" 1; assistant_says "Hi!" 3], VStr (lit "Hi!")) /\
   ([user_turn "q" 1; assistant_says "Hi!" 3] =
      [user_turn "q" 1] ++ assistant_says "Hi" 1 :: [] \/
    (exists t,
       [user_turn "q" 1; assistant_says "Hi!" 3] =
       [user_turn "q" 1] ++
       {| role := role (assistant_says "Hi" 1); text := t; ts := Some 3 |} :: []) \/
    (exists s,
       [user_turn "q" 1; assistant_says "Hi!" 3] =
       ([user_turn "q" 1] ++ assistant_says "Hi" 1 :: []) ++ [system_notice 3 s]))).
Proof.
  destruct (events_touch_last_assistant_turn_only platform) as (F1 & F2 & _ & _).
  assert (E : onEvent (chat_with "Hi") (event_of "message" (VStr (lit "!"))) =
              Ok (chat_with "Hi!")) by reflexivity.
  split; [exact E|]. split; [exact (F1 _ _ _ E)|].
  assert (D : dispatch 3 (event_of "message" (payload "delta" "!"))
                ([user_turn "q" 1] ++ assistant_says "Hi" 1 :: [], VStr (lit "Hi")) =
              Ok ([user_turn "q" 1; assistant_says "Hi!" 3], VStr (lit "Hi!")))
    by reflexivity.
  split; [exact D|].
  exact (F2 3 _ [user_turn "q" 1] (assistant_says "Hi" 1) [] _ _ _
           eq_refl (Forall_nil _) D).
Defined.

(** C8 as stated fails: a [session] event replaces an identifier that
    is already set. *)
Lemma session_event_overwrites_identifier :
  onEvent (set_sessionId (VStr (lit "A")) (chat_with "Hi"))
    (event_of "session" (payload "sessionId" "B")) =
  Ok (set_sessionId (VStr (lit "B")) (chat_with "Hi")).
Proof.
  reflexivity.
Qed.

Lemma session_event_sets_identifier_witness :
  truthy (get_opt (payload "sessionId" "B") (lit "sessionId")) = true /\
  onEvent chat_start (event_of "session" (payload "sessionId" "B")) =
  Ok (set_sessionId (VStr (lit "B")) chat_start).
Proof.
  split; [reflexivity|].
  exact (proj1 (session_event_sets_identifier platform (payload "sessionId" "B"))
           eq_refl chat_start).
Defined.

Lemma payload_parsed_or_raw_witness :
  (JSON_parse (strict_payload (lit "data: null")) = Some VNull /\
   data (api_block (lit "data: null")) = VNull) /\
  (JSON_parse (strict_payload (lit "data: 0")) = Some (VNum (Some 0%Z)) /\
   data (api_block (lit "data: 0")) = VNum (Some 0%Z)) /\
  (JSON_parse (lenient_payload (lit "hello")) = None /\
   data (window_block (lit "hello")) = VStr (lit "hello")).
Proof.
  split; [|split].
  - split; [reflexivity|].
    exact (proj1 (payload_parsed_or_raw platform (lit "data: null")) VNull eq_refl).
  - split; [reflexivity|].
    exact (proj1 (payload_parsed_or_raw platform (lit "data: 0"))
             (VNum (Some 0%Z)) eq_refl).
  - split; [reflexivity|].
    exact (proj1 (proj2 (proj2 (proj2 (payload_parsed_or_raw platform (lit "hello")))))
             eq_refl).
Defined.

Lemma window_message_deltas_append_witness :
  (st <- dispatch 2 (event_of "message" (payload "delta" "foo"))
           ([user_turn "q" 1] ++ assistant_says empty 1 :: [], VStr []) ;;
   dispatch 3 (event_of "message" (payload "delta" "bar")) st) =
  Ok ([user_turn "q" 1; assistant_says "foobar" 3], VStr (lit "foobar")).
Proof.
  exact (window_message_deltas_append platform 2 3 [user_turn "q" 1] []
           (assistant_says empty 1) [] (lit "foo") (lit "bar")
           eq_refl (Forall_nil _)).
Defined.

Lemma window_never_aborts_witness :
  gated window_A /\
  never_aborted
    (run window_A
       [Submit 1; SetInput (lit "again"); Submit 2;
        Read 0 3 (Chunk scenario_message); Read 0 4 EndOfBody; Submit 5]).
Proof.
  assert (G : gated window_A) by (split; [reflexivity|constructor]).
  split; [exact G|].
  exact (window_never_aborts platform window_A _ G).
Defined.

Lemma event_name_defaults_to_message_witness :
  Forall (fun l => is_event_line l = false) (block_lines (lit "data: hello")) /\
  event (api_block (lit "data: hello")) = lit "message" /\
  event (window_block (lit "data: hello")) = lit "message".
Proof.
  assert (H : Forall (fun l => is_event_line l = false)
                (block_lines (lit "data: hello")))
    by (repeat constructor).
  split; [exact H|].
  exact (event_name_defaults_to_message platform (lit "data: hello") H).
Defined.

(** The scenario of the specification, end to end: the answer of the [done]
    event stands in the assistant turn, and [sources] is the empty array. *)
Lemma scenario_hi_there :
  (exists s,
     send_reads (send_begin 1 (lit "q") chat_start)
       [(2, Chunk scenario_message); (3, Chunk scenario_done); (4, EndOfBody)] = Ok s /\
     messages (chat s) = [user_turn "q" 1; assistant_says "Hi there" 1] /\
     sources (chat s) = VArr [] /\
     loading (chat s) = false) /\
  turns
    (window
       (run window_A
          [Submit 1; Read 0 2 (Chunk scenario_message);
           Read 0 3 (Chunk scenario_done); Read 0 4 EndOfBody])) =
  [user_turn "hi" 1; assistant_says "Hi there" 3].
Proof.
  split.
  - eexists. split; [reflexivity|]. repeat split.
  - reflexivity.
Qed.

Lemma null_payload_ends_the_read_witness :
  window_block (lit "data: null") = event_of "message" VNull /\
  isStreaming
    (window (step window_A_streaming (Read 0 3 (Chunk (lit "data: null" ++ [LF; LF]))))) =
  false /\
  window_step 3
    (window window_A_streaming,
     {| signal_aborted := false; reading := true; leftover := [];
        assistantBuffer := VStr (lit "Hi") |})
    (lit "data: null") =
  (window_catch 3 TypeError_property_of_null (window window_A_streaming),
   {| signal_aborted := false; reading := false; leftover := [];
      assistantBuffer := VStr (lit "Hi") |}).
Proof.
  split; [reflexivity|]. split; [reflexivity|].
  exact (null_payload_ends_the_read platform 3 (window window_A_streaming)
           {| signal_aborted := false; reading := true; leftover := [];
              assistantBuffer := VStr (lit "Hi") |}
           (lit "data: null") eq_refl (or_introl eq_refl)).
Defined.

Lemma useChat_appends_string_of_object_witness :
  onEvent (chat_with "Hi") (event_of "message" (payload "delta" " there")) =
  Ok (chat_with "Hi[object Object]").
Proof.
  exact (useChat_appends_string_of_object platform (chat_with "Hi")
           [user_turn "q" 1] [] (assistant_says "Hi" 1) (lit "Hi")
           [(lit "delta", VStr (lit " there"))]
           eq_refl eq_refl (Forall_nil _) eq_refl eq_refl).
Defined.

(** ** The further theorems at concrete inputs *)

Import Samples.

Lemma line_ends_do_not_matter_witness :
  no_CR lf_body = true /\
  concat [lf_body] = lf_body /\
  concat crlf_chunks = crlf lf_body /\
  @postChatStream platform crlf_chunks = postChatStream [lf_body] /\
  fst (@window_decode platform crlf_chunks) = fst (window_decode [lf_body]) /\
  window_leftover (snd (@window_decode platform crlf_chunks)) =
    window_leftover (snd (window_decode [lf_body])).
Proof.
  assert (H1 : no_CR lf_body = true) by reflexivity.
  assert (H2 : concat [lf_body] = lf_body) by reflexivity.
  assert (H3 : concat crlf_chunks = crlf lf_body) by reflexivity.
  split; [exact H1|]. split; [exact H2|]. split; [exact H3|].
  exact (line_ends_do_not_matter platform lf_body [lf_body] crlf_chunks H1 H2 H3).
Defined.

Lemma blank_block_is_an_empty_message_witness :
  blank [32; 9] = true /\
  @api_block platform [32; 9] = event_of "message" (VStr []) /\
  @window_block platform [32; 9] = event_of "message" (VStr []) /\
  @window_leftover platform [32; 9] = None.
Proof.
  split; [reflexivity|].
  destruct (blank_block_is_an_empty_message platform [32; 9] eq_refl) as (A & W & L & _).
  split; [exact A|]. split; [exact W|exact L].
Defined.

Lemma streaming_send_keeps_other_turns_witness :
  exists s',
    send_reads send_with_partial
      [(5, Chunk (block_of (lit "message") (lit "delta") (lit " there")));
       (6, ReadFailed NetworkError)] = Ok s' /\
    grows (has_role (lit "assistant"))
      [user_turn "q" 1; assistant_says "Hi" 1] (messages (chat s')).
Proof.
  eexists. split; [reflexivity|].
  exact (streaming_send_keeps_other_turns platform
           [(5, Chunk (block_of (lit "message") (lit "delta") (lit " there")));
            (6, ReadFailed NetworkError)]
           send_with_partial _ eq_refl).
Defined.


Lemma one_call_reads_at_a_time_witness :
  one_call_reads window_A /\
  one_call_reads
    (run_requests window_A
       [Act (Submit 1); @Refused platform 0 2 (Some 503%Z) (lit "Service Unavailable") [];
        Act (SetInput (lit "again")); Act (Submit 3);
        Act (Read 1 4 (Chunk scenario_message))]).
Proof.
  assert (I : one_call_reads window_A) by (intros [|i] s H; discriminate H).
  split; [exact I|].
  exact (proj1 (one_call_reads_at_a_time platform window_A _ I)).
Defined.

Lemma refused_request_keeps_its_controller_witness :
  one_call_reads window_A_streaming /\
  nth_error (streams window_A_streaming) 0 = Some call_0 /\
  reading call_0 = true /\
  isStreaming
    (window
       (step_request window_A_streaming
          (@Refused platform 0 3 (Some 503%Z) (lit "Service Unavailable") []))) = false /\
  streamingAbortController
    (window
       (step_request window_A_streaming
          (@Refused platform 0 3 (Some 503%Z) (lit "Service Unavailable") []))) = Some 0%nat.
Proof.
  assert (I : one_call_reads window_A_streaming).
  { apply (one_call_reads_run
             [Act (Submit 1);
              Act (Read 0 2 (Chunk (block_of (lit "message") (lit "delta") (lit "Hi"))))]
             window_A).
    intros [|i] s H; discriminate H. }
  split; [exact I|]. split; [reflexivity|]. split; [reflexivity|].
  destruct (refused_request_keeps_its_controller platform window_A_streaming 0%nat call_0
              3 4 (Some 503%Z) (lit "Service Unavailable") [] I eq_refl eq_refl)
    as (S & C & _).
  split; [exact S|exact C].
Defined.

Lemma failed_read_erases_window_text_witness :
  turns (window window_A_streaming) = [user_turn "hi" 1] ++ assistant_says "Hi" 2 :: [] /\
  turns (fst (window_read 3 (window window_A_streaming, call_0) (ReadFailed NetworkError))) =
  ([user_turn "hi" 1] ++ assistant_says empty 3 :: [])
  ++ [system_notice 3 (lit "Stream error: " ++ Error_text NetworkError)].
Proof.
  split; [reflexivity|].
  exact (proj1 (failed_read_erases_window_text platform 3 NetworkError
                  (window window_A_streaming) call_0
                  [user_turn "hi" 1] [] (assistant_says "Hi" 2)
                  eq_refl eq_refl eq_refl eq_refl (Forall_nil _))).
Defined.


Lemma reset_does_not_stop_the_stream_witness :
  pump (buf send_with_partial) (lit "data: more" ++ [LF; LF]) = ([lit "data: more"], []) /\
  api_block (lit "data: more") = event_of "message" (VStr (lit "more")) /\
  exists s1 s2,
    send_read 5
      (with_chat (reset (sessionId (chat send_with_partial)) (chat send_with_partial))
         send_with_partial)
      (Chunk (lit "data: more" ++ [LF; LF])) = Ok s1 /\
    messages (chat s1) = [assistant_turn (VStr (lit "more"))] /\
    send_read 6 s1 EndOfBody = Ok s2 /\
    pending s2 = false.
Proof.
  split; [reflexivity|]. split; [reflexivity|].
  destruct (reset_does_not_stop_the_stream platform send_with_partial 5 6
              (lit "data: more" ++ [LF; LF]) (lit "data: more") [] (lit "more")
              eq_refl eq_refl eq_refl eq_refl eq_refl)
    as (_ & _ & _ & _ & s1 & s2 & R1 & M1 & R2 & P2 & _).
  exists s1, s2. auto.
Defined.

Lemma failed_stale_load_empties_the_list_witness :
  truthy (@VStr num (lit "B")) = true /\
  turns
    (window
       (run window_A
          [SelectSession (VStr (lit "A")); SelectSession (VStr (lit "B"));
           Loaded 2 (Some history_B)])) = history_B /\
  turns
    (window
       (step
          (run window_A
             [SelectSession (VStr (lit "A")); SelectSession (VStr (lit "B"));
              Loaded 2 (Some history_B)])
          (Loaded 1 None))) = [].
Proof.
  split; [reflexivity|].
  destruct (failed_stale_load_empties_the_list platform window_A
              (VStr (lit "A")) (VStr (lit "B")) history_B eq_refl)
    as (_ & T & _ & F & _).
  split; [exact T|exact F].
Defined.

Lemma stored_selection_survives_reload_witness :
  nonempty (lit "A") = true /\
  @persist platform (VStr (lit "A")) = Ok (Some (lit "A")) /\
  selectedSessionId
    (sessions_fetched (restore (Some (lit "A")))
       (Resolved (VArr [VObj [(lit "id", VStr (lit "B"))]]))
       (@mount platform (Some (lit "A")))) = VStr (lit "A").
Proof.
  split; [reflexivity|].
  destruct (stored_selection_survives_reload platform (lit "A")
              (Resolved (VArr [VObj [(lit "id", VStr (lit "B"))]])) eq_refl)
    as (Pe & _ & S & _).
  split; [exact Pe|exact S].
Defined.

Lemma send_runs_onEvent_on_postChatStream_witness :
  onEvents (chat (send_begin 1 (lit "q") chat_start))
    (fst (postChatStream [scenario_message; scenario_done])) = Ok chat_hi_there /\
  exists s,
    send_reads (send_begin 1 (lit "q") chat_start)
      (body_reads [(2, scenario_message); (3, scenario_done)] 4) = Ok s /\
    messages (chat s) = [user_turn "q" 1; assistant_says "Hi there" 1] /\
    loading (chat s) = false.
Proof.
  assert (H : onEvents (chat (send_begin 1 (lit "q") chat_start))
                (fst (postChatStream [scenario_message; scenario_done])) =
              Ok chat_hi_there) by reflexivity.
  split; [exact H|].
  eexists. split.
  - exact (send_runs_onEvent_on_postChatStream platform 1 4 (lit "q") chat_start
             chat_hi_there [(2, scenario_message); (3, scenario_done)] H).
  - split; reflexivity.
Defined.

Lemma send_does_not_depend_on_chunks_witness :
  concat (map snd [(2, scenario_message ++ scenario_done)]) =
    concat (map snd [(2, scenario_message); (3, scenario_done)]) /\
  send_reads (send_begin 1 (lit "q") (@chat_start platform))
    (body_reads [(2, scenario_message ++ scenario_done)] 3) =
  send_reads (send_begin 1 (lit "q") chat_start)
    (body_reads [(2, scenario_message); (3, scenario_done)] 4).
Proof.
  assert (E : concat (map snd [(2, scenario_message ++ scenario_done)]) =
              concat (map snd [(2, scenario_message); (3, scenario_done)]))
    by reflexivity.
  split; [exact E|].
  exact (send_does_not_depend_on_chunks platform 1 3 4 (lit "q") chat_start
           chat_hi_there [(2, scenario_message ++ scenario_done)]
           [(2, scenario_message); (3, scenario_done)] E eq_refl).
Defined.


Lemma send_of_text_events_adds_two_turns_witness :
  texts_are_strings (messages (@chat_start platform)) = true /\
  forallb tame (fst (@postChatStream platform [scenario_message; scenario_done])) = true /\
  exists s,
    send_reads (send_begin 1 (lit "q") chat_start)
      (body_reads [(2, scenario_message); (3, scenario_done)] 4) = Ok s /\
    pending s = false /\
    loading (chat s) = false /\
    texts_are_strings (messages (chat s)) = true /\
    length (messages (chat s)) = 2%nat.
Proof.
  split; [reflexivity|]. split; [reflexivity|].
  exact (send_of_text_events_adds_two_turns platform 1 4 (lit "q") chat_start
           [(2, scenario_message); (3, scenario_done)] eq_refl eq_refl).
Defined.

Lemma window_text_does_not_depend_on_chunks_witness :
  reading call_0 = true /\
  signal_aborted call_0 = false /\
  find_first blank_line (leftover call_0) = None /\
  concat (map snd [(3, scenario_message ++ scenario_done)]) =
    concat (map snd [(3, scenario_message); (4, scenario_done)]) /\
  alike
    (window_reads (window window_A_streaming, call_0)
       (body_reads [(3, scenario_message ++ scenario_done)] 4))
    (window_reads (window window_A_streaming, call_0)
       (body_reads [(3, scenario_message); (4, scenario_done)] 5)).
Proof.
  assert (E : concat (map snd [(3, scenario_message ++ scenario_done)]) =
              concat (map snd [(3, scenario_message); (4, scenario_done)]))
    by reflexivity.
  split; [reflexivity|]. split; [reflexivity|]. split; [reflexivity|].
  split; [exact E|].
  exact (proj1 (window_text_does_not_depend_on_chunks platform
                  (window window_A_streaming) call_0 4 5
                  [(3, scenario_message ++ scenario_done)]
                  [(3, scenario_message); (4, scenario_done)]
                  eq_refl eq_refl eq_refl E)).
Defined.

(** ** The loop, the end of a body and the hook at concrete inputs *)

Import Cases.


(** A branch that throws ends the loop: of the two blocks [data: null] and
    [data: x] the loop dispatches on the first one only, and the [catch]
    ends the call, where [postChatStream] hands both events to its
    callback. *)
Lemma loop_leaves_at_null_payload :
  loop_events (window window_A_streaming, call_0)
    (chunk_reads [(3, stream_of null_then_text)]) =
  [event_of "message" VNull] /\
  reading
    (snd (window_reads (window window_A_streaming, call_0)
            (chunk_reads [(3, stream_of null_then_text)]))) = false /\
  fst (@postChatStream platform [stream_of null_then_text]) =
  [event_of "message" VNull; event_of "message" (VStr (lit "x"))].
Proof.
  split; [reflexivity|]. split; reflexivity.
Qed.

Lemma postChatStream_resolves_to_last_done_witness :
  fst (@postChatStream platform done_twice) =
    [event_of "done" (VNum (Some 1%Z)); event_of "done" (VNum (Some 2%Z))] /\
  snd (@postChatStream platform done_twice) = VNum (Some 2%Z) /\
  snd (@postChatStream platform no_done) = VNull.
Proof.
  assert (E : fst (@postChatStream platform done_twice) =
              [event_of "done" (VNum (Some 1%Z))]
              ++ event_of "done" (VNum (Some 2%Z)) :: []) by reflexivity.
  split; [exact E|]. split.
  - exact (proj1 (proj2 (proj2 (postChatStream_resolves_to_last_done platform done_twice)))
             _ _ _ E eq_refl (Forall_nil _)).
  - apply (proj2 (proj2 (proj2 (postChatStream_resolves_to_last_done platform no_done)))).
    apply Forall_cons; [reflexivity|apply Forall_nil].
Defined.

(** C4 at its failing input.  A first streaming send has shown ["Hi"] and
    still reads when a second one is begun: [send] puts the new controller in
    [abortRef.current] and aborts nothing.  [cancelStream] then aborts the
    second call and clears [loading]; the request of the first call is not
    aborted, its next read hands over a chunk, and the [message] event of
    that chunk changes the transcript after the cancel. *)
Lemma cancel_misses_overwritten_send :
  exists h h',
    two_sends = Ok h /\
    messages (hook_chat h) =
      [user_turn "a" 1; assistant_says "Hi" 1; user_turn "b" 3; assistant_says empty 3] /\
    map call_pending (hook_calls h) = [true; true] /\
    abortRef_current h = Some 1%nat /\
    loading (hook_chat (cancelStream h)) = false /\
    map call_aborted (hook_calls (cancelStream h)) = [false; true] /\
    hook_read 0 5 (Chunk (lit "data: there" ++ [LF; LF])) (cancelStream h) = Ok h' /\
    messages (hook_chat h') =
      [user_turn "a" 1; assistant_says "Hi" 1; user_turn "b" 3; assistant_says "there" 3].
Proof.
  eexists. eexists. repeat split; reflexivity.
Qed.

Lemma cancel_keeps_partial_text_witness :
  abortRef_current one_send = Some 0%nat /\
  loading (hook_chat (cancelStream one_send)) = false /\
  messages (hook_chat (cancelStream one_send)) = [user_turn "a" 1; assistant_says "Hi" 1] /\
  exists h',
    hook_reads 0 (cancelStream one_send)
      [(5, Chunk (lit "data: there" ++ [LF; LF])); (6, EndOfBody)] = Ok h' /\
    loading (hook_chat h') = false /\
    kept [user_turn "a" 1; assistant_says "Hi" 1] (messages (hook_chat h')).
Proof.
  split; [reflexivity|].
  destruct (cancel_keeps_partial_text platform one_send 0%nat
              {| call_captured := VNull; call_aborted := false;
                 call_pending := true; call_buf := []; call_done := VNull |}
              eq_refl eq_refl eq_refl) as (L & M & _ & _ & R).
  split; [exact L|]. split; [exact M|].
  destruct (R [(5, Chunk (lit "data: there" ++ [LF; LF])); (6, EndOfBody)])
    as (h' & E & L' & K & _).
  exists h'. auto.
Defined.

Lemma decoders_agree_on_field_lines_witness :
  forallb fields_only (split blank_line (concat three_chunks)) = true /\
  fst (@postChatStream platform three_chunks) =
    map window_block (removelast (split blank_line (concat three_chunks)))
    ++ leftover_events (last (split blank_line (concat three_chunks)) []) /\
  loop_events (window window_A_streaming, call_0) (body_reads three_timed 5) =
    fst (@postChatStream platform three_chunks).
Proof.
  assert (H : forallb fields_only (split blank_line (concat three_chunks)) = true)
    by reflexivity.
  split; [exact H|].
  destruct (decoders_agree_on_field_lines platform three_chunks H) as [A W].
  split; [exact A|].
  exact (proj2 (W (window window_A_streaming) call_0 three_timed 5
                  eq_refl eq_refl eq_refl eq_refl) eq_refl).
Defined.
